(** * The tag-input widget of strapi-plugin-tag-manager

    A shallow embedding of [admin/src/components/TagManagerInput.tsx]:
    the decoder [parseTagValue], the slug derivation [makeSlug], and the
    handlers of the React component ([updateValue], [searchTags],
    [handleInputChange], [findOrCreateTag], [addTag], [removeTag],
    [handleKeyDown]) together with the part of the JavaScript run time
    they rest on (values, truthiness, [String], [JSON.parse],
    [JSON.stringify], [trim], [toLowerCase], [encodeURIComponent]).

    Strings are sequences of UTF-16 code units, as in the language.
    Handlers are written in a small free monad whose operations are the
    effects of the component: state updates, calls of the host's
    [onChange], HTTP requests, timers, console output. *)

From Stdlib Require Import List NArith ZArith Lia Bool String Ascii.
Import ListNotations.

Set Implicit Arguments.
Set Warnings "-register-all".

(** ** Strings *)

(** A JavaScript string: its UTF-16 code units. *)
Definition jsstring := list N.

(** An ASCII literal as a JavaScript string. *)
Definition str (s : string) : jsstring :=
  map N_of_ascii (list_ascii_of_string s).

(** The same, with every apostrophe standing for a double quote: JSON
    texts are written [json "['a']"] for the text ["a"] in brackets. *)
Definition json (s : string) : jsstring :=
  map (fun c => if N.eqb c 39 then 34%N else c) (str s).

Fixpoint jsstring_eqb (a b : jsstring) : bool :=
  match a, b with
  | [], [] => true
  | x :: a', y :: b' => N.eqb x y && jsstring_eqb a' b'
  | _, _ => false
  end.

(** The empty string is the only falsy string. *)
Definition nonempty {A} (l : list A) : bool :=
  match l with [] => false | _ :: _ => true end.

Definition in_range (lo hi c : N) : bool := N.leb lo c && N.leb c hi.

(** ** The platform

    What the JavaScript engine supplies and this development leaves
    open: IEEE-754 numbers with their conversions, and the Unicode
    character database outside the two blocks tabulated below (Basic
    Latin and Devanagari).  Every definition and theorem is parametric
    in an interpretation of this interface. *)
Class Platform : Type := {
  (** the Number type *)
  number : Type;
  (** the Number denoted by a JSON numeric token *)
  number_of_literal : jsstring -> number;
  (** ToBoolean: false on +0, -0 and NaN *)
  number_truthy : number -> bool;
  (** Number::toString *)
  Number_toString : number -> jsstring;
  (** false on NaN and the infinities *)
  number_isFinite : number -> bool;
  (** IsStrictlyEqual on two Numbers *)
  number_strict_equals : number -> number -> bool;
  (** SameValueZero on two Numbers *)
  number_same_value_zero : number -> number -> bool;
  (** [n > 0] *)
  number_positive : number -> bool;
  (** [StringToNumber(s) > 0] *)
  string_positive : jsstring -> bool;
  (** General_Category = Letter, for a code point outside the tabulated blocks *)
  uc_letter : N -> bool;
  (** General_Category = Number, likewise *)
  uc_number : N -> bool;
  (** [String.prototype.toLowerCase] on a string that has a code unit
      outside the tabulated blocks *)
  uc_toLowerCase : jsstring -> jsstring
}.

(** An interpretation for running examples.  The examples contain no
    Number and no character outside the tabulated blocks, so they do not
    depend on it: NaN is the only Number, and no further character is a
    letter or a digit. *)
Definition example_platform : Platform := {|
  number := unit;
  number_of_literal := fun _ => tt;
  number_truthy := fun _ => false;
  Number_toString := fun _ => str "NaN";
  number_isFinite := fun _ => false;
  number_strict_equals := fun _ _ => false;
  number_same_value_zero := fun _ _ => true;
  number_positive := fun _ => false;
  string_positive := fun _ => false;
  uc_letter := fun _ => false;
  uc_number := fun _ => false;
  uc_toLowerCase := fun s => s
|}.

Section Model.
Context {P : Platform}.

(** ** Values *)

(** The values the widget handles as [unknown] or [any]: what the field
    host supplies as the field's value and what the HTTP client returns.
    An object lists its own properties in the engine's enumeration
    order. *)
Inductive value : Type :=
| VUndefined
| VNull
| VBool (b : bool)
| VNumber (n : number)
| VString (s : jsstring)
| VArray (elems : list value)
| VObject (props : list (jsstring * value)).

(** What a [throw] carries. *)
Inductive exn : Type :=
| TypeError
| SyntaxError
| URIError
| Rejection (reason : value).

(** An expression evaluates to a value or throws. *)
Inductive result (A : Type) : Type :=
| Ok (a : A)
| Error (e : exn).
Arguments Ok {A} a.
Arguments Error {A} e.

Definition rbind {A B} (r : result A) (f : A -> result B) : result B :=
  match r with Ok a => f a | Error e => Error e end.

(** ToBoolean *)
Definition truthy (v : value) : bool :=
  match v with
  | VUndefined | VNull => false
  | VBool b => b
  | VNumber n => number_truthy n
  | VString s => nonempty s
  | VArray _ | VObject _ => true
  end.

(** [typeof v === 'object'] *)
Definition typeof_object (v : value) : bool :=
  match v with
  | VNull | VArray _ | VObject _ => true
  | _ => false
  end.

(** [typeof v === 'string'] *)
Definition typeof_string (v : value) : bool :=
  match v with VString _ => true | _ => false end.

(** [a || b] *)
Definition or_else (a b : value) : value := if truthy a then a else b.

Fixpoint lookup (k : jsstring) (props : list (jsstring * value)) : value :=
  match props with
  | [] => VUndefined
  | (k', v) :: rest => if jsstring_eqb k k' then v else lookup k rest
  end.

(** Whether an object has an own property named [k]. *)
Fixpoint has_key (k : jsstring) (props : list (jsstring * value)) : bool :=
  match props with
  | [] => false
  | (k', _) :: rest => jsstring_eqb k k' || has_key k rest
  end.

(** The property names the widget reads from untyped data.  None of
    them is a property of a string, an array, a Boolean or a Number. *)
Inductive field : Type :=
| f_data | f_results | f_documentId | f_name.

Definition field_name (f : field) : jsstring :=
  match f with
  | f_data => str "data"
  | f_results => str "results"
  | f_documentId => str "documentId"
  | f_name => str "name"
  end.

(** [v.f]: a TypeError on [undefined] and [null]. *)
Definition prop (v : value) (f : field) : result value :=
  match v with
  | VUndefined | VNull => Error TypeError
  | VObject props => Ok (lookup (field_name f) props)
  | _ => Ok VUndefined
  end.

(** [v?.f] *)
Definition opt_prop (v : value) (f : field) : result value :=
  match v with
  | VUndefined | VNull => Ok VUndefined
  | _ => prop v f
  end.

(** [v[0]] *)
Definition index0 (v : value) : result value :=
  match v with
  | VUndefined | VNull => Error TypeError
  | VArray (x :: _) => Ok x
  | VString (c :: _) => Ok (VString [c])
  | VObject props => Ok (lookup (str "0") props)
  | _ => Ok VUndefined
  end.

Fixpoint join (sep : jsstring) (parts : list jsstring) : jsstring :=
  match parts with
  | [] => []
  | [p] => p
  | p :: rest => p ++ sep ++ join sep rest
  end.

(** ToString, as [String(v)] and template literals apply it.

    An object is converted by ToPrimitive, which calls its [toString]
    and then its [valueOf].  The objects here hold data only: an own
    property named [toString] hides [Object.prototype.toString] and
    cannot be called, [valueOf] (inherited, or hidden likewise) gives no
    primitive, and the conversion throws a TypeError.  Without such a
    property the inherited method answers ["[object Object]"].

    An array has no own [toString]; the inherited one joins the strings
    of the elements with commas, [undefined] and [null] elements giving
    the empty string, and throws when the conversion of an element
    does. *)
Fixpoint ToString (v : value) : result jsstring :=
  match v with
  | VUndefined => Ok (str "undefined")
  | VNull => Ok (str "null")
  | VBool true => Ok (str "true")
  | VBool false => Ok (str "false")
  | VNumber n => Ok (Number_toString n)
  | VString s => Ok s
  | VArray elems =>
      rbind ((fix each (l : list value) : result (list jsstring) :=
                match l with
                | [] => Ok []
                | e :: rest =>
                    rbind (match e with
                           | VUndefined | VNull => Ok []
                           | _ => ToString e
                           end) (fun s =>
                    rbind (each rest) (fun ss => Ok (s :: ss)))
                end) elems)
            (fun parts => Ok (join (str ",") parts))
  | VObject props =>
      if has_key (str "toString") props then Error TypeError
      else Ok (str "[object Object]")
  end.

(** The conversion of the elements of an array, as [ToString] has it. *)
Definition each_ToString : list value -> result (list jsstring) :=
  fix each (l : list value) : result (list jsstring) :=
    match l with
    | [] => Ok []
    | e :: rest =>
        rbind (match e with
               | VUndefined | VNull => Ok []
               | _ => ToString e
               end) (fun s =>
        rbind (each rest) (fun ss => Ok (s :: ss)))
    end.

(** [v > 0]: ToPrimitive, then ToNumber.  On an array or an object
    ToPrimitive asks [valueOf] first, which gives no primitive, and then
    [toString] as above. *)
Definition positive (v : value) : result bool :=
  match v with
  | VUndefined | VNull => Ok false
  | VBool b => Ok b
  | VNumber n => Ok (number_positive n)
  | VString s => Ok (string_positive s)
  | VArray _ | VObject _ => rbind (ToString v) (fun s => Ok (string_positive s))
  end.

(** [v.length > 0].  The length of an array and of a string is its
    number of elements; on an object, [length] is a property like any
    other and the comparison converts it with ToNumber. *)
Definition length_positive (v : value) : result bool :=
  match v with
  | VUndefined | VNull => Error TypeError
  | VArray elems => Ok (nonempty elems)
  | VString s => Ok (nonempty s)
  | VObject props => positive (lookup (str "length") props)
  | _ => Ok false
  end.

(** A value that is compared by value: anything but an array or an
    object. *)
Definition primitive (v : value) : bool :=
  match v with
  | VArray _ | VObject _ => false
  | _ => true
  end.

(** [a === b].  Two primitives are compared by value, and a primitive
    never equals an array or an object.  Two arrays, or two objects, are
    equal in the language when they are one and the same object; values
    carry no address here, and the comparison by content stands in for
    it: it is exact whenever one side is [primitive]. *)
Fixpoint strict_equals (a b : value) : bool :=
  match a, b with
  | VUndefined, VUndefined => true
  | VNull, VNull => true
  | VBool x, VBool y => Bool.eqb x y
  | VNumber x, VNumber y => number_strict_equals x y
  | VString x, VString y => jsstring_eqb x y
  | VArray xs, VArray ys =>
      (fix all2 (xs ys : list value) : bool :=
         match xs, ys with
         | [], [] => true
         | x :: xs', y :: ys' => strict_equals x y && all2 xs' ys'
         | _, _ => false
         end) xs ys
  | VObject xs, VObject ys =>
      (fix all2 (xs ys : list (jsstring * value)) : bool :=
         match xs, ys with
         | [], [] => true
         | (k, x) :: xs', (l, y) :: ys' =>
             jsstring_eqb k l && strict_equals x y && all2 xs' ys'
         | _, _ => false
         end) xs ys
  | _, _ => false
  end.

(** SameValueZero, the equality of [Set.prototype.has]: as [===] but
    for NaN, which it finds equal to itself.  Exact, like [===], when
    one side is [primitive]. *)
Definition same_value_zero (a b : value) : bool :=
  match a, b with
  | VNumber x, VNumber y => number_same_value_zero x y
  | _, _ => strict_equals a b
  end.

(** ** JSON.stringify *)

Definition is_high_surrogate (c : N) : bool := in_range 55296 56319 c.
Definition is_low_surrogate (c : N) : bool := in_range 56320 57343 c.
Definition is_surrogate (c : N) : bool := in_range 55296 57343 c.

(** A hexadecimal digit, in lower case. *)
Definition hex_digit (d : N) : N :=
  if N.ltb d 10 then (48 + d)%N else (87 + d)%N.

Definition hex4 (c : N) : jsstring :=
  [hex_digit ((c / 4096) mod 16); hex_digit ((c / 256) mod 16);
   hex_digit ((c / 16) mod 16); hex_digit (c mod 16)]%N.

(** UnicodeEscape: a backslash, [u] and four digits. *)
Definition unicode_escape (c : N) : jsstring := 92%N :: 117%N :: hex4 c.

(** A code point that is not written as a surrogate pair. *)
Definition quote_code_point (c : N) : jsstring :=
  if N.eqb c 8 then [92; 98]%N            (* \b *)
  else if N.eqb c 9 then [92; 116]%N      (* \t *)
  else if N.eqb c 10 then [92; 110]%N     (* \n *)
  else if N.eqb c 12 then [92; 102]%N     (* \f *)
  else if N.eqb c 13 then [92; 114]%N     (* \r *)
  else if N.eqb c 34 then [92; 34]%N      (* \ and the quote *)
  else if N.eqb c 92 then [92; 92]%N      (* \\ *)
  else if N.ltb c 32 || is_surrogate c then unicode_escape c
  else [c].

(** The characters of QuoteJSONString, code point by code point: a high
    surrogate followed by a low one is one code point and is copied, a
    lone surrogate is escaped. *)
Fixpoint quote_chars (s : jsstring) : jsstring :=
  match s with
  | [] => []
  | c :: rest =>
      if is_high_surrogate c then
        match rest with
        | l :: rest' =>
            if is_low_surrogate l then c :: l :: quote_chars rest'
            else quote_code_point c ++ quote_chars rest
        | [] => quote_code_point c
        end
      else quote_code_point c ++ quote_chars rest
  end.

Definition QuoteJSONString (s : jsstring) : jsstring :=
  34%N :: quote_chars s ++ [34%N].

(** SerializeJSONProperty, without indentation.  [None] is the
    [undefined] of a value that has no JSON text: such a property is
    left out of its object, such an element is written [null]. *)
Fixpoint serialize (v : value) : option jsstring :=
  match v with
  | VUndefined => None
  | VNull => Some (str "null")
  | VBool true => Some (str "true")
  | VBool false => Some (str "false")
  | VNumber n =>
      Some (if number_isFinite n then Number_toString n else str "null")
  | VString s => Some (QuoteJSONString s)
  | VArray elems =>
      Some (str "[" ++
            join (str ",")
              (map (fun e => match serialize e with
                             | Some t => t
                             | None => str "null"
                             end) elems) ++
            str "]")
  | VObject props =>
      Some (str "{" ++
            join (str ",")
              ((fix members (ps : list (jsstring * value)) : list jsstring :=
                  match ps with
                  | [] => []
                  | (k, x) :: ps' =>
                      match serialize x with
                      | Some t =>
                          (QuoteJSONString k ++ str ":" ++ t) :: members ps'
                      | None => members ps'
                      end
                  end) props) ++
            str "}")
  end.

(** [JSON.stringify(v)] *)
Definition JSON_stringify (v : value) : value :=
  match serialize v with
  | Some t => VString t
  | None => VUndefined
  end.

(** ** JSON.parse *)

Definition is_json_whitespace (c : N) : bool :=
  N.eqb c 9 || N.eqb c 10 || N.eqb c 13 || N.eqb c 32.

Fixpoint skip_ws (s : jsstring) : jsstring :=
  match s with
  | c :: rest => if is_json_whitespace c then skip_ws rest else s
  | [] => []
  end.

Definition is_digit (c : N) : bool := in_range 48 57 c.

Definition hex_value (c : N) : option N :=
  if is_digit c then Some (c - 48)%N
  else if in_range 97 102 c then Some (c - 87)%N
  else if in_range 65 70 c then Some (c - 55)%N
  else None.

Definition hex4_value (a b c d : N) : option N :=
  match hex_value a, hex_value b, hex_value c, hex_value d with
  | Some x, Some y, Some z, Some w => Some (4096 * x + 256 * y + 16 * z + w)%N
  | _, _, _, _ => None
  end.

(** The character after a backslash, [u] apart. *)
Definition simple_escape (e : N) : option N :=
  if N.eqb e 34 then Some 34%N
  else if N.eqb e 92 then Some 92%N
  else if N.eqb e 47 then Some 47%N
  else if N.eqb e 98 then Some 8%N
  else if N.eqb e 102 then Some 12%N
  else if N.eqb e 110 then Some 10%N
  else if N.eqb e 114 then Some 13%N
  else if N.eqb e 116 then Some 9%N
  else None.

Definition cons_fst {A B} (a : A) (r : option (list A * B)) : option (list A * B) :=
  match r with
  | Some (l, b) => Some (a :: l, b)
  | None => None
  end.

(** A string, from after its opening quote to its closing quote: the
    string's value and the text that follows. *)
Fixpoint parse_chars (s : jsstring) : option (jsstring * jsstring) :=
  match s with
  | [] => None
  | c :: rest =>
      if N.eqb c 34 then Some ([], rest)
      else if N.eqb c 92 then
        match rest with
        | [] => None
        | e :: rest1 =>
            if N.eqb e 117 then
              match rest1 with
              | h1 :: h2 :: h3 :: h4 :: rest2 =>
                  match hex4_value h1 h2 h3 h4 with
                  | Some u => cons_fst u (parse_chars rest2)
                  | None => None
                  end
              | _ => None
              end
            else
              match simple_escape e with
              | Some u => cons_fst u (parse_chars rest1)
              | None => None
              end
        end
      else if N.ltb c 32 then None
      else cons_fst c (parse_chars rest)
  end.

Fixpoint scan_digits (s : jsstring) : jsstring * jsstring :=
  match s with
  | c :: rest =>
      if is_digit c then let (ds, r) := scan_digits rest in (c :: ds, r)
      else ([], s)
  | [] => ([], [])
  end.

(** One digit at least. *)
Definition scan_digits1 (s : jsstring) : option (jsstring * jsstring) :=
  match scan_digits s with
  | ([], _) => None
  | (ds, r) => Some (ds, r)
  end.

Definition scan_int (s : jsstring) : option (jsstring * jsstring) :=
  match s with
  | c :: rest =>
      if N.eqb c 48 then Some ([c], rest)
      else if in_range 49 57 c then
        let (ds, r) := scan_digits rest in Some (c :: ds, r)
      else None
  | [] => None
  end.

Definition scan_frac (s : jsstring) : option (jsstring * jsstring) :=
  match s with
  | c :: rest => if N.eqb c 46 then cons_fst c (scan_digits1 rest) else Some ([], s)
  | [] => Some ([], [])
  end.

Definition scan_exp (s : jsstring) : option (jsstring * jsstring) :=
  match s with
  | c :: rest =>
      if N.eqb c 101 || N.eqb c 69 then
        match rest with
        | g :: rest1 =>
            if N.eqb g 43 || N.eqb g 45
            then cons_fst c (cons_fst g (scan_digits1 rest1))
            else cons_fst c (scan_digits1 rest)
        | [] => None
        end
      else Some ([], s)
  | [] => Some ([], [])
  end.

(** A numeric token of the JSON grammar and the text that follows. *)
Definition scan_number (s : jsstring) : option (jsstring * jsstring) :=
  let (sign, s0) :=
    match s with
    | c :: rest => if N.eqb c 45 then ([c], rest) else ([], s)
    | [] => ([], s)
    end in
  match scan_int s0 with
  | Some (i, s1) =>
      match scan_frac s1 with
      | Some (f, s2) =>
          match scan_exp s2 with
          | Some (e, s3) => Some (sign ++ i ++ f ++ e, s3)
          | None => None
          end
      | None => None
      end
  | None => None
  end.

Fixpoint strip_prefix (p s : jsstring) : option jsstring :=
  match p, s with
  | [], _ => Some s
  | a :: p', b :: s' => if N.eqb a b then strip_prefix p' s' else None
  | _ :: _, [] => None
  end.

Fixpoint digits_value (acc : N) (s : jsstring) : option N :=
  match s with
  | [] => Some acc
  | c :: rest =>
      if is_digit c then digits_value (10 * acc + (c - 48))%N rest else None
  end.

(** The array index a property name denotes, if it is one: a canonical
    decimal numeral below 2^32 - 1. *)
Definition array_index (k : jsstring) : option N :=
  match k with
  | [] => None
  | c :: rest =>
      if N.eqb c 48 then (if nonempty rest then None else Some 0%N)
      else
        match digits_value 0 k with
        | Some n => if N.leb n 4294967294 then Some n else None
        | None => None
        end
  end.

Fixpoint replace_prop (k : jsstring) (v : value)
    (props : list (jsstring * value)) : list (jsstring * value) :=
  match props with
  | [] => []
  | (k', v') :: rest =>
      if jsstring_eqb k k' then (k', v) :: rest
      else (k', v') :: replace_prop k v rest
  end.

Fixpoint insert_index (n : N) (k : jsstring) (v : value)
    (props : list (jsstring * value)) : list (jsstring * value) :=
  match props with
  | [] => [(k, v)]
  | (k', v') :: rest =>
      match array_index k' with
      | Some m =>
          if N.ltb n m then (k, v) :: props
          else (k', v') :: insert_index n k v rest
      | None => (k, v) :: props
      end
  end.

(** CreateDataProperty on an ordinary object: a property that exists
    keeps its place and takes the new value; a new one is enumerated
    among the array indices in ascending order, or after all others. *)
Definition obj_set (props : list (jsstring * value)) (k : jsstring) (v : value)
    : list (jsstring * value) :=
  if has_key k props then replace_prop k v props
  else
    match array_index k with
    | Some n => insert_index n k v props
    | None => props ++ [(k, v)]
    end.

(** A JSON value and the text that follows it.  Every call consumes
    fuel; [JSON_parse] supplies more than a text of its length can use. *)
Fixpoint parse_value (fuel : nat) (s : jsstring) {struct fuel}
    : option (value * jsstring) :=
  match fuel with
  | O => None
  | S fuel' =>
      match skip_ws s with
      | [] => None
      | c :: rest =>
          if N.eqb c 34 then
            match parse_chars rest with
            | Some (t, r) => Some (VString t, r)
            | None => None
            end
          else if N.eqb c 91 then
            match skip_ws rest with
            | d :: r =>
                if N.eqb d 93 then Some (VArray [], r)
                else parse_elements fuel' rest []
            | [] => None
            end
          else if N.eqb c 123 then
            match skip_ws rest with
            | d :: r =>
                if N.eqb d 125 then Some (VObject [], r)
                else parse_members fuel' rest []
            | [] => None
            end
          else if N.eqb c 116 then
            match strip_prefix (str "true") (c :: rest) with
            | Some r => Some (VBool true, r)
            | None => None
            end
          else if N.eqb c 102 then
            match strip_prefix (str "false") (c :: rest) with
            | Some r => Some (VBool false, r)
            | None => None
            end
          else if N.eqb c 110 then
            match strip_prefix (str "null") (c :: rest) with
            | Some r => Some (VNull, r)
            | None => None
            end
          else
            match scan_number (c :: rest) with
            | Some (tok, r) => Some (VNumber (number_of_literal tok), r)
            | None => None
            end
      end
  end

(** The elements of an array after those in [acc], up to the bracket. *)
with parse_elements (fuel : nat) (s : jsstring) (acc : list value) {struct fuel}
    : option (value * jsstring) :=
  match fuel with
  | O => None
  | S fuel' =>
      match parse_value fuel' s with
      | Some (v, r) =>
          match skip_ws r with
          | c :: r' =>
              if N.eqb c 44 then parse_elements fuel' r' (acc ++ [v])
              else if N.eqb c 93 then Some (VArray (acc ++ [v]), r')
              else None
          | [] => None
          end
      | None => None
      end
  end

(** The members of an object after those in [acc], up to the brace. *)
with parse_members (fuel : nat) (s : jsstring) (acc : list (jsstring * value))
    {struct fuel} : option (value * jsstring) :=
  match fuel with
  | O => None
  | S fuel' =>
      match skip_ws s with
      | q :: r0 =>
          if N.eqb q 34 then
            match parse_chars r0 with
            | Some (k, r1) =>
                match skip_ws r1 with
                | c :: r2 =>
                    if N.eqb c 58 then
                      match parse_value fuel' r2 with
                      | Some (v, r3) =>
                          match skip_ws r3 with
                          | d :: r4 =>
                              if N.eqb d 44
                              then parse_members fuel' r4 (obj_set acc k v)
                              else if N.eqb d 125
                              then Some (VObject (obj_set acc k v), r4)
                              else None
                          | [] => None
                          end
                      | None => None
                      end
                    else None
                | [] => None
                end
            | None => None
            end
          else None
      | [] => None
      end
  end.

(** [JSON.parse(text)]: the value of the text, or a SyntaxError when
    the text is not one JSON value between optional white space. *)
Definition JSON_parse (text : jsstring) : result value :=
  match parse_value (2 * List.length text + 1) text with
  | Some (v, r) =>
      match skip_ws r with
      | [] => Ok v
      | _ :: _ => Error SyntaxError
      end
  | None => Error SyntaxError
  end.

(** ** The decoder *)

(** [interface TagData].  The interface declares both fields as
    strings; nothing checks that at run time, so a field holds whatever
    value was stored in it. *)
Record TagData : Type := {
  documentId : value;
  name : value
}.

Fixpoint filterM {A} (f : A -> result bool) (l : list A) : result (list A) :=
  match l with
  | [] => Ok []
  | x :: rest =>
      rbind (f x) (fun keep =>
      rbind (filterM f rest) (fun rest' =>
      Ok (if keep then x :: rest' else rest')))
  end.

Fixpoint mapM {A B} (f : A -> result B) (l : list A) : result (list B) :=
  match l with
  | [] => Ok []
  | x :: rest =>
      rbind (f x) (fun y =>
      rbind (mapM f rest) (fun rest' =>
      Ok (y :: rest')))
  end.

(** [t && typeof t === 'object' && t.name], as a condition *)
Definition has_name (t : value) : result bool :=
  if truthy t then
    if typeof_object t then
      rbind (prop t f_name) (fun n => Ok (truthy n))
    else Ok false
  else Ok false.

(** [{ documentId: t.documentId || '', name: String(t.name) }] *)
Definition to_tag (t : value) : result TagData :=
  rbind (prop t f_documentId) (fun d =>
  rbind (prop t f_name) (fun n =>
  rbind (ToString n) (fun s =>
  Ok {| documentId := or_else d (VString []);
        name := VString s |}))).

Definition parseTagValue (v : value) : result (list TagData) :=
  if negb (truthy v) then Ok []
  else
    let parsed :=
      match v with
      | VString text =>
          match JSON_parse text with
          | Ok data => Some data
          | Error _ => None            (* catch { return []; } *)
          end
      | _ => Some v
      end in
    match parsed with
    | None => Ok []
    | Some (VArray elems) =>
        rbind (filterM has_name elems) (mapM to_tag)
    | Some _ => Ok []
    end.

(** What [parseTagValue] makes of the parsed data: the tags of an
    array, none of anything else. *)
Definition decoded (data : value) : result (list TagData) :=
  match data with
  | VArray elems => rbind (filterM has_name elems) (mapM to_tag)
  | _ => Ok []
  end.

(** Whether [String(v)] returns: [v] is no object with an own property
    named [toString], and no array that holds, at any depth of arrays,
    such an object. *)
Fixpoint converts (v : value) : bool :=
  match v with
  | VArray elems => forallb converts elems
  | VObject props => negb (has_key (str "toString") props)
  | _ => true
  end.

(** Whether [String(t.name)] returns for the entry [t] of the data. *)
Definition name_converts (t : value) : bool :=
  match t with
  | VObject props => converts (lookup (str "name") props)
  | _ => true
  end.

(** Whether [String] converts the name of every entry of the data that
    a value of the [value] prop denotes: the parsed text for a string
    that [JSON.parse] accepts, the value itself otherwise. *)
Definition decodable (v : value) : bool :=
  match v with
  | VString text =>
      match JSON_parse text with
      | Ok (VArray elems) => forallb name_converts elems
      | _ => true
      end
  | VArray elems => forallb name_converts elems
  | _ => true
  end.

(** ** String methods *)

(** WhiteSpace and LineTerminator: what [trim] strips and the class
    [\s] matches. *)
Definition is_whitespace (c : N) : bool :=
  in_range 9 13 c || N.eqb c 32 || N.eqb c 160 || N.eqb c 5760 ||
  in_range 8192 8202 c || N.eqb c 8232 || N.eqb c 8233 || N.eqb c 8239 ||
  N.eqb c 8287 || N.eqb c 12288 || N.eqb c 65279.

Fixpoint trimStart (s : jsstring) : jsstring :=
  match s with
  | c :: rest => if is_whitespace c then trimStart rest else s
  | [] => []
  end.

Fixpoint trimEnd (s : jsstring) : jsstring :=
  match s with
  | c :: rest =>
      match trimEnd rest with
      | [] => if is_whitespace c then [] else [c]
      | rest' => c :: rest'
      end
  | [] => []
  end.

(** [s.trim()] *)
Definition trim (s : jsstring) : jsstring := trimEnd (trimStart s).

(** The blocks whose characters are tabulated here: Basic Latin and
    Devanagari. *)
Definition tabulated (c : N) : bool := N.ltb c 128 || in_range 2304 2431 c.

(** General_Category = Letter (L) *)
Definition is_letter (cp : N) : bool :=
  if N.ltb cp 128 then in_range 65 90 cp || in_range 97 122 cp
  else if in_range 2304 2431 cp then
    in_range 2308 2361 cp || N.eqb cp 2365 || N.eqb cp 2384 ||
    in_range 2392 2401 cp || in_range 2417 2431 cp
  else if is_surrogate cp then false
  else uc_letter cp.

(** General_Category = Number (N) *)
Definition is_number (cp : N) : bool :=
  if N.ltb cp 128 then is_digit cp
  else if in_range 2304 2431 cp then in_range 2406 2415 cp
  else if is_surrogate cp then false
  else uc_number cp.

(** The lower-case mapping of a tabulated character: only the Latin
    capitals have one. *)
Definition lower_tabulated (c : N) : N :=
  if in_range 65 90 c then (c + 32)%N else c.

(** [s.toLowerCase()] *)
Definition toLowerCase (s : jsstring) : jsstring :=
  if forallb tabulated s then map lower_tabulated s else uc_toLowerCase s.

(** The code point of a surrogate pair. *)
Definition code_point (hi lo : N) : N :=
  (65536 + (hi - 55296) * 1024 + (lo - 56320))%N.

(** [s.replace(/[^\p{L}\p{N}\s-]/gu, '')]: with the [u] flag the
    pattern is matched against code points. *)
Definition slug_keeps (cp : N) : bool :=
  is_letter cp || is_number cp || is_whitespace cp || N.eqb cp 45.

Fixpoint strip_non_slug (s : jsstring) : jsstring :=
  match s with
  | [] => []
  | c :: rest =>
      if is_high_surrogate c then
        match rest with
        | l :: rest' =>
            if is_low_surrogate l then
              if slug_keeps (code_point c l)
              then c :: l :: strip_non_slug rest'
              else strip_non_slug rest'
            else strip_non_slug rest
        | [] => []
        end
      else if slug_keeps c then c :: strip_non_slug rest
      else strip_non_slug rest
  end.

(** [s.replace(/[cls]+/g, rep)] for a class [cls] of code units: every
    maximal run of the class becomes one [rep]. *)
Fixpoint replace_runs (cls : N -> bool) (rep : jsstring) (s : jsstring) : jsstring :=
  match s with
  | [] => []
  | c :: rest =>
      if cls c then
        match rest with
        | d :: _ => if cls d then replace_runs cls rep rest
                    else rep ++ replace_runs cls rep rest
        | [] => rep
        end
      else c :: replace_runs cls rep rest
  end.

Definition is_hyphen (c : N) : bool := N.eqb c 45.

Fixpoint strip_leading (cls : N -> bool) (s : jsstring) : jsstring :=
  match s with
  | c :: rest => if cls c then strip_leading cls rest else s
  | [] => []
  end.

Fixpoint strip_trailing (cls : N -> bool) (s : jsstring) : jsstring :=
  match s with
  | c :: rest =>
      match strip_trailing cls rest with
      | [] => if cls c then [] else [c]
      | rest' => c :: rest'
      end
  | [] => []
  end.

Definition makeSlug (text : jsstring) : jsstring :=
  let s1 := trim (toLowerCase text) in
  let s2 := strip_non_slug s1 in                        (* /[^\p{L}\p{N}\s-]/gu *)
  let s3 := replace_runs (fun c => is_whitespace c || N.eqb c 95) (str "-") s2 in
                                                        (* /[\s_]+/g *)
  let s4 := replace_runs is_hyphen (str "-") s3 in      (* /-+/g *)
  strip_trailing is_hyphen (strip_leading is_hyphen s4). (* /^-+|-+$/g *)

(** *** encodeURIComponent *)

Definition HEX_digit (d : N) : N :=
  if N.ltb d 10 then (48 + d)%N else (55 + d)%N.

Definition percent (byte : N) : jsstring :=
  [37%N; HEX_digit (byte / 16); HEX_digit (byte mod 16)].

(** The UTF-8 bytes of a code point, each percent-encoded. *)
Definition percent_utf8 (cp : N) : jsstring :=
  if N.ltb cp 128 then percent cp
  else if N.ltb cp 2048 then
    percent (192 + cp / 64) ++ percent (128 + cp mod 64)
  else if N.ltb cp 65536 then
    percent (224 + cp / 4096) ++ percent (128 + (cp / 64) mod 64) ++
    percent (128 + cp mod 64)
  else
    percent (240 + cp / 262144) ++ percent (128 + (cp / 4096) mod 64) ++
    percent (128 + (cp / 64) mod 64) ++ percent (128 + cp mod 64).

(** The characters [encodeURIComponent] leaves as they are. *)
Definition uri_unreserved (c : N) : bool :=
  in_range 65 90 c || in_range 97 122 c || is_digit c ||
  N.eqb c 45 || N.eqb c 95 || N.eqb c 46 || N.eqb c 33 || N.eqb c 126 ||
  N.eqb c 42 || N.eqb c 39 || N.eqb c 40 || N.eqb c 41.

(** [encodeURIComponent(s)]: a URIError on a lone surrogate. *)
Fixpoint encodeURIComponent (s : jsstring) : result jsstring :=
  match s with
  | [] => Ok []
  | c :: rest =>
      if uri_unreserved c then
        rbind (encodeURIComponent rest) (fun r => Ok (c :: r))
      else if is_low_surrogate c then Error URIError
      else if is_high_surrogate c then
        match rest with
        | l :: rest' =>
            if is_low_surrogate l then
              rbind (encodeURIComponent rest') (fun r =>
              Ok (percent_utf8 (code_point c l) ++ r))
            else Error URIError
        | [] => Error URIError
        end
      else rbind (encodeURIComponent rest) (fun r => Ok (percent_utf8 c ++ r))
  end.

(** ** The component *)

Definition timer_id := nat.

(** The state of one mounted [TagManagerInput]: its [useState] cells
    and, last, the two [useRef] cells the handlers write. *)
Record state : Type := {
  tags : list TagData;
  inputValue : jsstring;
  suggestions : list TagData;
  showSuggestions : bool;
  selectedIndex : Z;
  isCreating : bool;
  dropdownFlip : bool;
  tagApiPath : jsstring;
  debounceRef : option timer_id;
  hasUserEdited : bool
}.

Definition setTags (v : list TagData) (st : state) : state :=
  {| tags := v; inputValue := inputValue st; suggestions := suggestions st;
     showSuggestions := showSuggestions st; selectedIndex := selectedIndex st;
     isCreating := isCreating st; dropdownFlip := dropdownFlip st;
     tagApiPath := tagApiPath st; debounceRef := debounceRef st;
     hasUserEdited := hasUserEdited st |}.

Definition setInputValue (v : jsstring) (st : state) : state :=
  {| tags := tags st; inputValue := v; suggestions := suggestions st;
     showSuggestions := showSuggestions st; selectedIndex := selectedIndex st;
     isCreating := isCreating st; dropdownFlip := dropdownFlip st;
     tagApiPath := tagApiPath st; debounceRef := debounceRef st;
     hasUserEdited := hasUserEdited st |}.

Definition setSuggestions (v : list TagData) (st : state) : state :=
  {| tags := tags st; inputValue := inputValue st; suggestions := v;
     showSuggestions := showSuggestions st; selectedIndex := selectedIndex st;
     isCreating := isCreating st; dropdownFlip := dropdownFlip st;
     tagApiPath := tagApiPath st; debounceRef := debounceRef st;
     hasUserEdited := hasUserEdited st |}.

Definition setShowSuggestions (v : bool) (st : state) : state :=
  {| tags := tags st; inputValue := inputValue st; suggestions := suggestions st;
     showSuggestions := v; selectedIndex := selectedIndex st;
     isCreating := isCreating st; dropdownFlip := dropdownFlip st;
     tagApiPath := tagApiPath st; debounceRef := debounceRef st;
     hasUserEdited := hasUserEdited st |}.

(** [setSelectedIndex] takes the new index or, as in the arrow keys, a
    function of the previous one. *)
Definition setSelectedIndex (f : Z -> Z) (st : state) : state :=
  {| tags := tags st; inputValue := inputValue st; suggestions := suggestions st;
     showSuggestions := showSuggestions st; selectedIndex := f (selectedIndex st);
     isCreating := isCreating st; dropdownFlip := dropdownFlip st;
     tagApiPath := tagApiPath st; debounceRef := debounceRef st;
     hasUserEdited := hasUserEdited st |}.

Definition setIsCreating (v : bool) (st : state) : state :=
  {| tags := tags st; inputValue := inputValue st; suggestions := suggestions st;
     showSuggestions := showSuggestions st; selectedIndex := selectedIndex st;
     isCreating := v; dropdownFlip := dropdownFlip st;
     tagApiPath := tagApiPath st; debounceRef := debounceRef st;
     hasUserEdited := hasUserEdited st |}.

Definition setDropdownFlip (v : bool) (st : state) : state :=
  {| tags := tags st; inputValue := inputValue st; suggestions := suggestions st;
     showSuggestions := showSuggestions st; selectedIndex := selectedIndex st;
     isCreating := isCreating st; dropdownFlip := v;
     tagApiPath := tagApiPath st; debounceRef := debounceRef st;
     hasUserEdited := hasUserEdited st |}.

Definition setDebounceRef (v : option timer_id) (st : state) : state :=
  {| tags := tags st; inputValue := inputValue st; suggestions := suggestions st;
     showSuggestions := showSuggestions st; selectedIndex := selectedIndex st;
     isCreating := isCreating st; dropdownFlip := dropdownFlip st;
     tagApiPath := tagApiPath st; debounceRef := v;
     hasUserEdited := hasUserEdited st |}.

Definition setHasUserEdited (v : bool) (st : state) : state :=
  {| tags := tags st; inputValue := inputValue st; suggestions := suggestions st;
     showSuggestions := showSuggestions st; selectedIndex := selectedIndex st;
     isCreating := isCreating st; dropdownFlip := dropdownFlip st;
     tagApiPath := tagApiPath st; debounceRef := debounceRef st;
     hasUserEdited := v |}.

(** The state at mount. *)
Definition mount : state :=
  {| tags := []; inputValue := []; suggestions := []; showSuggestions := false;
     selectedIndex := (-1)%Z; isCreating := false; dropdownFlip := false;
     tagApiPath := []; debounceRef := None; hasUserEdited := false |}.

(** *** Effects *)

(** A request to the Tag Directory through the admin HTTP client. *)
Inductive request : Type :=
| Get (url : jsstring)
| Post (url : jsstring) (body : value).

(** How a request settles. *)
Inductive outcome : Type :=
| Fulfilled (response : value)
| Rejected (reason : value).

(** The closure [() => searchTags(val.trim())] handed to [setTimeout]:
    it holds the [searchTags] of the render it was made in, that is
    that render's [tags] and [tagApiPath], and the text [val]. *)
Record callback : Type := {
  cb_tags : list TagData;
  cb_tagApiPath : jsstring;
  cb_val : jsstring
}.

(** What the component calls outside itself, and what the run time
    calls in it. *)
Inductive call : Type :=
| OnChange (target_name : jsstring) (target_value : value) (target_type : jsstring)
| Http (r : request)
| ConsoleError (message : jsstring) (err : exn)
| PreventDefault
| FocusInput
| TimerFired (cb : callback)
| Unhandled (err : exn).

(** A handler: a tree of effects.  [Await] suspends the handler until
    the request settles; everything else is synchronous.  [Measure]
    is the reading of the layout in [checkDropdownPosition]: nothing
    when the container is not mounted, else whether less than 220
    pixels are left below it. *)
Inductive task (A : Type) : Type :=
| Return (a : A)
| Throw (e : exn)
| SetState (f : state -> state) (k : task A)
| GetState (k : state -> task A)
| Call (c : call) (k : task A)
| Await (r : request) (k : outcome -> task A)
| SetTimeout (cb : callback) (delay : Z) (k : timer_id -> task A)
| ClearTimeout (id : timer_id) (k : task A)
| Measure (k : option bool -> task A).
Arguments Return {A} a.
Arguments Throw {A} e.
Arguments GetState {A} k.
Arguments Await {A} r k.
Arguments SetTimeout {A} cb delay k.
Arguments Measure {A} k.

Fixpoint bind {A B} (t : task A) (f : A -> task B) : task B :=
  match t with
  | Return a => f a
  | Throw e => Throw e
  | SetState g k => SetState g (bind k f)
  | GetState k => GetState (fun st => bind (k st) f)
  | Call c k => Call c (bind k f)
  | Await r k => Await r (fun o => bind (k o) f)
  | SetTimeout cb d k => SetTimeout cb d (fun id => bind (k id) f)
  | ClearTimeout id k => ClearTimeout id (bind k f)
  | Measure k => Measure (fun m => bind (k m) f)
  end.

(** [try { t } catch (err) { h err }] *)
Fixpoint try_catch {A} (t : task A) (h : exn -> task A) : task A :=
  match t with
  | Return a => Return a
  | Throw e => h e
  | SetState g k => SetState g (try_catch k h)
  | GetState k => GetState (fun st => try_catch (k st) h)
  | Call c k => Call c (try_catch k h)
  | Await r k => Await r (fun o => try_catch (k o) h)
  | SetTimeout cb d k => SetTimeout cb d (fun id => try_catch (k id) h)
  | ClearTimeout id k => ClearTimeout id (try_catch k h)
  | Measure k => Measure (fun m => try_catch (k m) h)
  end.

(** [try { t } finally { f }], for an [f] that completes normally. *)
Fixpoint try_finally {A} (t : task A) (f : task unit) : task A :=
  match t with
  | Return a => bind f (fun _ => Return a)
  | Throw e => bind f (fun _ => Throw e)
  | SetState g k => SetState g (try_finally k f)
  | GetState k => GetState (fun st => try_finally (k st) f)
  | Call c k => Call c (try_finally k f)
  | Await r k => Await r (fun o => try_finally (k o) f)
  | SetTimeout cb d k => SetTimeout cb d (fun id => try_finally (k id) f)
  | ClearTimeout id k => ClearTimeout id (try_finally k f)
  | Measure k => Measure (fun m => try_finally (k m) f)
  end.

(** An expression inside a handler. *)
Definition lift {A} (r : result A) : task A :=
  match r with Ok a => Return a | Error e => Throw e end.

Definition set (f : state -> state) : task unit := SetState f (Return tt).
Definition do_call (c : call) : task unit := Call c (Return tt).
(** [await get(url)], [await post(url, body)]: a rejection is thrown. *)
Definition await (r : request) : task value :=
  Await r (fun o => match o with
                    | Fulfilled v => Return v
                    | Rejected reason => Throw (Rejection reason)
                    end).

Notation "x <- t ;; k" := (bind t (fun x => k))
  (at level 61, t at next level, right associativity).
Notation "t ;; k" := (bind t (fun _ => k))
  (at level 61, right associativity).

(** *** The handlers

    Each handler takes as arguments what its [useCallback] closes over
    (the values of the render it was made in) and then its own
    parameters.  [fieldName] is the [name] prop. *)

(** A tag as the object it is, [{ documentId, name }]. *)
Definition tag_object (t : TagData) : value :=
  VObject [(str "documentId", documentId t); (str "name", name t)].

Definition tags_value (ts : list TagData) : value :=
  VArray (map tag_object ts).

Definition updateValue (fieldName : jsstring) (newTags : list TagData) : task unit :=
  set (setHasUserEdited true) ;;
  set (setTags newTags) ;;
  do_call (OnChange fieldName (JSON_stringify (tags_value newTags)) (str "json")).

Definition checkDropdownPosition : task unit :=
  Measure (fun m =>
    match m with
    | None => Return tt                       (* if (!containerRef.current) return; *)
    | Some below => set (setDropdownFlip below)
    end).

(** [selectedIds.has(id)] for the set of the [documentId]s of [tags] *)
Definition selected (tags : list TagData) (id : value) : bool :=
  existsb (fun t => same_value_zero (documentId t) id) tags.

(** [results.filter(...).map(...)] in [searchTags]: a TypeError when
    [results] has no method [filter], that is unless it is an array. *)
Definition unselected (tags : list TagData) (results : value) : result (list TagData) :=
  match results with
  | VArray elems =>
      rbind (filterM (fun t => rbind (prop t f_documentId) (fun id =>
                               Ok (negb (selected tags id)))) elems)
            (mapM (fun t => rbind (prop t f_documentId) (fun id =>
                            rbind (prop t f_name) (fun n =>
                            Ok {| documentId := id; name := n |}))))
  | _ => Error TypeError
  end.

Definition search_url (tagApiPath q : jsstring) : jsstring :=
  tagApiPath ++ str "?page=1&pageSize=10&_q=" ++ q.

Definition searchTags (tags : list TagData) (tagApiPath : jsstring)
    (query : jsstring) : task unit :=
  if negb (nonempty query) || Nat.ltb (List.length query) 1
     || negb (nonempty tagApiPath) then
    set (setSuggestions []) ;;
    set (setShowSuggestions false)
  else
    try_catch
      (q <- lift (encodeURIComponent query) ;;
       response <- await (Get (search_url tagApiPath q)) ;;
       data <- lift (prop response f_data) ;;
       r <- lift (opt_prop data f_results) ;;
       let results := or_else r (VArray []) in
       filtered <- lift (unselected tags results) ;;
       set (setSuggestions filtered) ;;
       set (setShowSuggestions (nonempty filtered)) ;;
       set (setSelectedIndex (fun _ => (-1)%Z)) ;;
       if nonempty filtered then checkDropdownPosition else Return tt)
      (fun err =>
         do_call (ConsoleError (str "[tag-manager] Tag search failed:") err) ;;
         set (setSuggestions [])).

(** What a debounce timer runs when it fires. *)
Definition run_callback (cb : callback) : task unit :=
  searchTags (cb_tags cb) (cb_tagApiPath cb) (trim (cb_val cb)).

Definition handleInputChange (tags : list TagData) (tagApiPath : jsstring)
    (val : jsstring) : task unit :=
  set (setInputValue val) ;;
  GetState (fun st =>
    match debounceRef st with
    | Some id => ClearTimeout id (Return tt)
    | None => Return tt
    end) ;;
  SetTimeout {| cb_tags := tags; cb_tagApiPath := tagApiPath; cb_val := val |} 250
    (fun id => set (setDebounceRef (Some id))).

(** [v.toLowerCase()] on a value: a TypeError unless it is a string,
    no other value having that method. *)
Definition call_toLowerCase (v : value) : result jsstring :=
  match v with
  | VString s => Ok (toLowerCase s)
  | _ => Error TypeError
  end.

(** [l.find(f)] as a condition: is there an element that satisfies
    [f]?  The elements after the first that does are not visited. *)
Fixpoint findM {A} (f : A -> result bool) (l : list A) : result bool :=
  match l with
  | [] => Ok false
  | x :: rest => rbind (f x) (fun b => if b then Ok true else findM f rest)
  end.

(** [t.name.toLowerCase() === trimmed.toLowerCase()] *)
Definition same_name (trimmed : jsstring) (t : TagData) : result bool :=
  rbind (call_toLowerCase (name t)) (fun l =>
  Ok (jsstring_eqb l (toLowerCase trimmed))).

Definition exact_url (tagApiPath q : jsstring) : jsstring :=
  tagApiPath ++ str "?page=1&pageSize=1&filters[$and][0][name][$eqi]=" ++ q.

Definition create_body (trimmed slug : jsstring) : value :=
  VObject [(str "name", VString trimmed); (str "slug", VString slug)].

Definition findOrCreateTag (tags : list TagData) (tagApiPath : jsstring)
    (tagName : jsstring) : task (option TagData) :=
  let trimmed := trim tagName in
  if negb (nonempty trimmed) || negb (nonempty tagApiPath) then Return None
  else
    dup <- lift (findM (same_name trimmed) tags) ;;
    if dup then Return None
    else
      set (setIsCreating true) ;;
      try_finally
        (try_catch
           (q <- lift (encodeURIComponent trimmed) ;;
            searchResp <- await (Get (exact_url tagApiPath q)) ;;
            data <- lift (prop searchResp f_data) ;;
            r <- lift (opt_prop data f_results) ;;
            let existing := or_else r (VArray []) in
            found <- lift (length_positive existing) ;;
            if found then
              first <- lift (index0 existing) ;;
              id <- lift (prop first f_documentId) ;;
              n <- lift (prop first f_name) ;;
              Return (Some {| documentId := id; name := n |})
            else
              let slug := makeSlug trimmed in
              createResp <- await (Post tagApiPath (create_body trimmed slug)) ;;
              d <- lift (prop createResp f_data) ;;
              dd <- lift (opt_prop d f_data) ;;
              let created := or_else dd d in
              cid <- lift (opt_prop created f_documentId) ;;
              if truthy cid then
                id <- lift (prop created f_documentId) ;;
                n <- lift (prop created f_name) ;;
                Return (Some {| documentId := id;
                                name := or_else n (VString trimmed) |})
              else Return None)
           (fun err =>
              do_call (ConsoleError (str "[tag-manager] Tag find/create failed:") err) ;;
              Return None))
        (set (setIsCreating false)).

(** The end of [addTag], from [if (tag)] on.  [inputRef.current?.focus()]
    is recorded as a call.  In an input that has the focus, as when a
    key was pressed in it, the call raises no event; the [onFocus]
    handler that it runs in an input without the focus is left out. *)
Definition addTag_commit (fieldName : jsstring) (tags : list TagData)
    (tag : option TagData) : task unit :=
  match tag with
  | Some t => updateValue fieldName (tags ++ [t])
  | None => Return tt
  end ;;
  set (setInputValue []) ;;
  set (setSuggestions []) ;;
  set (setShowSuggestions false) ;;
  do_call FocusInput.

(** [tagOrName] is a tag ([inl]) or a string ([inr]). *)
Definition addTag (fieldName : jsstring) (tags : list TagData)
    (tagApiPath : jsstring) (tagOrName : TagData + jsstring) : task unit :=
  match tagOrName with
  | inr tagName =>
      tag <- findOrCreateTag tags tagApiPath tagName ;;
      addTag_commit fieldName tags tag
  | inl t =>
      if existsb (fun x => strict_equals (documentId x) (documentId t)) tags
      then Return tt
      else addTag_commit fieldName tags (Some t)
  end.

Definition removeTag (fieldName : jsstring) (tags : list TagData)
    (id : value) : task unit :=
  updateValue fieldName
    (filter (fun t => negb (strict_equals (documentId t) id)) tags).

Definition key_is (key : jsstring) (k : string) : bool := jsstring_eqb key (str k).

Definition handleKeyDown (fieldName : jsstring) (inputValue : jsstring)
    (selectedIndex : Z) (suggestions tags : list TagData)
    (tagApiPath : jsstring) (key : jsstring) : task unit :=
  if key_is key "Enter" || key_is key "," then
    do_call PreventDefault ;;
    if Z.leb 0 selectedIndex
       && Z.ltb selectedIndex (Z.of_nat (List.length suggestions)) then
      match nth_error suggestions (Z.to_nat selectedIndex) with
      | Some suggestion => addTag fieldName tags tagApiPath (inl suggestion)
      | None => Throw TypeError
      end
    else if nonempty (trim inputValue) then
      addTag fieldName tags tagApiPath (inr (trim inputValue))
    else Return tt
  else if key_is key "Backspace" && negb (nonempty inputValue)
          && Nat.ltb 0 (List.length tags) then
    match nth_error tags (List.length tags - 1) with
    | Some last => removeTag fieldName tags (documentId last)
    | None => Throw TypeError
    end
  else if key_is key "ArrowDown" then
    do_call PreventDefault ;;
    set (setSelectedIndex (fun prev =>
           Z.min (prev + 1) (Z.of_nat (List.length suggestions) - 1)))
  else if key_is key "ArrowUp" then
    do_call PreventDefault ;;
    set (setSelectedIndex (fun prev => Z.max (prev - 1) (-1)))
  else if key_is key "Escape" then
    set (setShowSuggestions false) ;;
    set (setSelectedIndex (fun _ => (-1)%Z))
  else Return tt.

(** The effect that runs when the [value] prop changes, and at mount. *)
Definition initialize (v : value) : task unit :=
  GetState (fun st =>
    if hasUserEdited st then Return tt
    else
      parsed <- lift (parseTagValue v) ;;
      if Nat.ltb 0 (List.length parsed) then set (setTags parsed)
      else Return tt).

(** ** Running handlers *)

(** A pending timer: its identifier, the time it is due, its callback. *)
Definition timer : Type := timer_id * Z * callback.

(** The component in its surroundings: the clock (in milliseconds), the
    timers set and not yet fired or cleared, the layout [Measure]
    reads, and the calls made so far, oldest first. *)
Record world : Type := {
  ui : state;
  now : Z;
  timers : list timer;
  next_timer : timer_id;
  layout : option bool;
  log : list call
}.

Definition with_ui (f : state -> state) (w : world) : world :=
  {| ui := f (ui w); now := now w; timers := timers w;
     next_timer := next_timer w; layout := layout w; log := log w |}.

Definition with_log (c : call) (w : world) : world :=
  {| ui := ui w; now := now w; timers := timers w;
     next_timer := next_timer w; layout := layout w; log := log w ++ [c] |}.

Definition with_timers (ts : list timer) (w : world) : world :=
  {| ui := ui w; now := now w; timers := ts;
     next_timer := next_timer w; layout := layout w; log := log w |}.

Definition with_now (t : Z) (w : world) : world :=
  {| ui := ui w; now := t; timers := timers w;
     next_timer := next_timer w; layout := layout w; log := log w |}.

(** [setTimeout(cb, delay)]: the new timer's identifier and the world
    with the timer.  Identifiers start at 1 and are never reused. *)
Definition add_timer (cb : callback) (delay : Z) (w : world) : timer_id * world :=
  (next_timer w,
   {| ui := ui w; now := now w;
      timers := timers w ++ [(next_timer w, (now w + delay)%Z, cb)];
      next_timer := S (next_timer w); layout := layout w; log := log w |}).

Definition clear_timer (id : timer_id) (w : world) : world :=
  with_timers (filter (fun t : timer => negb (Nat.eqb (fst (fst t)) id)) (timers w)) w.

(** Where a handler stands: finished with a value, finished by a
    throw, or suspended at a request. *)
Inductive status (A : Type) : Type :=
| Finished (a : A)
| Failed (e : exn)
| Waiting (r : request) (k : outcome -> task A).
Arguments Finished {A} a.
Arguments Failed {A} e.
Arguments Waiting {A} r k.

(** Run a handler.  [answer] tells how each request settles; where it
    tells nothing the handler stays suspended there. *)
Fixpoint run {A} (answer : request -> option outcome) (t : task A) (w : world)
    : status A * world :=
  match t with
  | Return a => (Finished a, w)
  | Throw e => (Failed e, w)
  | SetState f k => run answer k (with_ui f w)
  | GetState k => run answer (k (ui w)) w
  | Call c k => run answer k (with_log c w)
  | Await r k =>
      match answer r with
      | Some o => run answer (k o) (with_log (Http r) w)
      | None => (Waiting r k, with_log (Http r) w)
      end
  | SetTimeout cb delay k =>
      let (id, w') := add_timer cb delay w in run answer (k id) w'
  | ClearTimeout id k => run answer k (clear_timer id w)
  | Measure k => run answer (k (layout w)) w
  end.

(** Resume a suspended handler: the request is not made again. *)
Definition resume {A} (answer : request -> option outcome)
    (k : outcome -> task A) (o : outcome) (w : world) : status A * world :=
  run answer (k o) w.

(** ** The event loop *)

(** A request in flight, with the rest of the handler that awaits it. *)
Definition suspended : Type := request * (outcome -> task unit).

Record machine : Type := {
  world_of : world;
  in_flight : list suspended
}.

Definition no_answer (r : request) : option outcome := None.

(** What becomes of a handler that has run as far as it can. *)
Definition settle_status (sw : status unit * world) (waiting : list suspended)
    : machine :=
  match sw with
  | (Finished _, w) => {| world_of := w; in_flight := waiting |}
  | (Failed e, w) => {| world_of := with_log (Unhandled e) w; in_flight := waiting |}
  | (Waiting r k, w) => {| world_of := w; in_flight := waiting ++ [(r, k)] |}
  end.

(** Run a handler up to its end or its next request. *)
Definition exec (t : task unit) (m : machine) : machine :=
  settle_status (run no_answer t (world_of m)) (in_flight m).

(** The timer that fires next by time [t]: the earliest due, and among
    those the one set first; and the timers that remain. *)
Fixpoint pop_due (t : Z) (ts : list timer) : option (timer * list timer) :=
  match ts with
  | [] => None
  | x :: rest =>
      match pop_due t rest with
      | Some (y, rest') =>
          if Z.leb (snd (fst x)) t && Z.leb (snd (fst x)) (snd (fst y))
          then Some (x, rest)
          else Some (y, x :: rest')
      | None => if Z.leb (snd (fst x)) t then Some (x, rest) else None
      end
  end.

(** Fire, in order, the timers due by time [t]; [n] bounds their
    number.  The clock stands at a timer's due time while it runs. *)
Fixpoint fire (n : nat) (t : Z) (m : machine) : machine :=
  match n with
  | O => m
  | S n' =>
      match pop_due t (timers (world_of m)) with
      | None => m
      | Some ((id, due, cb), rest) =>
          let w := with_now (Z.max (now (world_of m)) due)
                     (with_timers rest (world_of m)) in
          fire n' t (exec (Call (TimerFired cb) (run_callback cb))
                          {| world_of := w; in_flight := in_flight m |})
      end
  end.

Fixpoint remove_nth {A} (i : nat) (l : list A) : list A :=
  match i, l with
  | _, [] => []
  | O, _ :: rest => rest
  | S i', x :: rest => x :: remove_nth i' rest
  end.

(** What happens to the mounted component. *)
Inductive event : Type :=
| ValueChanged (v : value)          (* the host renders a new [value] prop *)
| InputChanged (text : jsstring)    (* the user edits the text input *)
| KeyPressed (key : jsstring)       (* a key goes down in the text input *)
| RemoveClicked (id : value)        (* the cross on a chip *)
| SuggestionClicked (t : TagData)   (* an entry of the dropdown *)
| Elapsed (ms : Z)                  (* time passes *)
| Settled (i : nat) (o : outcome).  (* the [i]-th request in flight settles *)

(** One turn of the event loop.  A handler that the user triggers is
    the one of the latest render: it closes over the current state. *)
Definition step (fieldName : jsstring) (m : machine) (e : event) : machine :=
  let st := ui (world_of m) in
  match e with
  | ValueChanged v => exec (initialize v) m
  | InputChanged text => exec (handleInputChange (tags st) (tagApiPath st) text) m
  | KeyPressed key =>
      exec (handleKeyDown fieldName (inputValue st) (selectedIndex st)
              (suggestions st) (tags st) (tagApiPath st) key) m
  | RemoveClicked id => exec (removeTag fieldName (tags st) id) m
  | SuggestionClicked t => exec (addTag fieldName (tags st) (tagApiPath st) (inl t)) m
  | Elapsed ms =>
      let t := (now (world_of m) + Z.max 0 ms)%Z in
      let m' := fire (List.length (timers (world_of m))) t m in
      {| world_of := with_now t (world_of m'); in_flight := in_flight m' |}
  | Settled i o =>
      match nth_error (in_flight m) i with
      | Some (_, k) =>
          settle_status (resume no_answer k o (world_of m))
                        (remove_nth i (in_flight m))
      | None => m
      end
  end.

Definition steps (fieldName : jsstring) (m : machine) (es : list event) : machine :=
  fold_left (step fieldName) es m.

(** The component just mounted, with the Tag Directory at [path]. *)
Definition mounted (path : jsstring) : machine :=
  {| world_of := {| ui := {| tags := []; inputValue := []; suggestions := [];
                             showSuggestions := false; selectedIndex := (-1)%Z;
                             isCreating := false; dropdownFlip := false;
                             tagApiPath := path; debounceRef := None;
                             hasUserEdited := false |};
                    now := 0%Z; timers := []; next_timer := 1%nat;
                    layout := Some false; log := [] |};
     in_flight := [] |}.

(** The requests made, in order. *)
Definition requests (l : list call) : list request :=
  flat_map (fun c => match c with Http r => [r] | _ => [] end) l.

(** The values the field host was notified of, in order. *)
Definition notifications (l : list call) : list value :=
  flat_map (fun c => match c with OnChange _ v _ => [v] | _ => [] end) l.

(** The queries [searchTags] was called with by timers, in order. *)
Definition searches (l : list call) : list jsstring :=
  flat_map (fun c => match c with TimerFired cb => [trim (cb_val cb)] | _ => [] end) l.

(** ** Notions the statements use *)

(** A tag as the interface declares it, with a name that is not empty:
    both fields are strings. *)
Definition tag_ok (t : TagData) : bool :=
  match documentId t, name t with
  | VString _, VString n => nonempty n
  | _, _ => false
  end.

(** Whether [nm] is, ignoring case, the name of a tag of [ts]. *)
Definition present (ts : list TagData) (nm : jsstring) : bool :=
  existsb (fun t => match name t with
                    | VString n => jsstring_eqb (toLowerCase n) (toLowerCase nm)
                    | _ => false
                    end) ts.

(** Whether the names of [ts] are strings, as [TagData] declares. *)
Definition string_names (ts : list TagData) : bool :=
  forallb (fun t => typeof_string (name t)) ts.

(** Whether the identifiers of [ts] are primitives (strings, as
    [TagData] declares, or other values compared by value). *)
Definition primitive_ids (ts : list TagData) : bool :=
  forallb (fun t => primitive (documentId t)) ts.

(** What [searchTags] publishes as suggestions when its request
    settles as [o], for the [tags] of the render that issued it. *)
Definition published (tags : list TagData) (o : outcome) : list TagData :=
  match o with
  | Fulfilled response =>
      match rbind (prop response f_data) (fun data =>
            rbind (opt_prop data f_results) (fun r =>
            unselected tags (or_else r (VArray [])))) with
      | Ok filtered => filtered
      | Error _ => []
      end
  | Rejected _ => []
  end.

(** Whether the response to a create request carries an identifier:
    whether [created?.documentId] is truthy for the [created] that
    [findOrCreateTag] takes from it. *)
Definition has_identifier (createResp : value) : bool :=
  match rbind (prop createResp f_data) (fun d =>
        rbind (opt_prop d f_data) (fun dd =>
        opt_prop (or_else dd d) f_documentId)) with
  | Ok id => truthy id
  | Error _ => false
  end.

(** A handler that never notifies the field host and leaves the
    committed set and the edit latch as they are. *)
Inductive quiet {A : Type} : task A -> Prop :=
| quiet_Return (a : A) : quiet (Return a)
| quiet_Throw (e : exn) : quiet (Throw e)
| quiet_SetState (f : state -> state) (k : task A) :
    (forall st, tags (f st) = tags st) ->
    (forall st, hasUserEdited (f st) = hasUserEdited st) ->
    quiet k -> quiet (SetState f k)
| quiet_GetState (k : state -> task A) :
    (forall st, quiet (k st)) -> quiet (GetState k)
| quiet_Call (c : call) (k : task A) :
    notifications [c] = [] -> quiet k -> quiet (Call c k)
| quiet_Await (r : request) (k : outcome -> task A) :
    (forall o, quiet (k o)) -> quiet (Await r k)
| quiet_SetTimeout (cb : callback) (d : Z) (k : timer_id -> task A) :
    (forall id, quiet (k id)) -> quiet (SetTimeout cb d k)
| quiet_ClearTimeout (id : timer_id) (k : task A) :
    quiet k -> quiet (ClearTimeout id k)
| quiet_Measure (k : option bool -> task A) :
    (forall m, quiet (k m)) -> quiet (Measure k).

(** The events of a burst of edits: each text, then the time that
    passes before the next. *)
Definition keystrokes (burst : list (jsstring * Z)) : list event :=
  flat_map (fun kd => [InputChanged (fst kd); Elapsed (snd kd)]) burst.

(** Whether each edit of a burst is followed by the next in less than
    the debounce delay. *)
Definition rapid (burst : list (jsstring * Z)) : bool :=
  forallb (fun kd => Z.ltb (snd kd) 250) burst.

(** The one pending timer, if any, is the one [debounceRef] holds. *)
Definition debounced (m : machine) : Prop :=
  match timers (world_of m) with
  | [] => True
  | [(id, _, _)] => debounceRef (ui (world_of m)) = Some id
  | _ :: _ :: _ => False
  end.

(** *** The encoded committed set, as a text *)

(** The JSON text [JSON.stringify] writes for a tag whose fields are the
    strings [id] and [n], followed by [rest]. *)
Definition tag_text (id n rest : jsstring) : jsstring :=
  123%N :: 34%N :: str "documentId" ++ 34%N :: 58%N :: 34%N ::
  quote_chars id ++ 34%N :: 44%N :: 34%N :: str "name" ++
  34%N :: 58%N :: 34%N :: quote_chars n ++ 34%N :: 125%N :: rest.

(** The string a field holds, when it holds one. *)
Definition text_of (v : value) : jsstring :=
  match v with VString s => s | _ => [] end.

(** The text of the elements of a committed set up to the closing
    bracket, followed by [rest]. *)
Fixpoint elements_text (ts : list TagData) (rest : jsstring) : jsstring :=
  match ts with
  | [] => 93%N :: rest
  | t :: ts' =>
      tag_text (text_of (documentId t)) (text_of (name t))
        match ts' with
        | [] => 93%N :: rest
        | _ :: _ => 44%N :: elements_text ts' rest
        end
  end.

(** *** Data for the examples *)

(** The text of the second slug example: two spaces, the Marathi word
    for Marathi, two spaces, the word for language, a space. *)
Definition marathi_bhasha : jsstring :=
  [32; 32; 2350; 2352; 2366; 2336; 2368; 32; 32; 2349; 2366; 2359; 2366; 32]%N.

(** The path of the Tag Directory under the default content type. *)
Definition content_manager : jsstring :=
  str "/content-manager/collection-types/api::tag.tag".

(** The tag with the identifier [id] and the name [n]. *)
Definition tag (id n : string) : TagData :=
  {| documentId := VString (str id); name := VString (str n) |}.

(** The response to a search that finds [ts]. *)
Definition found (ts : list TagData) : value :=
  VObject [(str "data", VObject [(str "results", tags_value ts)])].

(** A Tag Directory that cannot be reached. *)
Definition unreachable (r : request) : outcome :=
  Rejected (VString (str "offline")).

(** *** The shape of a slug *)

(** Whether no two hyphens of [s] are next to each other. *)
Fixpoint no_double_hyphen (s : jsstring) : bool :=
  match s with
  | c :: (d :: _) as rest => negb (is_hyphen c && is_hyphen d) && no_double_hyphen rest
  | _ => true
  end.

(** A character of the tabulated blocks that is no Latin capital. *)
Definition plain (c : N) : bool := tabulated c && negb (in_range 65 90 c).

(** *** The plugin configuration *)

(** The default tag content type. *)
Definition DEFAULT_TAG_UID : jsstring := str "api::tag.tag".

(** [v?.k] for a property name [k] that strings, arrays, Booleans and
    numbers do not have: [undefined] unless [v] is an object. *)
Definition opt_get (v : value) (k : jsstring) : value :=
  match v with
  | VObject props => lookup k props
  | _ => VUndefined
  end.

Definition setTagApiPath (v : jsstring) (st : state) : state :=
  {| tags := tags st; inputValue := inputValue st; suggestions := suggestions st;
     showSuggestions := showSuggestions st; selectedIndex := selectedIndex st;
     isCreating := isCreating st; dropdownFlip := dropdownFlip st;
     tagApiPath := v; debounceRef := debounceRef st;
     hasUserEdited := hasUserEdited st |}.

(** The URL of the plugin's configuration endpoint. *)
Definition config_url : jsstring := str "/tag-manager/config".

(** The effect that fetches the plugin configuration at mount and sets
    [tagApiPath].  The template literal converts [uid] inside the
    [try]. *)
Definition loadConfig : task unit :=
  try_catch
    (resp <- await (Get config_url) ;;
     let uid := or_else (opt_get (opt_get resp (str "data")) (str "tagContentType"))
                        (VString DEFAULT_TAG_UID) in
     path <- lift (ToString uid) ;;
     set (setTagApiPath (str "/content-manager/collection-types/" ++ path)))
    (fun _ =>
       set (setTagApiPath (str "/content-manager/collection-types/" ++ DEFAULT_TAG_UID))).

(** The server's controller [getConfig]: the body it answers with.
    [config] is the configuration reader of the plugin,
    [strapi.plugin('tag-manager').config]. *)
Definition getConfig (config : jsstring -> value) : value :=
  VObject [(str "tagContentType",
            or_else (config (str "tagContentType")) (VString (str "api::tag.tag")))].

(** What the server's [validator] does with a configuration: it
    returns, throws its own [Error] with a message, or fails to read
    the configuration. *)
Inductive validation : Type :=
| Valid
| Invalid (message : jsstring)
| Unreadable (e : exn).

Definition validator (config : value) : validation :=
  match config with
  | VUndefined | VNull => Unreadable TypeError
  | _ =>
      let c := opt_get config (str "tagContentType") in
      if truthy c && negb (typeof_string c)
      then Invalid
             (json "tag-manager: tagContentType must be a string (e.g. 'api::tag.tag')")
      else Valid
  end.

(** The path of the collection of the content type [uid] in the content
    manager. *)
Definition collection_path (uid : jsstring) : jsstring :=
  str "/content-manager/collection-types/" ++ uid.

(** *** What a search is sent for *)

(** The encoded query [searchTags] sends a request for, if it sends
    one: none for an empty query, for an empty [tagApiPath], or for a
    query that [encodeURIComponent] refuses. *)
Definition searched (tagApiPath query : jsstring) : option jsstring :=
  if nonempty query && nonempty tagApiPath then
    match encodeURIComponent query with
    | Ok q => Some q
    | Error _ => None
    end
  else None.

(** *** What a resolution is sent for *)

(** Whether the response to the exact-name search holds a match:
    whether [existing.length > 0] for the [existing] that
    [findOrCreateTag] takes from it. *)
Definition has_match (searchResp : value) : result bool :=
  rbind (prop searchResp f_data) (fun data =>
  rbind (opt_prop data f_results) (fun r =>
  length_positive (or_else r (VArray [])))).

(** *** Keys *)

(** One of the two keys that move the highlight. *)
Definition arrow (key : jsstring) : bool :=
  key_is key "ArrowDown" || key_is key "ArrowUp".

(** *** Responses of the Tag Directory *)

(** The response to a create request that carries the new record [t],
    inside a [data] envelope ([nested]) or bare: the two shapes
    [findOrCreateTag] reads. *)
Definition created (nested : bool) (t : TagData) : value :=
  if nested
  then VObject [(str "data", VObject [(str "data", tag_object t)])]
  else VObject [(str "data", tag_object t)].

(** *** URLs *)

(** A character that can stand in a URL's query without being read as
    a delimiter: an unreserved one, or the percent sign of an escape. *)
Definition url_safe (c : N) : bool := uri_unreserved c || N.eqb c 37.

(** Whether every element of a string is a UTF-16 code unit. *)
Definition code_units (s : jsstring) : bool := forallb (fun c => N.ltb c 65536) s.

(** *** Invariants of the mounted component *)

(** What a handler is allowed: the state updates, the calls, the
    requests, the callbacks it may hand to [setTimeout], and whether it
    may clear a timer. *)
Record policy : Type := {
  okS : (state -> state) -> Prop;
  okC : call -> Prop;
  okR : request -> Prop;
  okCb : callback -> Prop;
  okClear : Prop
}.

(** A handler that stays within a policy. *)
Inductive within (p : policy) {A : Type} : task A -> Prop :=
| within_Return (a : A) : within p (Return a)
| within_Throw (e : exn) : within p (Throw e)
| within_SetState (f : state -> state) (k : task A) :
    okS p f -> within p k -> within p (SetState f k)
| within_GetState (k : state -> task A) :
    (forall st, within p (k st)) -> within p (GetState k)
| within_Call (c : call) (k : task A) :
    okC p c -> within p k -> within p (Call c k)
| within_Await (r : request) (k : outcome -> task A) :
    okR p r -> (forall o, within p (k o)) -> within p (Await r k)
| within_SetTimeout (cb : callback) (d : Z) (k : timer_id -> task A) :
    okCb p cb -> (forall id, within p (k id)) -> within p (SetTimeout cb d k)
| within_ClearTimeout (id : timer_id) (k : task A) :
    okClear p -> within p k -> within p (ClearTimeout id k)
| within_Measure (k : option bool -> task A) :
    (forall m, within p (k m)) -> within p (Measure k).

(** A state update that never lowers the edit latch. *)
Definition keeps_latch (f : state -> state) : Prop :=
  forall st, hasUserEdited st = true -> hasUserEdited (f st) = true.

(** Anything, but for lowering the edit latch. *)
Definition latch_policy : policy :=
  {| okS := keeps_latch; okC := fun _ => True; okR := fun _ => True;
     okCb := fun _ => True; okClear := True |}.

(** A state update that leaves [debounceRef] as it is. *)
Definition keeps_debounceRef (f : state -> state) : Prop :=
  forall st, debounceRef (f st) = debounceRef st.

(** Anything, but for setting or clearing a timer and for writing
    [debounceRef]. *)
Definition timerless : policy :=
  {| okS := keeps_debounceRef; okC := fun _ => True; okR := fun _ => True;
     okCb := fun _ => False; okClear := False |}.

(** Whether a request goes to the collection at [path]: a search or an
    exact-name search there, or a create request. *)
Definition aimed_at (path : jsstring) (r : request) : Prop :=
  match r with
  | Get url => exists q, url = search_url path q \/ url = exact_url path q
  | Post url _ => url = path
  end.

(** Requests to the collection at [path] only, timers that will search
    there only, and [tagApiPath] left as it is. *)
Definition directory_only (path : jsstring) : policy :=
  {| okS := fun f => forall st, tagApiPath (f st) = tagApiPath st;
     okC := fun c => requests [c] = [];
     okR := aimed_at path;
     okCb := fun cb => cb_tagApiPath cb = path;
     okClear := True |}.

(** A world that has sent requests to the collection at [path] only,
    and whose state and pending timers hold that path. *)
Definition talks_to (path : jsstring) (w : world) : Prop :=
  tagApiPath (ui w) = path /\
  Forall (fun tm : timer => cb_tagApiPath (snd tm) = path) (timers w) /\
  Forall (aimed_at path) (requests (log w)).

(** A handler that changes the committed set only as [updateValue]
    does: the latch is set, the set replaced and the field host told
    the encoded new set, all three together. *)
Inductive synced {A : Type} : task A -> Prop :=
| synced_Return (a : A) : synced (Return a)
| synced_Throw (e : exn) : synced (Throw e)
| synced_SetState (f : state -> state) (k : task A) :
    (forall st, tags (f st) = tags st) ->
    (forall st, hasUserEdited (f st) = hasUserEdited st) ->
    synced k -> synced (SetState f k)
| synced_update (fieldName : jsstring) (newTags : list TagData) (ty : jsstring)
    (k : task A) :
    synced k ->
    synced (SetState (setHasUserEdited true)
             (SetState (setTags newTags)
               (Call (OnChange fieldName (JSON_stringify (tags_value newTags)) ty) k)))
| synced_GetState (k : state -> task A) :
    (forall st, synced (k st)) -> synced (GetState k)
| synced_Call (c : call) (k : task A) :
    notifications [c] = [] -> synced k -> synced (Call c k)
| synced_Await (r : request) (k : outcome -> task A) :
    (forall o, synced (k o)) -> synced (Await r k)
| synced_SetTimeout (cb : callback) (d : Z) (k : timer_id -> task A) :
    (forall id, synced (k id)) -> synced (SetTimeout cb d k)
| synced_ClearTimeout (id : timer_id) (k : task A) :
    synced k -> synced (ClearTimeout id k)
| synced_Measure (k : option bool -> task A) :
    (forall m, synced (k m)) -> synced (Measure k).

(** The field host and the component agree: either the host was never
    notified and the user has not edited, or the user has edited and
    the value the host was told last is the encoded committed set. *)
Definition in_sync (w : world) : Prop :=
  (notifications (log w) = [] /\ hasUserEdited (ui w) = false) \/
  (exists earlier,
     notifications (log w) =
       earlier ++ [JSON_stringify (tags_value (tags (ui w)))] /\
     hasUserEdited (ui w) = true).

(** The one pending timer of a world, if any, is the one [debounceRef]
    holds. *)
Definition one_timer (w : world) : Prop :=
  debounced {| world_of := w; in_flight := [] |}.

(** A machine whose world satisfies [J] and whose suspended handlers
    all continue as handlers in [good]. *)
Definition safe (J : world -> Prop) (good : task unit -> Prop) (m : machine) : Prop :=
  J (world_of m) /\ Forall (fun rk : suspended => forall o, good (snd rk o)) (in_flight m).

(** The handler an event of the user or of the field host runs, for
    the state [st] of the latest render. *)
Definition handler_of (fieldName : jsstring) (st : state) (e : event)
    : option (task unit) :=
  match e with
  | ValueChanged v => Some (initialize v)
  | InputChanged text => Some (handleInputChange (tags st) (tagApiPath st) text)
  | KeyPressed key =>
      Some (handleKeyDown fieldName (inputValue st) (selectedIndex st)
              (suggestions st) (tags st) (tagApiPath st) key)
  | RemoveClicked id => Some (removeTag fieldName (tags st) id)
  | SuggestionClicked t => Some (addTag fieldName (tags st) (tagApiPath st) (inl t))
  | Elapsed _ | Settled _ _ => None
  end.

End Model.

Arguments value {P}.
Arguments Error {P A} e.
Arguments Throw {P A} e.
Arguments Failed {P A} e.

Notation "x <- t ;; k" := (bind t (fun x => k))
  (at level 61, t at next level, right associativity).
Notation "t ;; k" := (bind t (fun _ => k))
  (at level 61, right associativity).

(** * Properties *)

Section Properties.
Context {P : Platform}.

(** ** Slugs *)

(** C7. [makeSlug("Hello, World!")] is ["hello-world"], and the slug of
    the Devanagari example is not empty, has its two words joined by a
    hyphen, is in lower case and keeps every letter (every code point of
    General_Category L) of the text in order; the vowel signs, which are
    marks and not letters, are not kept. *)
Theorem C7_makeSlug_examples :
  makeSlug (str "Hello, World!") = str "hello-world" /\
  makeSlug marathi_bhasha = [2350; 2352; 2336; 45; 2349; 2359]%N /\
  nonempty (makeSlug marathi_bhasha) = true /\
  toLowerCase (makeSlug marathi_bhasha) = makeSlug marathi_bhasha /\
  filter is_letter (makeSlug marathi_bhasha) = filter is_letter marathi_bhasha /\
  filter is_hyphen (makeSlug marathi_bhasha) = str "-".
Proof.
  repeat split; reflexivity.
Qed.

(** ** The encoded value: decoding what was encoded *)

Lemma hex_value_digit (d : N) : (d < 16)%N -> hex_value (hex_digit d) = Some d.
Proof.
  intros H.
  assert (E : (d = 0 \/ d = 1 \/ d = 2 \/ d = 3 \/ d = 4 \/ d = 5 \/ d = 6 \/ d = 7 \/
           d = 8 \/ d = 9 \/ d = 10 \/ d = 11 \/ d = 12 \/ d = 13 \/ d = 14 \/ d = 15)%N) by lia.
  repeat (destruct E as [E | E]; [subst d; reflexivity | ]).
  subst d; reflexivity.
Qed.

Lemma hex4_value_hex4 (c : N) :
  (c < 65536)%N ->
  hex4_value (hex_digit ((c / 4096) mod 16)) (hex_digit ((c / 256) mod 16))
             (hex_digit ((c / 16) mod 16)) (hex_digit (c mod 16)) = Some c.
Proof.
  intros H. unfold hex4_value.
  rewrite !hex_value_digit by (apply N.mod_lt; discriminate).
  f_equal.
  zify. Z.to_euclidean_division_equations. lia.
Qed.

Lemma parse_chars_unicode (a b c d : N) (tail : jsstring) :
  parse_chars (92 :: 117 :: a :: b :: c :: d :: tail)%N =
  match hex4_value a b c d with
  | Some u => cons_fst u (parse_chars tail)
  | None => None
  end.
Proof. reflexivity. Qed.

Lemma parse_chars_plain (c : N) (tail : jsstring) :
  N.eqb c 34 = false -> N.eqb c 92 = false -> N.ltb c 32 = false ->
  parse_chars (c :: tail) = cons_fst c (parse_chars tail).
Proof.
  intros H1 H2 H3. cbn [parse_chars]. rewrite H1, H2, H3. reflexivity.
Qed.

Ltac bools :=
  repeat match goal with
  | H : _ && _ = true |- _ => apply andb_true_iff in H; destruct H
  | H : _ || _ = true |- _ => apply orb_true_iff in H
  | H : _ || _ = false |- _ => apply orb_false_iff in H; destruct H
  | H : N.leb _ _ = true |- _ => apply N.leb_le in H
  | H : N.leb _ _ = false |- _ => apply N.leb_gt in H
  | H : N.ltb _ _ = true |- _ => apply N.ltb_lt in H
  | H : N.ltb _ _ = false |- _ => apply N.ltb_ge in H
  | H : N.eqb _ _ = true |- _ => apply N.eqb_eq in H
  | H : N.eqb _ _ = false |- _ => apply N.eqb_neq in H
  end.

Lemma parse_chars_code_point (c : N) (tail : jsstring) :
  parse_chars (quote_code_point c ++ tail) = cons_fst c (parse_chars tail).
Proof.
  unfold quote_code_point.
  repeat match goal with
  | |- context [if N.eqb c ?k then _ else _] =>
      destruct (N.eqb c k) eqn:?;
      [ match goal with H : N.eqb c k = true |- _ =>
          apply N.eqb_eq in H; subst c; reflexivity end | ]
  end.
  destruct (N.ltb c 32 || is_surrogate c) eqn:E.
  - unfold unicode_escape, hex4. cbn [app].
    rewrite parse_chars_unicode, hex4_value_hex4; [reflexivity|].
    unfold is_surrogate, in_range in E. bools. destruct E; bools; lia.
  - bools. cbn [app].
    apply parse_chars_plain; try apply N.eqb_neq; try apply N.ltb_ge; assumption.
Qed.

Lemma parse_chars_quote_chars (n : nat) :
  forall (s rest : jsstring), (List.length s <= n)%nat ->
  parse_chars (quote_chars s ++ 34%N :: rest) = Some (s, rest).
Proof.
  induction n as [|n IH]; intros s rest Hn.
  - destruct s; [reflexivity | simpl in Hn; lia].
  - destruct s as [|c s]; [reflexivity|].
    simpl in Hn. cbn [quote_chars].
    destruct (is_high_surrogate c) eqn:Hc.
    + destruct s as [|l s'].
      * rewrite parse_chars_code_point. reflexivity.
      * destruct (is_low_surrogate l) eqn:Hl.
        -- unfold is_high_surrogate, is_low_surrogate, in_range in *. bools.
           cbn [app]. 
           rewrite parse_chars_plain
             by (try apply N.eqb_neq; try apply N.ltb_ge; lia).
           rewrite parse_chars_plain
             by (try apply N.eqb_neq; try apply N.ltb_ge; lia).
           rewrite IH by (simpl in Hn; lia). reflexivity.
        -- rewrite <- app_assoc, parse_chars_code_point, IH by lia. reflexivity.
    + rewrite <- app_assoc, parse_chars_code_point, IH by lia. reflexivity.
Qed.

Lemma parse_chars_quoted (s rest : jsstring) :
  parse_chars (quote_chars s ++ 34%N :: rest) = Some (s, rest).
Proof. apply parse_chars_quote_chars with (n := List.length s). apply le_n. Qed.

Ltac lex := cbn [skip_ws is_json_whitespace N.eqb Pos.eqb orb].

(** A member whose value is a string, and the character [d] after it. *)
Lemma parse_members_string (fuel : nat) (k v rest : jsstring) (d : N)
    (acc : list (jsstring * value)) :
  is_json_whitespace d = false ->
  parse_members (2 + fuel)
    (34%N :: quote_chars k ++ 34%N :: 58%N :: 34%N :: quote_chars v ++ 34%N :: d :: rest) acc =
  if N.eqb d 44 then parse_members (1 + fuel) rest (obj_set acc k (VString v))
  else if N.eqb d 125 then Some (VObject (obj_set acc k (VString v)), rest)
  else None.
Proof.
  intros Hd. cbn [parse_members Nat.add]. lex.
  rewrite parse_chars_quoted. lex.
  cbn [parse_value]. lex. rewrite parse_chars_quoted.
  cbn [skip_ws]. rewrite Hd. reflexivity.
Qed.

Lemma parse_value_tag (fuel : nat) (id n rest : jsstring) :
  parse_value (4 + fuel) (tag_text id n rest) =
  Some (tag_object {| documentId := VString id; name := VString n |}, rest).
Proof.
  unfold tag_text.
  change (str "documentId") with (quote_chars (str "documentId")).
  change (str "name") with (quote_chars (str "name")).
  cbn [parse_value Nat.add]. lex.
  rewrite (parse_members_string (S fuel)) by reflexivity.
  cbn [N.eqb Pos.eqb Nat.add].
  rewrite (parse_members_string fuel) by reflexivity.
  reflexivity.
Qed.

Lemma tag_ok_object (t : TagData) :
  tag_ok t = true ->
  t = {| documentId := VString (text_of (documentId t));
         name := VString (text_of (name t)) |} /\
  nonempty (text_of (name t)) = true.
Proof.
  destruct t as [d n]. unfold tag_ok. cbn [documentId name].
  destruct d; try discriminate. destruct n; try discriminate.
  intros H. split; [reflexivity | exact H].
Qed.

Lemma serialize_tag (t : TagData) :
  tag_ok t = true ->
  serialize (tag_object t) =
  Some (tag_text (text_of (documentId t)) (text_of (name t)) []).
Proof.
  destruct t as [d n]. unfold tag_ok. cbn [documentId name].
  destruct d; try discriminate. destruct n; try discriminate. intros _.
  unfold tag_text, tag_object, serialize, QuoteJSONString.
  cbn - [quote_chars].
  repeat (rewrite <- ?app_assoc; cbn - [quote_chars]). reflexivity.
Qed.

Lemma tag_text_app (id n rest : jsstring) :
  tag_text id n [] ++ rest = tag_text id n rest.
Proof.
  unfold tag_text. cbn - [quote_chars].
  repeat (rewrite <- ?app_assoc; cbn - [quote_chars]). reflexivity.
Qed.

Lemma join_cons (sep a b : jsstring) (l : list jsstring) :
  join sep (a :: b :: l) = a ++ sep ++ join sep (b :: l).
Proof. reflexivity. Qed.

Lemma serialize_tags (ts : list TagData) :
  forallb tag_ok ts = true ->
  serialize (tags_value ts) = Some (91%N :: elements_text ts []).
Proof.
  intros H. unfold tags_value. cbn [serialize]. f_equal.
  change (str "[") with [91%N]. cbn [app]. f_equal.
  induction ts as [|t ts IH]; [reflexivity|].
  cbn [forallb] in H. apply andb_true_iff in H. destruct H as [Ht Hts].
  specialize (IH Hts).
  destruct ts as [|t' ts].
  - cbn [map join elements_text]. rewrite (serialize_tag t Ht), tag_text_app.
    reflexivity.
  - change (elements_text (t :: t' :: ts) [])
      with (tag_text (text_of (documentId t)) (text_of (name t))
              (44%N :: elements_text (t' :: ts) [])).
    rewrite <- IH, <- tag_text_app.
    cbn [map]. rewrite join_cons, (serialize_tag t Ht).
    rewrite <- !app_assoc. reflexivity.
Qed.

Lemma elements_text_length (ts : list TagData) (rest : jsstring) :
  (2 * List.length ts <= List.length (elements_text ts rest))%nat.
Proof.
  induction ts as [|t ts IH]; [cbn; lia|].
  cbn [elements_text]. unfold tag_text. cbn [List.length].
  repeat (rewrite length_app; cbn [List.length]).
  destruct ts; cbn [List.length] in *; lia.
Qed.

Lemma parse_elements_step (fuel : nat) (s : jsstring) (acc : list value) :
  parse_elements (S fuel) s acc =
  match parse_value fuel s with
  | Some (v, r) =>
      match skip_ws r with
      | c :: r' =>
          if N.eqb c 44 then parse_elements fuel r' (acc ++ [v])
          else if N.eqb c 93 then Some (VArray (acc ++ [v]), r')
          else None
      | [] => None
      end
  | None => None
  end.
Proof. reflexivity. Qed.

Lemma parse_elements_tags (ts : list TagData) :
  forall (fuel : nat) (t : TagData) (rest : jsstring) (acc : list value),
  forallb tag_ok (t :: ts) = true ->
  parse_elements (5 + List.length ts + fuel) (elements_text (t :: ts) rest) acc =
  Some (VArray (acc ++ map tag_object (t :: ts)), rest).
Proof.
  induction ts as [|t' ts IH]; intros fuel t rest acc H;
    cbn [forallb] in H; apply andb_true_iff in H; destruct H as [Ht Hts];
    destruct (tag_ok_object t Ht) as [Et _].
  - change (5 + List.length (@nil TagData) + fuel)%nat with (S (4 + fuel)).
    rewrite parse_elements_step. cbn [elements_text].
    rewrite (parse_value_tag fuel). lex. rewrite <- Et. reflexivity.
  - change (elements_text (t :: t' :: ts) rest)
      with (tag_text (text_of (documentId t)) (text_of (name t))
              (44%N :: elements_text (t' :: ts) rest)).
    change (5 + List.length (t' :: ts) + fuel)%nat
      with (S (4 + (S (List.length ts + fuel)))).
    rewrite parse_elements_step, parse_value_tag. lex.
    rewrite <- Et.
    change (4 + S (List.length ts + fuel))%nat
      with (5 + List.length ts + fuel)%nat.
    rewrite IH by exact Hts.
    rewrite <- app_assoc. reflexivity.
Qed.

Lemma filterM_has_name (ts : list TagData) :
  forallb tag_ok ts = true ->
  filterM has_name (map tag_object ts) = Ok (map tag_object ts).
Proof.
  induction ts as [|t ts IH]; [reflexivity|].
  cbn [forallb]. intros H. apply andb_true_iff in H. destruct H as [Ht Hts].
  destruct (tag_ok_object t Ht) as [Et Hn].
  cbn [map filterM]. rewrite (IH Hts).
  replace (has_name (tag_object t)) with (Ok true); [reflexivity|].
  rewrite Et. unfold has_name, tag_object. cbn. rewrite Hn. reflexivity.
Qed.

Lemma mapM_to_tag (ts : list TagData) :
  forallb tag_ok ts = true ->
  mapM to_tag (map tag_object ts) = Ok ts.
Proof.
  induction ts as [|t ts IH]; [reflexivity|].
  cbn [forallb]. intros H. apply andb_true_iff in H. destruct H as [Ht Hts].
  cbn [map mapM]. rewrite (IH Hts).
  replace (to_tag (tag_object t)) with (Ok t); [reflexivity|].
  destruct t as [d n]. unfold tag_ok in Ht. cbn [documentId name] in Ht.
  destruct d as [| | | |id| |]; try discriminate.
  destruct n as [| | | |n| |]; try discriminate.
  destruct id; reflexivity.
Qed.

Lemma parse_value_array (fuel : nat) (rest : jsstring) :
  parse_value (S fuel) (91%N :: 123%N :: rest) =
  parse_elements fuel (123%N :: rest) [].
Proof. reflexivity. Qed.

Lemma elements_text_head (t : TagData) (ts : list TagData) (rest : jsstring) :
  exists tl, elements_text (t :: ts) rest = 123%N :: tl.
Proof. cbn [elements_text]. unfold tag_text. eexists. reflexivity. Qed.

Lemma JSON_parse_tags (ts : list TagData) :
  forallb tag_ok ts = true ->
  JSON_parse (91%N :: elements_text ts []) = Ok (tags_value ts).
Proof.
  intros H. unfold JSON_parse.
  destruct ts as [|t ts]; [reflexivity|].
  pose proof (elements_text_length (t :: ts) []) as L.
  pose proof (parse_elements_tags ts
                (2 * List.length (elements_text (t :: ts) []) - List.length ts - 3)
                t [] [] H) as E.
  cbn [List.length] in L |- *.
  replace (2 * S (List.length (elements_text (t :: ts) [])) + 1)%nat
    with (S (5 + List.length ts +
             (2 * List.length (elements_text (t :: ts) []) - List.length ts - 3)))%nat
    by lia.
  destruct (elements_text_head t ts []) as [tl Htl].
  rewrite Htl in *.
  rewrite parse_value_array, E. reflexivity.
Qed.

(** C1, as amended.  For every committed set whose tags have string
    fields and a name that is not empty, decoding the encoded set gives
    the set back, in the same order and with the same content. *)
Theorem C1_roundtrip (ts : list TagData) :
  forallb tag_ok ts = true ->
  parseTagValue (JSON_stringify (tags_value ts)) = Ok ts.
Proof.
  intros H. unfold JSON_stringify. rewrite (serialize_tags ts H).
  unfold parseTagValue. cbn [truthy nonempty negb].
  rewrite (JSON_parse_tags ts H). unfold tags_value.
  rewrite (filterM_has_name ts H). cbn [rbind].
  apply (mapM_to_tag ts H).
Qed.

(** ** The parser has fuel enough *)

Lemma skip_ws_length (s : jsstring) : (List.length (skip_ws s) <= List.length s)%nat.
Proof.
  induction s as [|c s IH]; cbn [skip_ws]; [lia|].
  destruct (is_json_whitespace c); cbn [List.length] in *; lia.
Qed.

Lemma cons_fst_some {A B} (a : A) (r : option (list A * B)) (l : list A) (b : B) :
  cons_fst a r = Some (l, b) -> exists l', r = Some (l', b).
Proof.
  destruct r as [[l' b']|]; cbn [cons_fst]; [|discriminate].
  intros E. inversion E; subst. eauto.
Qed.

Ltac cases_in H :=
  repeat match type of H with
  | context [match ?x with _ => _ end] => destruct x eqn:?; try discriminate H
  end.

Lemma parse_chars_length (n : nat) :
  forall (s t r : jsstring), (List.length s <= n)%nat ->
  parse_chars s = Some (t, r) -> (List.length r < List.length s)%nat.
Proof.
  induction n as [|n IH]; intros s t r Hn E.
  - destruct s; [discriminate | cbn in Hn; lia].
  - destruct s as [|c s]; [discriminate|]. cbn [List.length] in *.
    cbn [parse_chars] in E. cases_in E;
      try (inversion E; subst; cbn [List.length]; lia);
      apply cons_fst_some in E; destruct E as [t' E];
      apply IH in E; cbn [List.length] in *; lia.
Qed.

Lemma scan_digits_length (s : jsstring) :
  (List.length (snd (scan_digits s)) <= List.length s)%nat.
Proof.
  induction s as [|c s IH]; cbn [scan_digits]; [cbn; lia|].
  destruct (is_digit c); [|cbn; lia].
  destruct (scan_digits s). cbn [snd List.length] in *. lia.
Qed.

Lemma scan_digits1_length (s ds r : jsstring) :
  scan_digits1 s = Some (ds, r) -> (List.length r <= List.length s)%nat.
Proof.
  unfold scan_digits1. pose proof (scan_digits_length s) as L.
  destruct (scan_digits s) as [[|d ds'] r']; [discriminate|].
  intros E. inversion E; subst. exact L.
Qed.

Lemma scan_number_length (s tok r : jsstring) :
  scan_number s = Some (tok, r) -> (List.length r < List.length s)%nat.
Proof.
  unfold scan_number.
  assert (I : forall s0 i s1, scan_int s0 = Some (i, s1) ->
                (List.length s1 < List.length s0)%nat).
  { intros s0 i s1. unfold scan_int. destruct s0 as [|c s0]; [discriminate|].
    pose proof (scan_digits_length s0) as L.
    destruct (N.eqb c 48).
    - intros E. inversion E; subst. cbn; lia.
    - destruct (in_range 49 57 c); [|discriminate].
      destruct (scan_digits s0). intros E. inversion E; subst.
      cbn [snd List.length] in *. lia. }
  assert (F : forall s1 f s2, scan_frac s1 = Some (f, s2) ->
                (List.length s2 <= List.length s1)%nat).
  { intros s1 f s2. unfold scan_frac. destruct s1 as [|c s1].
    - intros E. inversion E; subst. lia.
    - destruct (N.eqb c 46).
      + intros E. apply cons_fst_some in E. destruct E as [l E].
        apply scan_digits1_length in E. cbn [List.length]. lia.
      + intros E. inversion E; subst. lia. }
  assert (X : forall s2 e s3, scan_exp s2 = Some (e, s3) ->
                (List.length s3 <= List.length s2)%nat).
  { intros s2 e s3. unfold scan_exp. destruct s2 as [|c s2].
    - intros E. inversion E; subst. lia.
    - destruct (N.eqb c 101 || N.eqb c 69).
      + destruct s2 as [|g s2]; [discriminate|].
        destruct (N.eqb g 43 || N.eqb g 45); intros E.
        * apply cons_fst_some in E. destruct E as [l E].
          apply cons_fst_some in E. destruct E as [l' E].
          apply scan_digits1_length in E. cbn [List.length]. lia.
        * apply cons_fst_some in E. destruct E as [l E].
          apply scan_digits1_length in E. cbn [List.length] in *. lia.
      + intros E. inversion E; subst. lia. }
  intros E.
  destruct s as [|c s0]; [discriminate|].
  destruct (N.eqb c 45).
  - destruct (scan_int s0) as [[i s1]|] eqn:Ei; [|discriminate].
    destruct (scan_frac s1) as [[f s2]|] eqn:Ef; [|discriminate].
    destruct (scan_exp s2) as [[e s3]|] eqn:Ee; [|discriminate].
    inversion E; subst. apply I in Ei. apply F in Ef. apply X in Ee.
    cbn [List.length]. lia.
  - destruct (scan_int (c :: s0)) as [[i s1]|] eqn:Ei; [|discriminate].
    destruct (scan_frac s1) as [[f s2]|] eqn:Ef; [|discriminate].
    destruct (scan_exp s2) as [[e s3]|] eqn:Ee; [|discriminate].
    inversion E; subst. apply I in Ei. apply F in Ef. apply X in Ee. lia.
Qed.

Lemma strip_prefix_length (p s r : jsstring) :
  strip_prefix p s = Some r -> (List.length r + List.length p = List.length s)%nat.
Proof.
  revert s. induction p as [|a p IH]; intros s; cbn [strip_prefix].
  - intros E. inversion E; subst. cbn; lia.
  - destruct s as [|b s]; [discriminate|]. destruct (N.eqb a b); [|discriminate].
    intros E. apply IH in E. cbn [List.length]. lia.
Qed.

Lemma parse_value_step (fuel : nat) (s : jsstring) :
  parse_value (S fuel) s =
  match skip_ws s with
  | [] => None
  | c :: rest =>
      if N.eqb c 34 then
        match parse_chars rest with
        | Some (t, r) => Some (VString t, r)
        | None => None
        end
      else if N.eqb c 91 then
        match skip_ws rest with
        | d :: r =>
            if N.eqb d 93 then Some (VArray [], r)
            else parse_elements fuel rest []
        | [] => None
        end
      else if N.eqb c 123 then
        match skip_ws rest with
        | d :: r =>
            if N.eqb d 125 then Some (VObject [], r)
            else parse_members fuel rest []
        | [] => None
        end
      else if N.eqb c 116 then
        match strip_prefix (str "true") (c :: rest) with
        | Some r => Some (VBool true, r)
        | None => None
        end
      else if N.eqb c 102 then
        match strip_prefix (str "false") (c :: rest) with
        | Some r => Some (VBool false, r)
        | None => None
        end
      else if N.eqb c 110 then
        match strip_prefix (str "null") (c :: rest) with
        | Some r => Some (VNull, r)
        | None => None
        end
      else
        match scan_number (c :: rest) with
        | Some (tok, r) => Some (VNumber (number_of_literal tok), r)
        | None => None
        end
  end.
Proof. reflexivity. Qed.

Lemma parse_members_step (fuel : nat) (s : jsstring) (acc : list (jsstring * value)) :
  parse_members (S fuel) s acc =
  match skip_ws s with
  | q :: r0 =>
      if N.eqb q 34 then
        match parse_chars r0 with
        | Some (k, r1) =>
            match skip_ws r1 with
            | c :: r2 =>
                if N.eqb c 58 then
                  match parse_value fuel r2 with
                  | Some (v, r3) =>
                      match skip_ws r3 with
                      | d :: r4 =>
                          if N.eqb d 44
                          then parse_members fuel r4 (obj_set acc k v)
                          else if N.eqb d 125
                          then Some (VObject (obj_set acc k v), r4)
                          else None
                      | [] => None
                      end
                  | None => None
                  end
                else None
            | [] => None
            end
        | None => None
        end
      else None
  | [] => None
  end.
Proof. reflexivity. Qed.

Ltac shorter :=
  repeat match goal with
  | H : skip_ws ?s = _ |- _ =>
      pose proof (skip_ws_length s); rewrite H in *; clear H
  | H : parse_chars ?s = Some _ |- _ =>
      apply (parse_chars_length (n := List.length s)) in H; [|apply le_n]
  | H : strip_prefix _ _ = Some _ |- _ => apply strip_prefix_length in H
  | H : scan_number _ = Some _ |- _ => apply scan_number_length in H
  end;
  cbn [List.length str list_ascii_of_string map] in *.

(** What the parser leaves is shorter than what it was given. *)
Lemma parse_value_consumes (fuel : nat) :
  (forall s v r, parse_value fuel s = Some (v, r) ->
                 (List.length r < List.length s)%nat) /\
  (forall s acc v r, parse_elements fuel s acc = Some (v, r) ->
                     (List.length r < List.length s)%nat) /\
  (forall s acc v r, parse_members fuel s acc = Some (v, r) ->
                     (List.length r < List.length s)%nat).
Proof.
  induction fuel as [|fuel (IHv & IHe & IHm)]; [repeat split; discriminate|].
  split; [|split].
  - intros s v r E. rewrite parse_value_step in E. cases_in E;
      try (inversion E; subst; clear E; shorter; lia).
    + apply IHe in E. shorter. lia.
    + apply IHm in E. shorter. lia.
  - intros s acc v r E. rewrite parse_elements_step in E.
    destruct (parse_value fuel s) as [[v1 r1]|] eqn:E1; [|discriminate].
    apply IHv in E1. cases_in E.
    + apply IHe in E. shorter. lia.
    + inversion E; subst; clear E. shorter. lia.
  - intros s acc v r E. rewrite parse_members_step in E.
    destruct (skip_ws s) as [|q r0] eqn:S0; [discriminate|].
    destruct (N.eqb q 34); [|discriminate].
    destruct (parse_chars r0) as [[k r1]|] eqn:E0; [|discriminate].
    destruct (skip_ws r1) as [|c r2] eqn:S1; [discriminate|].
    destruct (N.eqb c 58); [|discriminate].
    destruct (parse_value fuel r2) as [[v3 r3]|] eqn:E3; [|discriminate].
    apply IHv in E3. cases_in E.
    + apply IHm in E. shorter. lia.
    + inversion E; subst; clear E. shorter. lia.
Qed.

(** With the fuel [JSON_parse] gives, one more unit changes nothing. *)
Lemma parse_fuel_step (fuel : nat) :
  (forall s, (2 * List.length s + 1 <= fuel)%nat ->
             parse_value (S fuel) s = parse_value fuel s) /\
  (forall s acc, (2 * List.length s + 2 <= fuel)%nat ->
                 parse_elements (S fuel) s acc = parse_elements fuel s acc) /\
  (forall s acc, (2 * List.length s + 2 <= fuel)%nat ->
                 parse_members (S fuel) s acc = parse_members fuel s acc).
Proof.
  induction fuel as [|fuel (IHv & IHe & IHm)]; [repeat split; intros; lia|].
  split; [|split].
  - intros s Hs. rewrite (parse_value_step (S fuel)), (parse_value_step fuel).
    destruct (skip_ws s) as [|c rest] eqn:S0; [reflexivity|].
    destruct (N.eqb c 34); [reflexivity|].
    destruct (N.eqb c 91).
    { destruct (skip_ws rest) as [|d r]; [reflexivity|].
      destruct (N.eqb d 93); [reflexivity|].
      apply IHe. shorter. lia. }
    destruct (N.eqb c 123); [|reflexivity].
    destruct (skip_ws rest) as [|d r]; [reflexivity|].
    destruct (N.eqb d 125); [reflexivity|].
    apply IHm. shorter. lia.
  - intros s acc Hs.
    rewrite (parse_elements_step (S fuel)), (parse_elements_step fuel).
    rewrite IHv by lia.
    destruct (parse_value fuel s) as [[v r1]|] eqn:E1; [|reflexivity].
    apply (proj1 (parse_value_consumes fuel)) in E1.
    destruct (skip_ws r1) as [|c r'] eqn:S1; [reflexivity|].
    destruct (N.eqb c 44); [|reflexivity].
    apply IHe. shorter. lia.
  - intros s acc Hs.
    rewrite (parse_members_step (S fuel)), (parse_members_step fuel).
    destruct (skip_ws s) as [|q r0] eqn:S0; [reflexivity|].
    destruct (N.eqb q 34); [|reflexivity].
    destruct (parse_chars r0) as [[k r1]|] eqn:E0; [|reflexivity].
    destruct (skip_ws r1) as [|c r2] eqn:S1; [reflexivity|].
    destruct (N.eqb c 58); [|reflexivity].
    shorter.
    rewrite IHv by lia.
    destruct (parse_value fuel r2) as [[v r3]|] eqn:E3; [|reflexivity].
    apply (proj1 (parse_value_consumes fuel)) in E3.
    destruct (skip_ws r3) as [|d r4] eqn:S3; [reflexivity|].
    destruct (N.eqb d 44); [|reflexivity].
    apply IHm. shorter. lia.
Qed.

(** [JSON_parse] gives the parser all the fuel a text can use: with
    more, the result is the same. *)
Theorem JSON_parse_fuel (text : jsstring) (more : nat) :
  parse_value (2 * List.length text + 1 + more) text =
  parse_value (2 * List.length text + 1) text.
Proof.
  induction more as [|more IH]; [f_equal; lia|].
  replace (2 * List.length text + 1 + S more)%nat
    with (S (2 * List.length text + 1 + more)) by lia.
  rewrite (proj1 (parse_fuel_step _)) by lia. exact IH.
Qed.

(** ** The decoder: when it throws *)

(** Induction on a value, with the elements of an array and the
    properties of an object. *)
Lemma value_induction (Q : value -> Prop) :
  Q VUndefined -> Q VNull -> (forall b, Q (VBool b)) ->
  (forall n, Q (VNumber n)) -> (forall s, Q (VString s)) ->
  (forall elems, Forall Q elems -> Q (VArray elems)) ->
  (forall props, Forall (fun kv => Q (snd kv)) props -> Q (VObject props)) ->
  forall v, Q v.
Proof.
  intros H1 H2 H3 H4 H5 H6 H7. fix IH 1.
  intros [| |b|n|s|elems|props];
    [exact H1 | exact H2 | apply H3 | apply H4 | apply H5 | | ].
  - apply H6. induction elems as [|e l IHl]; constructor; [apply IH | exact IHl].
  - apply H7. induction props as [|[k x] l IHl]; constructor; [apply IH | exact IHl].
Qed.

Lemma ToString_array (elems : list value) :
  ToString (VArray elems) =
  rbind (each_ToString elems) (fun parts => Ok (join (str ",") parts)).
Proof. reflexivity. Qed.

Lemma each_ToString_cons (e : value) (rest : list value) :
  each_ToString (e :: rest) =
  rbind (match e with
         | VUndefined | VNull => Ok []
         | _ => ToString e
         end) (fun s =>
  rbind (each_ToString rest) (fun ss => Ok (s :: ss))).
Proof. reflexivity. Qed.

(** [String(v)] returns when [v] converts and throws a TypeError when
    it does not. *)
Lemma converts_spec (v : value) :
  if converts v then exists s, ToString v = Ok s else ToString v = Error TypeError.
Proof.
  induction v as [| |b|n|s|elems IH|props IH] using value_induction;
    try (eexists; reflexivity).
  - destruct b; eexists; reflexivity.
  - rewrite ToString_array. cbn [converts].
    assert (A : if forallb converts elems
                then exists parts, each_ToString elems = Ok parts
                else each_ToString elems = Error TypeError).
    { induction IH as [|x l Hx _ IHl]; [exists []; reflexivity|].
      cbn [forallb]. rewrite each_ToString_cons.
      destruct (converts x) eqn:Cx; cbn [andb].
      - destruct Hx as [s Ex].
        assert (E : exists s', match x with
                               | VUndefined | VNull => Ok []
                               | _ => ToString x
                               end = Ok s') by (destruct x; eauto).
        destruct E as [s' ->]. cbn [rbind].
        destruct (forallb converts l).
        + destruct IHl as [ss ->]. eexists. reflexivity.
        + rewrite IHl. reflexivity.
      - destruct x; try discriminate; rewrite Hx; reflexivity. }
    destruct (forallb converts elems).
    + destruct A as [parts ->]. eexists. reflexivity.
    + rewrite A. reflexivity.
  - cbn [ToString converts]. destruct (has_key (str "toString") props); cbn [negb]; eauto.
Qed.

Lemma has_name_total (t : value) : exists b, has_name t = Ok b.
Proof.
  unfold has_name. destruct t; cbn; eauto;
    match goal with |- context [if ?b then _ else _] => destruct b; eauto end.
Qed.

(** An entry that passes the filter is an object; [to_tag] converts its
    name. *)
Lemma has_name_to_tag (t : value) :
  has_name t = Ok true ->
  exists props,
    t = VObject props /\
    to_tag t =
      rbind (ToString (lookup (str "name") props)) (fun s =>
      Ok {| documentId := or_else (lookup (str "documentId") props) (VString []);
            name := VString s |}).
Proof.
  unfold has_name, to_tag.
  destruct t as [| |b|n|s|elems|props]; cbn; try discriminate.
  - destruct b; discriminate.
  - destruct (number_truthy n); discriminate.
  - destruct s; discriminate.
  - intros _. exists props. split; reflexivity.
Qed.

(** The name of an entry that the filter drops is falsy, and
    converts. *)
Lemma has_name_dropped (t : value) : has_name t = Ok false -> name_converts t = true.
Proof.
  unfold has_name, name_converts. destruct t as [| |b|n|s|elems|props]; try reflexivity.
  cbn [truthy typeof_object prop field_name rbind].
  destruct (lookup (str "name") props); cbn; intros H; try reflexivity;
    discriminate H.
Qed.

Lemma filterM_has_name_kept (elems : list value) :
  exists l', filterM has_name elems = Ok l' /\
             Forall (fun t => has_name t = Ok true) l' /\
             forallb name_converts l' = forallb name_converts elems.
Proof.
  induction elems as [|t elems (l' & E & K & F)].
  - exists []. repeat split; auto.
  - destruct (has_name_total t) as [b Eb].
    cbn [filterM]. rewrite Eb, E. cbn [rbind forallb].
    destruct b; eexists; (split; [reflexivity|]); split; auto.
    + cbn [forallb]. rewrite F. reflexivity.
    + rewrite (has_name_dropped t Eb). exact F.
Qed.

Lemma mapM_to_tag_kept (l : list value) :
  Forall (fun t => has_name t = Ok true) l ->
  if forallb name_converts l
  then exists tags, mapM to_tag l = Ok tags
  else mapM to_tag l = Error TypeError.
Proof.
  induction 1 as [|t l Ht _ IH]; [exists []; reflexivity|].
  destruct (has_name_to_tag t Ht) as (props & -> & E).
  cbn [forallb mapM name_converts]. rewrite E.
  pose proof (converts_spec (lookup (str "name") props)) as C.
  destruct (converts (lookup (str "name") props)); cbn [andb].
  - destruct C as [s ->]. cbn [rbind].
    destruct (forallb name_converts l).
    + destruct IH as [tags ->]. eexists. reflexivity.
    + rewrite IH. reflexivity.
  - rewrite C. reflexivity.
Qed.

Lemma parseTagValue_decoded (v : value) :
  parseTagValue v =
  if negb (truthy v) then Ok []
  else match v with
       | VString text =>
           match JSON_parse text with
           | Ok data => decoded data
           | Error _ => Ok []
           end
       | _ => decoded v
       end.
Proof.
  unfold parseTagValue, decoded. destruct (negb (truthy v)); [reflexivity|].
  destruct v; try reflexivity. destruct (JSON_parse s) as [data|]; reflexivity.
Qed.

Lemma decoded_spec (elems : list value) :
  if forallb name_converts elems
  then exists l, decoded (VArray elems) = Ok l
  else decoded (VArray elems) = Error TypeError.
Proof.
  cbn [decoded]. destruct (filterM_has_name_kept elems) as (l' & E & K & F).
  rewrite E, <- F. cbn [rbind]. apply mapM_to_tag_kept, K.
Qed.

(** [parseTagValue] returns on a value whose names convert, and throws
    a TypeError on the others. *)
Lemma parseTagValue_spec (v : value) :
  if decodable v
  then exists l, parseTagValue v = Ok l
  else parseTagValue v = Error TypeError.
Proof.
  rewrite parseTagValue_decoded.
  destruct v as [| |b|n|text|elems|props]; try (cbn; eauto; fail).
  - cbn. destruct b; cbn; eauto.
  - cbn. destruct (number_truthy n); cbn; eauto.
  - destruct text as [|c text]; [cbn; eauto|].
    cbn [truthy nonempty negb decodable].
    destruct (JSON_parse (c :: text)) as [data|]; [|eauto].
    destruct data; try (cbn; eauto; fail). apply decoded_spec.
  - cbn [truthy negb decodable]. apply decoded_spec.
Qed.

Lemma parseTagValue_returns (v : value) :
  decodable v = true -> exists l, parseTagValue v = Ok l.
Proof. intros D. pose proof (parseTagValue_spec v) as S. rewrite D in S. exact S. Qed.

Lemma parseTagValue_throws (v : value) :
  decodable v = false -> parseTagValue v = Error TypeError.
Proof. intros D. pose proof (parseTagValue_spec v) as S. rewrite D in S. exact S. Qed.

(** C3, as amended.  When the user has edited, [initialize] changes
    nothing, whatever the value of the [value] prop.  For every value in
    which [String] converts the name of every entry (no name is an
    object with an own property [toString], or an array that holds
    one), [initialize] decodes it without throwing; the decoded set is
    empty when the value is empty (falsy) or is a string that
    [JSON.parse] rejects; a decoded set that is not empty becomes the
    committed set, and an empty one leaves the committed set as it was
    (so it is empty after the first run, at mount). *)
Theorem C3_initialize (answer : request -> option outcome) (v : value) (w : world) :
  (hasUserEdited (ui w) = true -> run answer (initialize v) w = (Finished tt, w)) /\
  (decodable v = true ->
   exists l,
     parseTagValue v = Ok l /\
     (truthy v = false -> l = []) /\
     (forall text e, v = VString text -> JSON_parse text = Error e -> l = []) /\
     run answer (initialize v) w =
       (Finished tt,
        if hasUserEdited (ui w) then w
        else match l with
             | [] => w
             | _ :: _ => with_ui (setTags l) w
             end)).
Proof.
  split.
  { intros H. unfold initialize. cbn [run]. rewrite H. reflexivity. }
  intros D. destruct (parseTagValue_returns v D) as [l E]. exists l.
  split; [exact E|]. split; [|split].
  - intros Hv. unfold parseTagValue in E. rewrite Hv in E. cbn in E. congruence.
  - intros text e -> He. unfold parseTagValue in E. rewrite He in E.
    destruct (negb (truthy (VString text))); congruence.
  - unfold initialize. cbn [run]. destruct (hasUserEdited (ui w)); [reflexivity|].
    rewrite E. destruct l; reflexivity.
Qed.

(** C10.  On an array whose first entry has the [documentId] [true] and
    whose second has the name [[]], the decoder returns a first tag
    whose [documentId] is the Boolean, not a string, and a second tag
    whose name is the empty string. *)
Theorem C10_decoded_shape_violated :
  parseTagValue (VString (json "[{'documentId':true,'name':'a'},{'name':[]}]")) =
  Ok [{| documentId := VBool true; name := VString (str "a") |};
      {| documentId := VString []; name := VString [] |}].
Proof. reflexivity. Qed.

(** What the decoder does guarantee: the name of every tag it returns
    is a string, and the [documentId] is the entry's own when that is
    truthy and the empty string otherwise. *)
Lemma parseTagValue_shape (v : value) (l : list TagData) :
  parseTagValue v = Ok l ->
  Forall (fun t => typeof_string (name t) = true /\
                   (truthy (documentId t) = true \/ documentId t = VString [])) l.
Proof.
  assert (A : forall elems l0, mapM to_tag elems = Ok l0 ->
            Forall (fun t => typeof_string (name t) = true /\
                     (truthy (documentId t) = true \/ documentId t = VString [])) l0).
  { induction elems as [|x elems IH]; intros l0 E; cbn [mapM] in E.
    - inversion E. constructor.
    - destruct (to_tag x) as [t|] eqn:Et; [|discriminate]. cbn [rbind] in E.
      destruct (mapM to_tag elems) as [l1|]; [|discriminate]. cbn [rbind] in E.
      inversion E; subst. constructor; [|auto].
      unfold to_tag in Et.
      destruct (prop x f_documentId) as [d|]; [|discriminate]. cbn [rbind] in Et.
      destruct (prop x f_name) as [n|]; [|discriminate]. cbn [rbind] in Et.
      destruct (ToString n) as [s|]; [|discriminate]. cbn [rbind] in Et.
      inversion Et; subst. cbn [name documentId typeof_string]. split; [reflexivity|].
      unfold or_else. destruct (truthy d) eqn:Td; auto. }
  unfold parseTagValue. intros E.
  destruct (negb (truthy v)); [inversion E; constructor|].
  assert (B : forall data, match data with
                           | VArray elems => rbind (filterM has_name elems) (mapM to_tag)
                           | _ => Ok []
                           end = Ok l -> 
              Forall (fun t => typeof_string (name t) = true /\
                     (truthy (documentId t) = true \/ documentId t = VString [])) l).
  { intros data Hd. destruct data; try (inversion Hd; constructor).
    destruct (filterM has_name elems) as [l'|]; [|discriminate].
    cbn [rbind] in Hd. eapply A; eauto. }
  destruct v as [| | | |text|elems|props];
    try (inversion E; constructor; fail).
  - cbv zeta in E. destruct (JSON_parse text) as [data|]; [|inversion E; constructor].
    apply (B data). destruct data; exact E.
  - apply (B (VArray elems)). exact E.
Qed.

(** ** Running handlers: sequencing, [try], [finally] *)

Lemma run_bind {A B} (answer : request -> option outcome) (t : task A) (f : A -> task B) :
  forall w,
  run answer (bind t f) w =
  match run answer t w with
  | (Finished a, w1) => run answer (f a) w1
  | (Failed e, w1) => (Failed e, w1)
  | (Waiting r k, w1) => (Waiting r (fun o => bind (k o) f), w1)
  end.
Proof.
  induction t as [a|e|g k IH|k IH|c k IH|r k IH|cb d k IH|id k IH|k IH];
    intros w; cbn [bind run]; auto.
  - destruct (answer r); auto.
  - destruct (add_timer cb d w). auto.
Qed.

Lemma run_try_catch {A} (answer : request -> option outcome) (t : task A)
    (h : exn -> task A) :
  forall w,
  run answer (try_catch t h) w =
  match run answer t w with
  | (Finished a, w1) => (Finished a, w1)
  | (Failed e, w1) => run answer (h e) w1
  | (Waiting r k, w1) => (Waiting r (fun o => try_catch (k o) h), w1)
  end.
Proof.
  induction t as [a|e|g k IH|k IH|c k IH|r k IH|cb d k IH|id k IH|k IH];
    intros w; cbn [try_catch run]; auto.
  - destruct (answer r); auto.
  - destruct (add_timer cb d w). auto.
Qed.

Lemma run_try_finally {A} (answer : request -> option outcome) (t : task A)
    (f : task unit) :
  forall w,
  run answer (try_finally t f) w =
  match run answer t w with
  | (Finished a, w1) => run answer (bind f (fun _ => Return a)) w1
  | (Failed e, w1) => run answer (bind f (fun _ => Throw e)) w1
  | (Waiting r k, w1) => (Waiting r (fun o => try_finally (k o) f), w1)
  end.
Proof.
  induction t as [a|e|g k IH|k IH|c k IH|r k IH|cb d k IH|id k IH|k IH];
    intros w; cbn [try_finally run]; auto.
  - destruct (answer r); auto.
  - destruct (add_timer cb d w). auto.
Qed.

(** With an answer to every request, no handler is left suspended. *)
Lemma run_answered {A} (dir : request -> outcome) (t : task A) :
  forall w, exists w', (exists a, run (fun q => Some (dir q)) t w = (Finished a, w')) \/
                       (exists e, run (fun q => Some (dir q)) t w = (Failed e, w')).
Proof.
  induction t as [a|e|g k IH|k IH|c k IH|r k IH|cb d k IH|id k IH|k IH];
    intros w; cbn [run]; eauto.
  destruct (add_timer cb d w). auto.
Qed.

(** ** Resolving a name *)

Lemma run_lift {A} (answer : request -> option outcome) (r : result A) (w : world) :
  run answer (lift r) w =
  match r with Ok a => (Finished a, w) | Error e => (Failed e, w) end.
Proof. destruct r; reflexivity. Qed.

Lemma run_await (dir : request -> outcome) (r : request) (w : world) :
  run (fun q => Some (dir q)) (await r) w =
  match dir r with
  | Fulfilled v => (Finished v, with_log (Http r) w)
  | Rejected x => (Failed (Rejection x), with_log (Http r) w)
  end.
Proof. unfold await. cbn [run]. destruct (dir r); reflexivity. Qed.

Ltac innermost x :=
  lazymatch x with
  | context [match ?y with _ => _ end] => innermost y
  | _ => destruct x eqn:?
  end.

Ltac step_run :=
  first
  [ rewrite run_bind
  | rewrite run_lift
  | rewrite run_await
  | progress cbn [run set do_call with_log with_ui log ui fst snd]
  | match goal with
    | |- context [match ?x with _ => _ end] => innermost x
    end ].

Lemma findM_same_name (trimmed : jsstring) (tags : list TagData) :
  Forall (fun t => typeof_string (name t) = true) tags ->
  exists b, findM (same_name trimmed) tags = Ok b.
Proof.
  induction 1 as [|t tags Ht _ [b IH]]; [exists false; reflexivity|].
  cbn [findM]. unfold same_name at 1. destruct (name t); try discriminate.
  cbn [call_toLowerCase rbind].
  destruct (jsstring_eqb _ _); eauto.
Qed.

(** C6, as amended.  Whatever name is given and however the Tag
    Directory answers each request (with any response or with a
    rejection), while the names of the committed tags are strings, as
    [TagData] declares them:
    [findOrCreateTag] returns and does not throw; [isCreating], false
    before, is false after; and the result is null when a request it
    made was rejected, when an exception was caught and logged, and when
    the response to the create request carries no identifier. *)
Theorem C6_findOrCreateTag_never_throws (dir : request -> outcome) (tags : list TagData)
    (path tagName : jsstring) (w : world) :
  string_names tags = true ->
  isCreating (ui w) = false ->
  exists r w' new,
    run (fun q => Some (dir q)) (findOrCreateTag tags path tagName) w = (Finished r, w') /\
    isCreating (ui w') = false /\
    log w' = log w ++ new /\
    (forall q x, In (Http q) new -> dir q = Rejected x -> r = None) /\
    (forall msg e, In (ConsoleError msg e) new -> r = None) /\
    (forall u b resp, In (Http (Post u b)) new -> dir (Post u b) = Fulfilled resp ->
                      has_identifier resp = false -> r = None).
Proof.
  intros Hnames Hflag. unfold findOrCreateTag.
  assert (Hnames' : Forall (fun t => typeof_string (name t) = true) tags).
  { apply Forall_forall. intros t Hin. unfold string_names in Hnames.
    rewrite forallb_forall in Hnames. auto. }
  destruct (negb (nonempty (trim tagName)) || negb (nonempty path)).
  { exists None, w, []. cbn [run]. rewrite app_nil_r. repeat split; auto. }
  rewrite run_bind. destruct (findM_same_name (trim tagName) Hnames') as [dup ->].
  cbn [lift run]. destruct dup.
  { exists None, w, []. cbn [run]. rewrite app_nil_r. repeat split; auto. }
  cbn [bind set run]. rewrite run_try_finally, run_try_catch.
  match goal with |- context [run ?a ?body ?w1] =>
    assert (B : exists new,
              ui (snd (run a body w1)) = ui w1 /\
              log (snd (run a body w1)) = log w1 ++ new /\
              (forall msg e, ~ In (ConsoleError msg e) new) /\
              (forall k, fst (run a body w1) <> Waiting (fst k) (snd k)) /\
              (forall t, fst (run a body w1) = Finished (Some t) ->
                 (forall q x, In (Http q) new -> dir q <> Rejected x) /\
                 (forall u b resp, In (Http (Post u b)) new ->
                    dir (Post u b) = Fulfilled resp -> has_identifier resp = true)));
    [|destruct (run a body w1) as [s wb]]
  end.
  { repeat step_run.
    all: rewrite <- ?app_assoc; cbn [app].
    all: eexists; split; [reflexivity|];
         split; [first [reflexivity | symmetry; apply app_nil_r]|];
         split; [intros msg0 e0; cbn [In]; intuition discriminate|];
         split; [intros; discriminate|].
    all: intros t Ht; try discriminate; split.
    all: try (intros q x Hin; cbn [In] in Hin;
              repeat (destruct Hin as [Hin|Hin];
                      [inversion Hin; subst; clear Hin; congruence|]);
              contradiction).
    all: intros u b resp Hin Hd; cbn [In] in Hin;
         repeat (destruct Hin as [Hin|Hin];
                 [try discriminate; inversion Hin; subst; clear Hin|]);
         try contradiction.
    all: match goal with
         | H1 : ?d ?q = Fulfilled _, H2 : ?d ?q = Fulfilled _ |- _ =>
             rewrite H1 in H2; inversion H2; subst; clear H2
         end.
    all: unfold has_identifier;
         repeat (match goal with H : _ = Ok _ |- _ => rewrite H end; cbn [rbind]);
         assumption. }
  destruct B as (new & Hui & Hlog & Hnoerr & Hnowait & Hsome).
  cbn [fst snd] in *.
  destruct s as [a|e|r k].
  - (* the [try] block returned *)
    cbn [bind set run]. exists a, (with_ui (setIsCreating false) wb), new.
    cbn [run with_ui ui log setIsCreating isCreating].
    repeat split; auto.
    + intros q x Hin Hd. destruct a as [t|]; [|reflexivity].
      destruct (Hsome t eq_refl) as [H1 _]. exfalso. exact (H1 q x Hin Hd).
    + intros msg e Hin. exfalso. exact (Hnoerr msg e Hin).
    + intros u b resp Hin Hd Hid. destruct a as [t|]; [|reflexivity].
      destruct (Hsome t eq_refl) as [_ H2]. rewrite (H2 u b resp Hin Hd) in Hid.
      discriminate.
  - (* the [try] block threw: the [catch] clause returns null *)
    cbn [bind set do_call run].
    eexists None, _, (new ++ [_]).
    split; [reflexivity|].
    cbn [with_ui with_log ui log setIsCreating isCreating].
    rewrite Hlog, <- app_assoc. repeat split; auto.
  - exfalso. exact (Hnowait (r, k) eq_refl).
Qed.

(** ** Adding and removing: what the field host is told *)

Lemma notifications_app (l1 l2 : list call) :
  notifications (l1 ++ l2) = notifications l1 ++ notifications l2.
Proof. apply flat_map_app. Qed.

Lemma requests_app (l1 l2 : list call) :
  requests (l1 ++ l2) = requests l1 ++ requests l2.
Proof. apply flat_map_app. Qed.

Lemma searches_app (l1 l2 : list call) :
  searches (l1 ++ l2) = searches l1 ++ searches l2.
Proof. apply flat_map_app. Qed.


Lemma quiet_bind {A B} (t : task A) (f : A -> task B) :
  quiet t -> (forall a, quiet (f a)) -> quiet (bind t f).
Proof.
  intros Ht Hf. induction Ht; cbn [bind]; try (constructor; auto); auto.
Qed.

Lemma quiet_try_catch {A} (t : task A) (h : exn -> task A) :
  quiet t -> (forall e, quiet (h e)) -> quiet (try_catch t h).
Proof.
  intros Ht Hh. induction Ht; cbn [try_catch]; try (constructor; auto); auto.
Qed.

Lemma quiet_try_finally {A} (t : task A) (f : task unit) :
  quiet t -> quiet f -> quiet (try_finally t f).
Proof.
  intros Ht Hf. induction Ht; cbn [try_finally]; try (constructor; auto).
  - apply quiet_bind; [exact Hf | intros; constructor].
  - apply quiet_bind; [exact Hf | intros; constructor].
Qed.

Lemma quiet_lift {A} (r : result A) : quiet (lift r).
Proof. destruct r; constructor. Qed.

Lemma quiet_await (r : request) : quiet (await r).
Proof. constructor. intros []; constructor. Qed.

Ltac quiet_set := unfold set; constructor; [reflexivity | reflexivity | constructor].

Ltac be_quiet :=
  repeat first
  [ progress intros
  | apply quiet_bind; [| intros ]
  | apply quiet_try_catch; [| intros ]
  | apply quiet_try_finally
  | apply quiet_lift
  | apply quiet_await
  | quiet_set
  | (unfold do_call; constructor; [reflexivity | constructor])
  | match goal with
    | |- quiet (if ?b then _ else _) => destruct b
    | |- quiet (match ?x with _ => _ end) => destruct x
    end
  | constructor ].

Lemma quiet_searchTags (tags : list TagData) (path query : jsstring) :
  quiet (searchTags tags path query).
Proof. unfold searchTags, checkDropdownPosition. be_quiet. Qed.

Lemma quiet_run_callback (cb : callback) : quiet (run_callback cb).
Proof. apply quiet_searchTags. Qed.

Lemma quiet_handleInputChange (tags : list TagData) (path val : jsstring) :
  quiet (handleInputChange tags path val).
Proof. unfold handleInputChange. be_quiet. Qed.

Lemma quiet_findOrCreateTag (tags : list TagData) (path tagName : jsstring) :
  quiet (findOrCreateTag tags path tagName).
Proof. unfold findOrCreateTag. be_quiet. Qed.

Lemma jsstring_eqb_eq (a b : jsstring) : jsstring_eqb a b = true <-> a = b.
Proof.
  revert b. induction a as [|x a IH]; intros [|y b]; cbn [jsstring_eqb];
    try (split; [discriminate | discriminate]); [tauto|].
  rewrite andb_true_iff, N.eqb_eq, IH. split.
  - intros [-> ->]. reflexivity.
  - intros E. inversion E. auto.
Qed.

Lemma findM_present (trimmed : jsstring) (tags : list TagData) (t : TagData) (n : jsstring) :
  In t tags -> name t = VString n -> toLowerCase n = toLowerCase trimmed ->
  findM (same_name trimmed) tags = Ok true \/
  findM (same_name trimmed) tags = Error TypeError.
Proof.
  intros Hin Hn Hl. induction tags as [|t0 tags IH]; [contradiction|].
  cbn [findM]. unfold same_name at 1 3.
  destruct (name t0) eqn:E0; cbn [call_toLowerCase rbind]; auto.
  destruct (jsstring_eqb (toLowerCase s) (toLowerCase trimmed)) eqn:Eb; auto.
  destruct Hin as [-> | Hin]; [|auto].
  rewrite Hn in E0. inversion E0; subst s.
  rewrite Hl in Eb. 
  assert (jsstring_eqb (toLowerCase trimmed) (toLowerCase trimmed) = true)
    by (apply jsstring_eqb_eq; reflexivity).
  congruence.
Qed.

Lemma run_addTag_commit (answer : request -> option outcome) (f : jsstring)
    (ts : list TagData) (r : option TagData) (w : world) :
  exists w',
    run answer (addTag_commit f ts r) w = (Finished tt, w') /\
    tags (ui w') = match r with Some t => ts ++ [t] | None => tags (ui w) end /\
    notifications (log w') =
      notifications (log w) ++
      match r with
      | Some t => [JSON_stringify (tags_value (ts ++ [t]))]
      | None => []
      end /\
    requests (log w') = requests (log w).
Proof.
  unfold addTag_commit, updateValue.
  destruct r as [t|]; cbn [bind set do_call run]; eexists; (split; [reflexivity|]);
    cbn [with_log with_ui ui log tags setTags setInputValue setSuggestions
         setShowSuggestions setHasUserEdited];
    rewrite ?notifications_app, ?requests_app; cbn [notifications requests flat_map app];
    rewrite ?app_nil_r; auto.
Qed.

(** C4, as amended.  When the trimmed name is, ignoring case, the name
    of a committed tag, committing it leaves the committed set as it is,
    makes no request to the Tag Directory and does not notify the field
    host.  (The commit ends normally, or with the TypeError of a
    committed name that is not a string and is met before the match.) *)
Theorem C4_duplicate_name_is_not_resolved (answer : request -> option outcome) (f : jsstring)
    (ts : list TagData) (path tagName : jsstring) (w : world) :
  present ts (trim tagName) = true ->
  exists s w',
    run answer (addTag f ts path (inr tagName)) w = (s, w') /\
    (s = Finished tt \/ s = Failed TypeError) /\
    tags (ui w') = tags (ui w) /\
    requests (log w') = requests (log w) /\
    notifications (log w') = notifications (log w).
Proof.
  intros Hp. unfold present in Hp. apply existsb_exists in Hp.
  destruct Hp as (t & Hin & Hm).
  destruct (name t) as [| | | |n| |] eqn:Hn; try discriminate.
  apply jsstring_eqb_eq in Hm. rename Hm into Hl.
  unfold addTag, findOrCreateTag.
  destruct (run_addTag_commit answer f ts None w) as (w' & E & Ht & Hnot & Hreq).
  rewrite app_nil_r in Hnot.
  rewrite run_bind.
  destruct (negb (nonempty (trim tagName)) || negb (nonempty path)).
  { cbn [run]. exists (Finished tt), w'. auto. }
  rewrite run_bind.
  destruct (findM_present (trim tagName) ts t Hin Hn Hl) as [-> | ->]; cbn [lift run].
  - exists (Finished tt), w'. auto.
  - exists (Failed TypeError), w. auto.
Qed.

Lemma filter_absent (id : value) (ts : list TagData) :
  existsb (fun t => strict_equals (documentId t) id) ts = false ->
  filter (fun t => negb (strict_equals (documentId t) id)) ts = ts.
Proof.
  induction ts as [|t ts IH]; [reflexivity|].
  cbn [existsb filter]. intros H. apply orb_false_iff in H. destruct H as [H1 H2].
  rewrite H1. cbn [negb]. f_equal. auto.
Qed.

Lemma run_removeTag (answer : request -> option outcome) (f : jsstring)
    (ts : list TagData) (id : value) (w : world) :
  exists w',
    run answer (removeTag f ts id) w = (Finished tt, w') /\
    tags (ui w') = filter (fun t => negb (strict_equals (documentId t) id)) ts /\
    hasUserEdited (ui w') = true /\
    notifications (log w') =
      notifications (log w) ++ [JSON_stringify (tags_value (tags (ui w')))].
Proof.
  unfold removeTag, updateValue. cbn [bind set do_call run].
  eexists. split; [reflexivity|].
  cbn [with_log with_ui ui log tags hasUserEdited setTags setHasUserEdited].
  rewrite notifications_app. auto.
Qed.



(** Backspace does remove the last tag alone when no other committed
    tag has its identifier (and the identifier equals itself, as every
    value but NaN does). *)
Lemma backspace_removes_last (answer : request -> option outcome) (f : jsstring)
    (i : Z) (sugg ts : list TagData) (last : TagData) (path : jsstring) (w : world) :
  strict_equals (documentId last) (documentId last) = true ->
  existsb (fun t => strict_equals (documentId t) (documentId last)) ts = false ->
  exists w',
    run answer (handleKeyDown f [] i sugg (ts ++ [last]) path (str "Backspace")) w =
      (Finished tt, w') /\
    tags (ui w') = ts /\
    notifications (log w') = notifications (log w) ++ [JSON_stringify (tags_value ts)].
Proof.
  intros Hself Hothers. unfold handleKeyDown.
  change (key_is (str "Backspace") "Enter") with false.
  change (key_is (str "Backspace") ",") with false.
  change (key_is (str "Backspace") "Backspace") with true.
  cbn [orb andb nonempty negb].
  rewrite length_app. cbn [List.length].
  replace (Nat.ltb 0 (List.length ts + 1)) with true
    by (symmetry; apply Nat.ltb_lt; lia).
  replace (List.length ts + 1 - 1)%nat with (List.length ts) by lia.
  rewrite nth_error_app2, Nat.sub_diag by apply le_n. cbn [nth_error].
  destruct (run_removeTag answer f (ts ++ [last]) (documentId last) w)
    as (w' & E & Ht & _ & Hn).
  exists w'. split; [exact E|].
  assert (F : filter (fun t => negb (strict_equals (documentId t) (documentId last)))
                (ts ++ [last]) = ts).
  { rewrite filter_app, (filter_absent _ _ Hothers). cbn [filter].
    rewrite Hself. cbn [negb]. apply app_nil_r. }
  rewrite Hn, Ht, F. auto.
Qed.

(** C9.  After the host supplied two tags without [documentId], so that
    both have the identifier [''], and with an empty draft, Backspace
    removes both committed tags, not the last one alone, and the host is
    notified with the empty array. *)
Theorem C9_backspace_removes_all_with_same_id (f path : jsstring) :
  let m := steps f (mounted path)
             [ValueChanged (VString (json "[{'name':'a'},{'name':'b'}]"))] in
  let m' := step f m (KeyPressed (str "Backspace")) in
  tags (ui (world_of m)) = [tag "" "a"; tag "" "b"] /\
  inputValue (ui (world_of m)) = [] /\
  tags (ui (world_of m')) = [] /\
  notifications (log (world_of m')) = [VString (str "[]")].
Proof. repeat split. Qed.

(** ** Searching: responses and the debounce timer *)

(** C2, as amended.  When the response to a search arrives, the
    suggestions become what that response publishes for the committed
    tags of the render that issued the search, whatever other searches
    were issued or answered in between: the response that arrives last
    is the one shown, be it the response to an earlier search.  (Stated
    for committed tags whose identifiers are primitives, for which
    [selectedIds.has] compares by value.) *)
Theorem C2_last_response_wins (f : jsstring) (ts : list TagData) (path query : jsstring)
    (w0 w1 : world) (r : request) (k : outcome -> task unit)
    (m : machine) (i : nat) (o : outcome) :
  primitive_ids ts = true ->
  run no_answer (searchTags ts path query) w0 = (Waiting r k, w1) ->
  nth_error (in_flight m) i = Some (r, k) ->
  suggestions (ui (world_of (step f m (Settled i o)))) = published ts o /\
  in_flight (step f m (Settled i o)) = remove_nth i (in_flight m).
Proof.
  intros _ Hk Hi. unfold searchTags in Hk.
  destruct (negb (nonempty query) || Nat.ltb (List.length query) 1
            || negb (nonempty path)); [discriminate|].
  rewrite run_try_catch, run_bind, run_lift in Hk.
  destruct (encodeURIComponent query) as [q|e]; [|discriminate].
  rewrite run_bind in Hk. cbn [await run no_answer] in Hk.
  inversion Hk; subst r k w1; clear Hk.
  cbn [step]. rewrite Hi. unfold resume, published, checkDropdownPosition.
  cbv beta.
  assert (Fin : forall w' : world,
            suggestions (ui (world_of (settle_status (Finished tt, w')
                                         (remove_nth i (in_flight m))))) =
            suggestions (ui w') /\
            in_flight (settle_status (Finished tt, w') (remove_nth i (in_flight m))) =
            remove_nth i (in_flight m)) by (intros; split; reflexivity).
  destruct o as [response|reason]; [|apply Fin].
  cbn [bind try_catch].
  destruct (prop response f_data) as [data|e1]; cbn [rbind]; [|apply Fin].
  cbn [lift bind try_catch].
  destruct (opt_prop data f_results) as [res|e2]; cbn [rbind]; [|apply Fin].
  cbn [lift bind try_catch].
  destruct (unselected ts (or_else res (VArray []))) as [filtered|e3]; [|apply Fin].
  cbn [lift bind try_catch set run].
  destruct filtered as [|x filtered]; cbn [nonempty try_catch run]; [apply Fin|].
  destruct (layout _); cbn [set try_catch run]; apply Fin.
Qed.

Lemma step_InputChanged (f : jsstring) (m : machine) (x : jsstring) :
  debounced m ->
  step f m (InputChanged x) =
  {| world_of :=
       {| ui := setDebounceRef (Some (next_timer (world_of m)))
                  (setInputValue x (ui (world_of m)));
          now := now (world_of m);
          timers := [(next_timer (world_of m), (now (world_of m) + 250)%Z,
                      {| cb_tags := tags (ui (world_of m));
                         cb_tagApiPath := tagApiPath (ui (world_of m));
                         cb_val := x |})];
          next_timer := S (next_timer (world_of m));
          layout := layout (world_of m);
          log := log (world_of m) |};
     in_flight := in_flight m |}.
Proof.
  unfold debounced. intros D. destruct m as [w fl]. destruct w as [st t0 tm nx ly lg].
  cbn [world_of ui timers] in D.
  unfold step, exec, handleInputChange.
  cbn [world_of ui bind set run with_ui setInputValue debounceRef].
  destruct (debounceRef st) as [id|] eqn:E.
  - cbn [bind run clear_timer with_timers timers ui now next_timer layout log add_timer
         settle_status in_flight setDebounceRef setInputValue with_ui].
    destruct tm as [|[[id0 d0] cb0] [|? ?]]; [| |contradiction].
    + reflexivity.
    + inversion D; subst id0. cbn [filter fst]. rewrite Nat.eqb_refl. reflexivity.
  - destruct tm as [|[[id0 d0] cb0] [|? ?]]; [|discriminate|contradiction].
    reflexivity.
Qed.

Lemma exec_fired (cb : callback) (m : machine) :
  exists extra,
    log (world_of (exec (Call (TimerFired cb) (run_callback cb)) m)) =
      log (world_of m) ++ TimerFired cb :: extra /\
    searches extra = [] /\
    (requests extra = [] \/
     exists q, encodeURIComponent (trim (cb_val cb)) = Ok q /\
               requests extra = [Get (search_url (cb_tagApiPath cb) q)]).
Proof.
  unfold exec, run_callback, searchTags. cbn [run].
  destruct (negb (nonempty (trim (cb_val cb))) ||
            Nat.ltb (List.length (trim (cb_val cb))) 1 ||
            negb (nonempty (cb_tagApiPath cb))).
  { cbn [bind set run settle_status world_of with_ui with_log log].
    exists []. auto. }
  rewrite run_try_catch, run_bind, run_lift.
  destruct (encodeURIComponent (trim (cb_val cb))) as [q|e].
  - rewrite run_bind. cbn [await run no_answer settle_status world_of with_log log].
    exists [Http (Get (search_url (cb_tagApiPath cb) q))].
    rewrite <- app_assoc. split; [reflexivity|]. split; [reflexivity|].
    right. exists q. auto.
  - cbn [bind set do_call run settle_status world_of with_ui with_log log].
    eexists [_]. rewrite <- app_assoc. split; [reflexivity|]. auto.
Qed.

Lemma step_Elapsed_short (f : jsstring) (m : machine) (d : Z)
    (id : timer_id) (cb : callback) :
  timers (world_of m) = [(id, (now (world_of m) + 250)%Z, cb)] ->
  (d < 250)%Z ->
  step f m (Elapsed d) =
  {| world_of := with_now (now (world_of m) + Z.max 0 d)%Z (world_of m);
     in_flight := in_flight m |}.
Proof.
  intros T Hd. unfold step. rewrite T. cbn [List.length fire pop_due fst snd].
  rewrite T. cbn [pop_due fst snd].
  replace (Z.leb (now (world_of m) + 250) (now (world_of m) + Z.max 0 d)) with false
    by (symmetry; apply Z.leb_gt; lia).
  reflexivity.
Qed.

Lemma steps_app (f : jsstring) (m : machine) (es1 es2 : list event) :
  steps f m (es1 ++ es2) = steps f (steps f m es1) es2.
Proof. apply fold_left_app. Qed.

Lemma steps_cons (f : jsstring) (m : machine) (e : event) (es : list event) :
  steps f m (e :: es) = steps f (step f m e) es.
Proof. reflexivity. Qed.

Lemma burst_invariant (f : jsstring) (burst : list (jsstring * Z)) :
  forall m : machine,
  debounced m ->
  Forall (fun kd => (snd kd < 250)%Z) burst ->
  debounced (steps f m (keystrokes burst)) /\
  log (world_of (steps f m (keystrokes burst))) = log (world_of m) /\
  tagApiPath (ui (world_of (steps f m (keystrokes burst)))) =
    tagApiPath (ui (world_of m)).
Proof.
  induction burst as [|[x d] burst IH]; intros m D F; [auto|].
  inversion F as [|? ? Hd F']; subst. cbn [snd] in Hd.
  change (keystrokes ((x, d) :: burst))
    with (InputChanged x :: Elapsed d :: keystrokes burst).
  rewrite !steps_cons.
  rewrite (step_InputChanged f m x D).
  erewrite step_Elapsed_short by (cbn [world_of timers now]; first [exact Hd | reflexivity]).
  cbn [world_of timers now with_now in_flight].
  match goal with |- context [steps f ?m1 _] =>
    destruct (IH m1) as (D' & L' & P'); [reflexivity | exact F' |]
  end.
  rewrite L', P'. auto.
Qed.

(** C8.  From a component with no timer pending, a burst of edits
    of the draft text, each less than 250 ms after the one before, runs
    at most one search: none during the burst, and after the last edit
    one, with the trimmed last text, once 250 ms have passed.  At most
    one request goes to the Tag Directory, for that text. *)
Theorem C8_debounce_collapses (f : jsstring) (m : machine) (burst : list (jsstring * Z))
    (last : jsstring) (wait : Z) :
  timers (world_of m) = [] ->
  rapid burst = true ->
  let m' := steps f m (keystrokes burst ++ [InputChanged last; Elapsed wait]) in
  searches (log (world_of m')) =
    searches (log (world_of m)) ++ (if Z.leb 250 wait then [trim last] else []) /\
  exists new,
    requests (log (world_of m')) = requests (log (world_of m)) ++ new /\
    (new = [] \/
     exists q, Z.leb 250 wait = true /\
               encodeURIComponent (trim last) = Ok q /\
               new = [Get (search_url (tagApiPath (ui (world_of m))) q)]).
Proof.
  intros T R m'. subst m'. rewrite steps_app.
  assert (F : Forall (fun kd => (snd kd < 250)%Z) burst).
  { apply Forall_forall. intros kd Hin. unfold rapid in R.
    rewrite forallb_forall in R. apply Z.ltb_lt. auto. }
  clear R.
  assert (D : debounced m) by (unfold debounced; rewrite T; exact I).
  destruct (burst_invariant f m D F) as (D' & L' & P').
  set (m1 := steps f m (keystrokes burst)) in *.
  rewrite !steps_cons. change (steps f ?x []) with x.
  rewrite (step_InputChanged f m1 last D').
  destruct (Z.leb 250 wait) eqn:W.
  - apply Z.leb_le in W.
    unfold step. cbn [world_of timers now List.length fire pop_due fst snd].
    replace (Z.leb (now (world_of m1) + 250) (now (world_of m1) + Z.max 0 wait))
      with true by (symmetry; apply Z.leb_le; lia).
    cbn [with_timers ui now timers next_timer layout log in_flight world_of with_now].
    match goal with |- context [exec (Call (TimerFired ?cb) _) ?m2] =>
      destruct (exec_fired cb m2) as (extra & E & S & R);
      destruct (exec (Call (TimerFired cb) (run_callback cb)) m2) as [w3 fl3]
    end.
    cbn [world_of log with_now cb_val cb_tagApiPath] in *. rewrite E, L'.
    rewrite searches_app, requests_app.
    cbn [searches requests flat_map cb_val app]. fold (searches extra). fold (requests extra).
    rewrite S. split; [reflexivity|].
    exists (requests extra). split; [reflexivity|].
    destruct R as [R | (q & Hq & R)]; [auto|].
    right. exists q. rewrite <- P'. auto.
  - apply Z.leb_gt in W.
    erewrite step_Elapsed_short by (cbn [world_of timers now]; first [exact W | reflexivity]).
    cbn [world_of with_now log]. rewrite L', !app_nil_r. split; [reflexivity|].
    exists []. rewrite app_nil_r. auto.
Qed.

(** ** The handlers at concrete inputs, on every platform *)

Lemma empty_name_is_not_decoded :
  parseTagValue (JSON_stringify (tags_value [tag "1" ""])) = Ok [].
Proof. reflexivity. Qed.

Lemma initialize_keeps_committed :
  let m := step (str "tags") (mounted content_manager)
             (ValueChanged (VString (json "[{'documentId':'1','name':'Go'}]"))) in
  hasUserEdited (ui (world_of m)) = false /\
  JSON_parse (json "{oops") = Error SyntaxError /\
  tags (ui (world_of (step (str "tags") m (ValueChanged (VString (json "{oops")))))) =
    [tag "1" "Go"] /\
  tags (ui (world_of (step (str "tags") m (ValueChanged (VString []))))) =
    [tag "1" "Go"] /\
  tags (ui (world_of (step (str "tags") m (ValueChanged VNull)))) = [tag "1" "Go"].
Proof. repeat split. Qed.

Lemma initialize_throws :
  let v := VString (json "[{'name':{'toString':1}}]") in
  decodable v = false /\
  parseTagValue v = Error TypeError /\
  run no_answer (initialize v) (world_of (mounted content_manager)) =
    (Failed TypeError, world_of (mounted content_manager)).
Proof. repeat split. Qed.

Lemma padded_name_is_resolved :
  let m := steps (str "tags") (mounted content_manager)
             [ValueChanged (VString (json "[{'documentId':'1','name':' Go '}]"));
              InputChanged (str " Go ")] in
  tags (ui (world_of m)) = [tag "1" " Go "] /\
  inputValue (ui (world_of m)) = str " Go " /\
  requests (log (world_of m)) = [] /\
  requests (log (world_of (step (str "tags") m (KeyPressed (str "Enter"))))) =
    [Get (exact_url content_manager (str "Go"))] /\
  requests (log (snd (run (fun q => Some (unreachable q))
                        (addTag (str "tags") [tag "1" " Go "] content_manager
                           (inr (str " Go ")))
                        (world_of m)))) =
    [Get (exact_url content_manager (str "Go"))].
Proof. repeat split. Qed.

Lemma nameless_record_throws :
  let nameless := {| documentId := VString (str "1"); name := VUndefined |} in
  let response :=
    VObject [(str "data",
              VObject [(str "results",
                        VArray [VObject [(str "documentId", VString (str "1"))]])])] in
  let m := steps (str "tags") (mounted content_manager)
             [InputChanged (str "g"); Elapsed 250; Settled 0 (Fulfilled response)] in
  let m1 := steps (str "tags") m [SuggestionClicked nameless; InputChanged (str "x")] in
  suggestions (ui (world_of m)) = [nameless] /\
  showSuggestions (ui (world_of m)) = true /\
  tags (ui (world_of m1)) = [nameless] /\
  inputValue (ui (world_of m1)) = str "x" /\
  isCreating (ui (world_of m1)) = false /\
  run (fun q => Some (unreachable q))
      (findOrCreateTag [nameless] content_manager (str "x")) (world_of m1) =
    (Failed TypeError, world_of m1) /\
  log (world_of (step (str "tags") m1 (KeyPressed (str "Enter")))) =
    log (world_of m1) ++ [PreventDefault; Unhandled TypeError].
Proof. repeat split. Qed.

Lemma stale_response_overwrites :
  let A := Fulfilled (found [tag "2" "alpha"]) in
  let B := Fulfilled (found [tag "3" "abacus"]) in
  let m := steps (str "tags") (mounted content_manager)
             [InputChanged (str "a"); Elapsed 250;
              InputChanged (str "ab"); Elapsed 250] in
  let m' := steps (str "tags") m [Settled 1 B; Settled 0 A] in
  requests (log (world_of m)) =
    [Get (search_url content_manager (str "a"));
     Get (search_url content_manager (str "ab"))] /\
  suggestions (ui (world_of (step (str "tags") m (Settled 1 B)))) = [tag "3" "abacus"] /\
  published [] B = [tag "3" "abacus"] /\
  suggestions (ui (world_of m')) = [tag "2" "alpha"].
Proof. repeat split. Qed.

(** ** Slugs: what every slug looks like *)

Lemma replace_runs_Forall (Q : N -> Prop) (cls : N -> bool) (rep s : jsstring) :
  Forall (fun c => cls c = false -> Q c) s -> Forall Q rep ->
  Forall Q (replace_runs cls rep s).
Proof.
  intros Hs Hrep. induction Hs as [|c rest Hc Hrest IH]; cbn [replace_runs].
  - constructor.
  - destruct (cls c) eqn:E.
    + destruct rest as [|d r]; [exact Hrep|].
      destruct (cls d); [exact IH|].
      apply Forall_app; split; [exact Hrep | exact IH].
    + constructor; [apply Hc; reflexivity | exact IH].
Qed.

Lemma strip_leading_suffix (cls : N -> bool) (s : jsstring) :
  exists t, s = t ++ strip_leading cls s /\ forallb cls t = true.
Proof.
  induction s as [|c rest IH]; cbn [strip_leading].
  - exists []. split; reflexivity.
  - destruct (cls c) eqn:E.
    + destruct IH as [t [H1 H2]]. exists (c :: t). cbn [forallb app].
      rewrite E, H2. split; [f_equal; exact H1 | reflexivity].
    + exists []. split; reflexivity.
Qed.

Lemma strip_trailing_prefix (cls : N -> bool) (s : jsstring) :
  exists t, s = strip_trailing cls s ++ t /\ forallb cls t = true.
Proof.
  induction s as [|c rest IH]; cbn [strip_trailing].
  - exists []. split; reflexivity.
  - destruct IH as [t [H1 H2]].
    destruct (strip_trailing cls rest) as [|e r] eqn:E.
    + destruct (cls c) eqn:Ec.
      * exists (c :: t). cbn [forallb app]. rewrite Ec, H2.
        split; [f_equal; exact H1 | reflexivity].
      * exists t. split; [cbn [app]; f_equal; exact H1 | exact H2].
    + exists t. split; [cbn [app]; f_equal; exact H1 | exact H2].
Qed.

Lemma strip_leading_hd (cls : N -> bool) (s : jsstring) (d : N) :
  cls d = false -> cls (hd d (strip_leading cls s)) = false.
Proof.
  intros Hd. induction s as [|c rest IH]; cbn [strip_leading hd]; [exact Hd|].
  destruct (cls c) eqn:E; [exact IH | exact E].
Qed.

Lemma strip_trailing_hd (cls : N -> bool) (s : jsstring) (d : N) :
  cls (hd d s) = false -> hd d (strip_trailing cls s) = hd d s.
Proof.
  destruct s as [|c rest]; [reflexivity|]. cbn [hd strip_trailing]. intros E.
  destruct (strip_trailing cls rest); [rewrite E|]; reflexivity.
Qed.

Lemma strip_trailing_last (cls : N -> bool) (s : jsstring) (d : N) :
  cls d = false -> cls (last (strip_trailing cls s) d) = false.
Proof.
  intros Hd. induction s as [|c rest IH]; cbn [strip_trailing]; [exact Hd|].
  destruct (strip_trailing cls rest) as [|e r] eqn:E.
  - destruct (cls c) eqn:Ec; [exact Hd | exact Ec].
  - exact IH.
Qed.

Lemma no_double_hyphen_cons (c d : N) (r : jsstring) :
  no_double_hyphen (c :: d :: r) =
  negb (is_hyphen c && is_hyphen d) && no_double_hyphen (d :: r).
Proof. reflexivity. Qed.

Lemma no_double_hyphen_app (a b : jsstring) :
  no_double_hyphen (a ++ b) = true ->
  no_double_hyphen a = true /\ no_double_hyphen b = true.
Proof.
  induction a as [|c a IH]; intros H; [split; [reflexivity | exact H]|].
  destruct a as [|d a'].
  - split; [reflexivity|]. destruct b as [|e b']; [reflexivity|].
    cbn [app] in H. rewrite no_double_hyphen_cons in H. apply andb_prop in H. apply H.
  - cbn [app] in H, IH. rewrite no_double_hyphen_cons in H |- *.
    apply andb_prop in H. destruct H as [H1 H2].
    destruct (IH H2) as [Ha Hb]. rewrite H1, Ha. split; [reflexivity | exact Hb].
Qed.

Lemma replace_runs_hyphen_hd (s : jsstring) :
  is_hyphen (hd 0%N (replace_runs is_hyphen (str "-") s)) = is_hyphen (hd 0%N s).
Proof.
  induction s as [|c rest IH]; [reflexivity|].
  change (replace_runs is_hyphen (str "-") (c :: rest)) with
    (if is_hyphen c then
       match rest with
       | d :: _ => if is_hyphen d then replace_runs is_hyphen (str "-") rest
                   else str "-" ++ replace_runs is_hyphen (str "-") rest
       | [] => str "-"
       end
     else c :: replace_runs is_hyphen (str "-") rest).
  cbn [hd]. destruct (is_hyphen c) eqn:E; [|cbn [hd]; exact E].
  destruct rest as [|d r]; [reflexivity|].
  destruct (is_hyphen d) eqn:Ed; [|reflexivity].
  exact (eq_trans IH Ed).
Qed.

Lemma replace_runs_no_double (s : jsstring) :
  no_double_hyphen (replace_runs is_hyphen (str "-") s) = true.
Proof.
  induction s as [|c rest IH]; [reflexivity|]. cbn [replace_runs].
  destruct (is_hyphen c) eqn:E.
  - destruct rest as [|d r]; [reflexivity|].
    destruct (is_hyphen d) eqn:Ed; [exact IH|].
    pose proof (replace_runs_hyphen_hd (d :: r)) as Hh. cbn [hd] in Hh. rewrite Ed in Hh.
    change (str "-") with [45%N] in *. cbn [app].
    destruct (replace_runs is_hyphen [45%N] (d :: r)) as [|e t]; [reflexivity|].
    rewrite no_double_hyphen_cons. cbn [hd] in Hh. rewrite Hh, IH, andb_false_r. reflexivity.
  - destruct (replace_runs is_hyphen (str "-") rest) as [|e t]; [reflexivity|].
    rewrite no_double_hyphen_cons, E, IH. reflexivity.
Qed.

Lemma Forall_strip_leading (Q : N -> Prop) (cls : N -> bool) (s : jsstring) :
  Forall Q s -> Forall Q (strip_leading cls s).
Proof.
  intros H. destruct (strip_leading_suffix cls s) as [t [E _]].
  rewrite E in H. apply Forall_app in H. apply H.
Qed.

Lemma Forall_strip_trailing (Q : N -> Prop) (cls : N -> bool) (s : jsstring) :
  Forall Q s -> Forall Q (strip_trailing cls s).
Proof.
  intros H. destruct (strip_trailing_prefix cls s) as [t [E _]].
  rewrite E in H. apply Forall_app in H. apply H.
Qed.

Lemma makeSlug_hyphens (text : jsstring) :
  is_hyphen (hd 0%N (makeSlug text)) = false /\
  is_hyphen (last (makeSlug text) 0%N) = false /\
  no_double_hyphen (makeSlug text) = true.
Proof.
  unfold makeSlug.
  set (s3 := replace_runs (fun c => is_whitespace c || N.eqb c 95) _ _).
  set (s4 := replace_runs is_hyphen _ s3).
  repeat split.
  - rewrite strip_trailing_hd; apply strip_leading_hd; reflexivity.
  - apply strip_trailing_last. reflexivity.
  - destruct (strip_leading_suffix is_hyphen s4) as [a [Ea _]].
    destruct (strip_trailing_prefix is_hyphen (strip_leading is_hyphen s4)) as [b [Eb _]].
    pose proof (replace_runs_no_double s3) as H. fold s4 in H.
    rewrite Ea in H. apply no_double_hyphen_app in H. destruct H as [_ H].
    rewrite Eb in H. apply no_double_hyphen_app in H. apply H.
Qed.

(** X1. Whatever the text, its slug holds no white space and no
    underscore, neither begins nor ends with a hyphen, and has no two
    hyphens in a row. *)
Theorem makeSlug_shape (text : jsstring) :
  forallb (fun c => negb (is_whitespace c || N.eqb c 95)) (makeSlug text) = true /\
  is_hyphen (hd 0%N (makeSlug text)) = false /\
  is_hyphen (last (makeSlug text) 0%N) = false /\
  no_double_hyphen (makeSlug text) = true.
Proof.
  split; [|apply makeSlug_hyphens]. unfold makeSlug.
  set (gap := fun c => is_whitespace c || N.eqb c 95).
  apply forallb_forall. apply Forall_forall.
  apply Forall_strip_trailing, Forall_strip_leading.
  apply replace_runs_Forall; [|repeat constructor].
  apply Forall_impl with (P := fun c => negb (gap c) = true); [intros c H _; exact H|].
  apply replace_runs_Forall; [|repeat constructor].
  apply Forall_forall. intros c _ E. rewrite E. reflexivity.
Qed.

Ltac chars :=
  unfold slug_keeps, is_letter, is_number, is_whitespace, is_hyphen, is_digit, tabulated,
    lower_tabulated, is_surrogate, is_high_surrogate, is_low_surrogate, in_range in *;
  repeat match goal with
  | H : context [if ?b then _ else _] |- _ => destruct b eqn:?
  | |- context [if ?b then _ else _] => destruct b eqn:?
  end;
  repeat match goal with
  | |- _ = false => apply not_true_iff_false; intro
  end;
  repeat (rewrite ?orb_true_iff, ?andb_true_iff, ?orb_false_iff, ?andb_false_iff,
    ?negb_true_iff, ?negb_false_iff, ?N.leb_le, ?N.leb_gt, ?N.ltb_lt, ?N.ltb_ge,
    ?N.eqb_eq, ?N.eqb_neq in *);
  try lia.

Lemma trimStart_strip (s : jsstring) : trimStart s = strip_leading is_whitespace s.
Proof.
  induction s as [|c rest IH]; [reflexivity|]. cbn [trimStart strip_leading].
  rewrite IH. reflexivity.
Qed.

Lemma trimEnd_strip (s : jsstring) : trimEnd s = strip_trailing is_whitespace s.
Proof.
  induction s as [|c rest IH]; [reflexivity|]. cbn [trimEnd strip_trailing].
  rewrite IH. reflexivity.
Qed.

Lemma Forall_trim (Q : N -> Prop) (s : jsstring) : Forall Q s -> Forall Q (trim s).
Proof.
  intros H. unfold trim. rewrite trimEnd_strip, trimStart_strip.
  apply Forall_strip_trailing, Forall_strip_leading, H.
Qed.

Lemma strip_non_slug_Forall (n : nat) :
  forall s, (List.length s <= n)%nat ->
  Forall (fun c => is_surrogate c || slug_keeps c = true) (strip_non_slug s).
Proof.
  induction n as [|n IH]; intros s Hn.
  - destruct s; [constructor | simpl in Hn; lia].
  - destruct s as [|c rest]; [constructor|]. simpl in Hn. cbn [strip_non_slug].
    destruct (is_high_surrogate c) eqn:Hc.
    + destruct rest as [|l rest']; [constructor|]. simpl in Hn.
      destruct (is_low_surrogate l) eqn:Hl.
      * destruct (slug_keeps (code_point c l)).
        -- constructor; [|constructor]; [| |apply IH; lia].
           ++ apply orb_true_iff; left. clear - Hc. chars.
           ++ apply orb_true_iff; left. clear - Hl. chars.
        -- apply IH; lia.
      * apply IH; simpl; lia.
    + destruct (slug_keeps c) eqn:Hk; [|apply IH; lia].
      constructor; [rewrite Hk; apply orb_true_r | apply IH; lia].
Qed.

(** X2. Every code unit of a slug is a letter, a number, a hyphen or
    half of a surrogate pair: nothing else survives [makeSlug]. *)
Theorem makeSlug_alphabet (text : jsstring) :
  forallb (fun c => is_surrogate c || is_letter c || is_number c || is_hyphen c)
          (makeSlug text) = true.
Proof.
  apply forallb_forall, Forall_forall. unfold makeSlug.
  apply Forall_strip_trailing, Forall_strip_leading.
  apply replace_runs_Forall; [|repeat constructor].
  apply Forall_forall. intros c Hc _. revert c Hc. apply Forall_forall.
  apply replace_runs_Forall; [|repeat constructor].
  eapply Forall_impl; [|eapply strip_non_slug_Forall; apply le_n].
  cbv beta. intros c H G. unfold slug_keeps in H. fold (is_hyphen c) in H.
  apply orb_false_iff in G. destruct G as [G _]. rewrite G, orb_false_r in H.
  rewrite <- !orb_assoc in *. exact H.
Qed.

Lemma toLowerCase_tabulated (s : jsstring) :
  forallb tabulated s = true -> toLowerCase s = map lower_tabulated s.
Proof. intros H. unfold toLowerCase. rewrite H. reflexivity. Qed.

Lemma strip_non_slug_filter (s : jsstring) :
  Forall (fun c => is_high_surrogate c = false) s -> strip_non_slug s = filter slug_keeps s.
Proof.
  induction 1 as [|c rest Hc _ IH]; [reflexivity|]. cbn [strip_non_slug filter].
  rewrite Hc, IH. reflexivity.
Qed.

Lemma lowered_plain (s : jsstring) :
  forallb tabulated s = true -> Forall (fun c => plain c = true) (map lower_tabulated s).
Proof.
  intros H. apply Forall_forall. intros c Hc. apply in_map_iff in Hc.
  destruct Hc as [x [E Hx]]. rewrite forallb_forall in H. specialize (H x Hx).
  subst c. clear - H. unfold plain. chars.
Qed.

Lemma Forall_filter_in {A} (Q : A -> Prop) (f : A -> bool) (l : list A) :
  Forall Q l -> Forall (fun x => Q x /\ f x = true) (filter f l).
Proof.
  intros H. apply Forall_forall. intros x Hx. apply filter_In in Hx.
  rewrite Forall_forall in H. split; [apply H|]; apply Hx.
Qed.

Lemma makeSlug_plain (text : jsstring) :
  forallb tabulated text = true ->
  Forall (fun c => plain c = true /\ (is_letter c || is_number c || is_hyphen c = true))
         (makeSlug text).
Proof.
  intros H. unfold makeSlug. rewrite toLowerCase_tabulated by exact H.
  apply Forall_strip_trailing, Forall_strip_leading.
  apply replace_runs_Forall; [|repeat constructor].
  apply Forall_forall. intros c Hc _. revert c Hc. apply Forall_forall.
  apply replace_runs_Forall; [|repeat constructor].
  rewrite strip_non_slug_filter.
  - eapply Forall_impl; [|apply Forall_filter_in, Forall_trim, lowered_plain, H].
    cbv beta. intros c [Hp Hk] G. split; [exact Hp|].
    unfold slug_keeps in Hk. fold (is_hyphen c) in Hk.
    apply orb_false_iff in G. destruct G as [G _]. rewrite G, orb_false_r in Hk. exact Hk.
  - eapply Forall_impl; [|apply Forall_trim, lowered_plain, H].
    cbv beta. intros c Hc. clear - Hc. unfold plain in Hc. chars.
Qed.
Lemma strip_leading_id (cls : N -> bool) (s : jsstring) (d : N) :
  cls (hd d s) = false -> strip_leading cls s = s.
Proof.
  destruct s as [|c rest]; [reflexivity|]. cbn [hd strip_leading]. intros E.
  rewrite E. reflexivity.
Qed.

Lemma strip_trailing_id (cls : N -> bool) (s : jsstring) (d : N) :
  cls (last s d) = false -> strip_trailing cls s = s.
Proof.
  induction s as [|c rest IH]; [reflexivity|]. intros E.
  cbn [strip_trailing]. destruct rest as [|e r].
  - cbn [strip_trailing]. cbn [last] in E. rewrite E. reflexivity.
  - rewrite IH by exact E. reflexivity.
Qed.

Lemma Forall_hd {A} (Q : A -> Prop) (s : list A) (d : A) :
  Forall Q s -> Q d -> Q (hd d s).
Proof. intros H Hd. destruct H; [exact Hd | assumption]. Qed.

Lemma Forall_last {A} (Q : A -> Prop) (s : list A) (d : A) :
  Forall Q s -> Q d -> Q (last s d).
Proof.
  intros H Hd. induction H as [|x l Hx Hl IH]; [exact Hd|].
  destruct l; [exact Hx | exact IH].
Qed.

Lemma replace_runs_id (cls : N -> bool) (rep s : jsstring) :
  Forall (fun c => cls c = false) s -> replace_runs cls rep s = s.
Proof.
  induction 1 as [|c rest Hc _ IH]; [reflexivity|]. cbn [replace_runs].
  rewrite Hc, IH. reflexivity.
Qed.

Lemma replace_runs_hyphen_id (s : jsstring) :
  no_double_hyphen s = true -> replace_runs is_hyphen (str "-") s = s.
Proof.
  induction s as [|c rest IH]; [reflexivity|]. intros H.
  assert (Hr : no_double_hyphen rest = true).
  { destruct rest as [|d r]; [reflexivity|].
    rewrite no_double_hyphen_cons in H. apply andb_prop in H. apply H. }
  specialize (IH Hr).
  change (replace_runs is_hyphen (str "-") (c :: rest)) with
    (if is_hyphen c then
       match rest with
       | d :: _ => if is_hyphen d then replace_runs is_hyphen (str "-") rest
                   else str "-" ++ replace_runs is_hyphen (str "-") rest
       | [] => str "-"
       end
     else c :: replace_runs is_hyphen (str "-") rest).
  destruct (is_hyphen c) eqn:E; [|rewrite IH; reflexivity].
  apply N.eqb_eq in E. subst c.
  destruct rest as [|d r]; [reflexivity|].
  rewrite no_double_hyphen_cons in H. apply andb_prop in H. destruct H as [H _].
  cbn [is_hyphen N.eqb Pos.eqb andb] in H. change (is_hyphen 45) with true in H.
  cbn [andb] in H. apply negb_true_iff in H. rewrite H, IH. reflexivity.
Qed.

Lemma filter_id {A} (f : A -> bool) (l : list A) :
  Forall (fun x => f x = true) l -> filter f l = l.
Proof.
  induction 1 as [|x l Hx _ IH]; [reflexivity|]. cbn [filter]. rewrite Hx, IH. reflexivity.
Qed.

Lemma map_lower_plain (s : jsstring) :
  Forall (fun c => plain c = true) s -> map lower_tabulated s = s.
Proof.
  induction 1 as [|c rest Hc _ IH]; [reflexivity|]. cbn [map]. rewrite IH. f_equal.
  unfold plain in Hc. apply andb_prop in Hc. destruct Hc as [_ Hc].
  apply negb_true_iff in Hc. unfold lower_tabulated. rewrite Hc. reflexivity.
Qed.

Lemma makeSlug_fixed (s : jsstring) :
  Forall (fun c => plain c = true /\ (is_letter c || is_number c || is_hyphen c = true)) s ->
  is_hyphen (hd 0%N s) = false -> is_hyphen (last s 0%N) = false ->
  no_double_hyphen s = true -> makeSlug s = s.
Proof.
  intros H Hh Hl Hd. unfold makeSlug.
  assert (Hp : Forall (fun c => plain c = true) s)
    by (eapply Forall_impl; [|exact H]; cbv beta; intros c Hc; apply Hc).
  assert (Hw : Forall (fun c => is_whitespace c || N.eqb c 95 = false) s).
  { eapply Forall_impl; [|exact H]. cbv beta. intros c [Hc1 Hc2]. clear - Hc1 Hc2.
    unfold plain in Hc1. chars. }
  rewrite toLowerCase_tabulated.
  2:{ apply forallb_forall, Forall_forall. eapply Forall_impl; [|exact Hp].
      cbv beta. intros c Hc. unfold plain in Hc. apply andb_prop in Hc. apply Hc. }
  rewrite map_lower_plain by exact Hp.
  assert (Et : trim s = s).
  { unfold trim. rewrite trimEnd_strip, trimStart_strip.
    rewrite (strip_leading_id is_whitespace s 0%N).
    - apply (strip_trailing_id is_whitespace s 0%N).
      apply Forall_last with (Q := fun c => is_whitespace c = false); [|reflexivity].
      eapply Forall_impl; [|exact Hw]. cbv beta. intros c Hc.
      apply orb_false_iff in Hc. apply Hc.
    - apply Forall_hd with (Q := fun c => is_whitespace c = false); [|reflexivity].
      eapply Forall_impl; [|exact Hw]. cbv beta. intros c Hc.
      apply orb_false_iff in Hc. apply Hc. }
  rewrite Et. rewrite strip_non_slug_filter.
  2:{ eapply Forall_impl; [|exact Hp]. cbv beta. intros c Hc. clear - Hc.
      unfold plain in Hc. chars. }
  rewrite filter_id.
  2:{ eapply Forall_impl; [|exact H]. cbv beta. intros c [_ Hc]. unfold slug_keeps.
      fold (is_hyphen c). destruct (is_letter c), (is_number c), (is_whitespace c);
        try reflexivity. exact Hc. }
  rewrite replace_runs_id with (cls := fun c => is_whitespace c || N.eqb c 95) by exact Hw.
  rewrite replace_runs_hyphen_id by exact Hd.
  rewrite (strip_leading_id is_hyphen s 0%N) by exact Hh.
  apply (strip_trailing_id is_hyphen s 0%N). exact Hl.
Qed.

(** X3. The slug of a text of the tabulated blocks (Basic Latin and
    Devanagari) has no Latin capital, and is its own slug: [makeSlug]
    is idempotent there. *)
Theorem makeSlug_idempotent (text : jsstring) :
  forallb tabulated text = true ->
  forallb (fun c => negb (in_range 65 90 c)) (makeSlug text) = true /\
  makeSlug (makeSlug text) = makeSlug text.
Proof.
  intros H. pose proof (makeSlug_plain text H) as Hp.
  destruct (makeSlug_hyphens text) as [Hh [Hl Hd]]. split.
  - apply forallb_forall, Forall_forall. eapply Forall_impl; [|exact Hp].
    cbv beta. intros c [Hc _]. unfold plain in Hc. apply andb_prop in Hc. apply Hc.
  - apply makeSlug_fixed; assumption.
Qed.
Lemma strip_leading_all (cls : N -> bool) (s : jsstring) :
  Forall (fun c => cls c = true) s -> strip_leading cls s = [].
Proof.
  induction 1 as [|c rest Hc _ IH]; [reflexivity|]. cbn [strip_leading].
  rewrite Hc. exact IH.
Qed.

Lemma Exists_strip_leading (Q : N -> Prop) (cls : N -> bool) (s : jsstring) :
  (forall c, Q c -> cls c = false) -> Exists Q s -> Exists Q (strip_leading cls s).
Proof.
  intros HQ H. destruct (strip_leading_suffix cls s) as [t [E Ht]].
  rewrite E in H. apply Exists_app in H. destruct H as [H | H]; [|exact H].
  apply Exists_exists in H. destruct H as [c [Hc Qc]].
  rewrite forallb_forall in Ht. specialize (HQ c Qc). rewrite (Ht c Hc) in HQ. discriminate.
Qed.

Lemma Exists_strip_trailing (Q : N -> Prop) (cls : N -> bool) (s : jsstring) :
  (forall c, Q c -> cls c = false) -> Exists Q s -> Exists Q (strip_trailing cls s).
Proof.
  intros HQ H. destruct (strip_trailing_prefix cls s) as [t [E Ht]].
  rewrite E in H. apply Exists_app in H. destruct H as [H | H]; [exact H|].
  apply Exists_exists in H. destruct H as [c [Hc Qc]].
  rewrite forallb_forall in Ht. specialize (HQ c Qc). rewrite (Ht c Hc) in HQ. discriminate.
Qed.

Lemma Exists_replace_runs (Q : N -> Prop) (cls : N -> bool) (rep s : jsstring) :
  (forall c, Q c -> cls c = false) -> Exists Q s -> Exists Q (replace_runs cls rep s).
Proof.
  intros HQ. induction s as [|c rest IH]; intros H; [inversion H|].
  cbn [replace_runs]. inversion H as [x l Hc | x l Hr]; subst.
  - rewrite (HQ c Hc). apply Exists_cons_hd, Hc.
  - specialize (IH Hr). destruct (cls c).
    + destruct rest as [|d r]; [inversion Hr|].
      destruct (cls d); [exact IH | apply Exists_app; right; exact IH].
    + apply Exists_cons_tl, IH.
Qed.

Lemma Exists_filter {A} (Q : A -> Prop) (f : A -> bool) (l : list A) :
  (forall x, Q x -> f x = true) -> Exists Q l -> Exists Q (filter f l).
Proof.
  intros HQ H. apply Exists_exists in H. destruct H as [x [Hx Qx]].
  apply Exists_exists. exists x. split; [|exact Qx].
  apply filter_In. split; [exact Hx | apply HQ, Qx].
Qed.

(** X4. The slug of a text of the tabulated blocks is empty exactly
    when the text has no letter and no digit. *)
Theorem makeSlug_empty (text : jsstring) :
  forallb tabulated text = true ->
  (makeSlug text = [] <-> existsb (fun c => is_letter c || is_number c) text = false).
Proof.
  intros Ht. unfold makeSlug. rewrite toLowerCase_tabulated by exact Ht.
  set (gap := fun c => is_whitespace c || N.eqb c 95).
  set (Q := fun c => plain c = true /\ is_letter c || is_number c = true).
  assert (Qw : forall c, Q c -> is_whitespace c = false)
    by (intros c [H1 H2]; clear - H1 H2; unfold plain in H1; chars).
  assert (Qg : forall c, Q c -> gap c = false)
    by (intros c [H1 H2]; clear - H1 H2; unfold plain in H1; subst gap; cbv beta; chars).
  assert (Qh : forall c, Q c -> is_hyphen c = false)
    by (intros c [H1 H2]; clear - H1 H2; unfold plain in H1; chars).
  assert (Qk : forall c, Q c -> slug_keeps c = true).
  { intros c [_ H2]. unfold slug_keeps. rewrite H2. reflexivity. }
  assert (Hs : Forall (fun c => is_high_surrogate c = false)
                 (trim (map lower_tabulated text))).
  { eapply Forall_impl; [|apply Forall_trim, lowered_plain, Ht].
    cbv beta. intros c Hc. clear - Hc. unfold plain in Hc. chars. }
  rewrite strip_non_slug_filter by exact Hs.
  split.
  - intros E. destruct (existsb _ text) eqn:Ex; [exfalso|reflexivity].
    apply existsb_exists in Ex. destruct Ex as [x [Hx Ax]].
    rewrite forallb_forall in Ht. specialize (Ht x Hx).
    assert (Ex : Exists Q (map lower_tabulated text)).
    { apply Exists_exists. exists (lower_tabulated x). split; [apply in_map, Hx|].
      clear - Ht Ax. subst Q. cbv beta. unfold plain. split; chars. }
    assert (F : Exists Q []); [|inversion F].
    rewrite <- E.
    apply Exists_strip_trailing; [exact Qh|].
    apply Exists_strip_leading; [exact Qh|].
    apply Exists_replace_runs; [exact Qh|].
    apply Exists_replace_runs; [exact Qg|].
    apply Exists_filter; [exact Qk|].
    unfold trim. rewrite trimEnd_strip, trimStart_strip.
    apply Exists_strip_trailing; [exact Qw|].
    apply Exists_strip_leading; [exact Qw|]. exact Ex.
  - intros Ex.
    assert (Hn : Forall (fun c => is_letter c || is_number c = false)
                   (map lower_tabulated text)).
    { apply Forall_forall. intros c Hc. apply in_map_iff in Hc.
      destruct Hc as [x [E Hx]]. subst c.
      assert (Ax : is_letter x || is_number x = false).
      { destruct (is_letter x || is_number x) eqn:Ax; [|reflexivity].
        rewrite <- Ex. symmetry. apply existsb_exists. exists x. split; assumption. }
      rewrite forallb_forall in Ht. specialize (Ht x Hx). clear - Ht Ax. chars. }
    rewrite strip_leading_all; [reflexivity|].
    apply replace_runs_Forall; [|repeat constructor].
    apply Forall_forall. intros c Hc _. revert c Hc. apply Forall_forall.
    apply replace_runs_Forall; [|repeat constructor].
    eapply Forall_impl; [|apply Forall_filter_in, Forall_trim, Hn].
    cbv beta. intros c [Hc Hk] G. unfold slug_keeps in Hk. fold (is_hyphen c) in Hk.
    apply orb_false_iff in G. destruct G as [G _].
    rewrite Hc, G in Hk. exact Hk.
Qed.

(** ** The decoder: what it guarantees *)

(** X5. The decoder returns a list on every value (a string that is no
    JSON, an array with entries of any kind, anything else) in which
    [String] converts the name of every entry, and throws a TypeError on
    the others: those where the name of an entry is an object with an
    own property [toString], or an array that holds one.  Of every tag
    it returns the name is a string, and the [documentId] is the entry's
    own when that is truthy and the empty string otherwise. *)
Theorem decoded_tags_shape (v : value) :
  (decodable v = true -> exists l, parseTagValue v = Ok l) /\
  (decodable v = false -> parseTagValue v = Error TypeError) /\
  (forall l, parseTagValue v = Ok l ->
     Forall (fun t => typeof_string (name t) = true /\
                      (truthy (documentId t) = true \/ documentId t = VString [])) l).
Proof.
  split; [apply parseTagValue_returns|]. split.
  - apply parseTagValue_throws.
  - intros l. apply parseTagValue_shape.
Qed.

Lemma JSON_parse_empty : JSON_parse [] = Error SyntaxError.
Proof. reflexivity. Qed.

(** X6. A JSON text is decoded as the value it denotes is: the decoder
    gives the same tags for the text and for the parsed value, unless
    the text denotes a string (which the decoder does not parse a second
    time). *)
Theorem text_decodes_as_its_value (text : jsstring) (data : value) :
  JSON_parse text = Ok data -> typeof_string data = false ->
  parseTagValue (VString text) = parseTagValue data.
Proof.
  intros E Hs. unfold parseTagValue.
  destruct text as [|c text]; [rewrite JSON_parse_empty in E; discriminate|].
  cbn [truthy nonempty negb]. rewrite E.
  destruct data; try discriminate; try reflexivity.
  - destruct b; reflexivity.
  - cbn [truthy]. destruct (number_truthy n); reflexivity.
Qed.

(** X7. An array of well-formed tags (string fields, a name that is
    not empty) given as the value, as a jsonb field gives it, decodes to
    those very tags, in order. *)
Theorem array_roundtrip (ts : list TagData) :
  forallb tag_ok ts = true -> parseTagValue (tags_value ts) = Ok ts.
Proof.
  intros H. unfold parseTagValue, tags_value. cbn [truthy negb].
  rewrite (filterM_has_name ts H). cbn [rbind]. apply (mapM_to_tag ts H).
Qed.

(** X8. What the host was told is enough to restore the widget: a
    component mounted anew and given the encoding of a set of well-formed
    tags, as a string or as the parsed array, has that set committed,
    without notifying the host or making any request. *)
Theorem remount_restores (f path : jsstring) (ts : list TagData) :
  forallb tag_ok ts = true ->
  step f (mounted path) (ValueChanged (JSON_stringify (tags_value ts))) =
    {| world_of := with_ui (setTags ts) (world_of (mounted path)); in_flight := [] |} /\
  step f (mounted path) (ValueChanged (tags_value ts)) =
    {| world_of := with_ui (setTags ts) (world_of (mounted path)); in_flight := [] |}.
Proof.
  intros H.
  assert (E1 : parseTagValue (JSON_stringify (tags_value ts)) = Ok ts).
  { unfold JSON_stringify. rewrite (serialize_tags ts H).
    unfold parseTagValue. cbn [truthy nonempty negb].
    rewrite (JSON_parse_tags ts H). unfold tags_value.
    rewrite (filterM_has_name ts H). cbn [rbind]. apply (mapM_to_tag ts H). }
  assert (E2 : parseTagValue (tags_value ts) = Ok ts).
  { unfold parseTagValue, tags_value. cbn [truthy negb].
    rewrite (filterM_has_name ts H). cbn [rbind]. apply (mapM_to_tag ts H). }
  unfold step, exec, initialize, mounted.
  cbn [world_of in_flight ui hasUserEdited run]. rewrite !run_bind, !run_lift, E1, E2.
  destruct ts as [|t ts]; split; reflexivity.
Qed.

Lemma step_ValueChanged (f : jsstring) (w : world) (fl : list suspended) (v : value)
    (l : list TagData) :
  parseTagValue v = Ok l ->
  step f {| world_of := w; in_flight := fl |} (ValueChanged v) =
  {| world_of := if hasUserEdited (ui w) then w
                 else match l with [] => w | _ :: _ => with_ui (setTags l) w end;
     in_flight := fl |}.
Proof.
  intros E. unfold step, exec, initialize. cbn [world_of in_flight run].
  destruct (hasUserEdited (ui w)); [reflexivity|].
  rewrite run_bind, run_lift, E. destruct l; reflexivity.
Qed.

(** X9. The effect of the [value] prop is idempotent on a value that
    the decoder does not throw on (one in which [String] converts the
    name of every entry): running it twice for the same value, as
    a development build of React does at mount, leaves the component as
    running it once does. *)
Theorem value_change_is_idempotent (f : jsstring) (m : machine) (v : value) :
  decodable v = true ->
  steps f m [ValueChanged v; ValueChanged v] = steps f m [ValueChanged v].
Proof.
  intros D. destruct m as [w fl]. destruct (parseTagValue_returns v D) as [l E].
  unfold steps. cbn [fold_left]. rewrite (step_ValueChanged f w fl v E).
  rewrite (step_ValueChanged f _ fl v E).
  destruct (hasUserEdited (ui w)) eqn:Hu; [rewrite Hu; reflexivity|].
  destruct l as [|t l]; [rewrite Hu; reflexivity|].
  cbn [with_ui ui hasUserEdited setTags]. rewrite Hu. reflexivity.
Qed.

(** ** The plugin configuration *)

(** X10. Loading the configuration never throws and always leaves a
    [tagApiPath] that is not empty: the collection path of the content
    type the endpoint names, and that of the default content type
    ['api::tag.tag'] when the request is rejected, when the response
    names none, and when what it names cannot be converted to a string
    (an object with an own property [toString]).  Exactly one request is
    made, and nothing else of the state changes. *)
Theorem loadConfig_falls_back (dir : request -> outcome) (w : world) :
  exists w',
    run (fun q => Some (dir q)) loadConfig w = (Finished tt, w') /\
    nonempty (tagApiPath (ui w')) = true /\
    requests (log w') = requests (log w) ++ [Get config_url] /\
    ui w' = setTagApiPath (tagApiPath (ui w')) (ui w) /\
    match dir (Get config_url) with
    | Rejected _ => tagApiPath (ui w') = collection_path DEFAULT_TAG_UID
    | Fulfilled resp =>
        let c := opt_get (opt_get resp (str "data")) (str "tagContentType") in
        tagApiPath (ui w') =
          collection_path (if truthy c
                           then match ToString c with
                                | Ok uid => uid
                                | Error _ => DEFAULT_TAG_UID
                                end
                           else DEFAULT_TAG_UID)
    end.
Proof.
  unfold loadConfig. rewrite run_try_catch, run_bind, run_await.
  destruct (dir (Get config_url)) as [resp|reason].
  - cbv zeta. unfold or_else. rewrite run_bind, run_lift.
    destruct (truthy (opt_get (opt_get resp (str "data")) (str "tagContentType")));
      [destruct (ToString _) | cbn [ToString]];
      cbn [set run]; eexists; (split; [reflexivity|]);
      cbn [with_ui with_log ui log tagApiPath setTagApiPath];
      rewrite requests_app; repeat split.
  - cbn [set run]. eexists. split; [reflexivity|].
    cbn [with_ui with_log ui log tagApiPath setTagApiPath].
    rewrite requests_app. repeat split.
Qed.

(** X11. Server and widget agree on the content type: for a
    configuration the server's validator accepts, when the endpoint
    answers with the body of [getConfig], the widget's [tagApiPath] is
    the collection path of a content type that is a string and not
    empty, the configured one or else the default. *)
Theorem configured_path (cfg : value) (dir : request -> outcome) (w : world) :
  validator cfg = Valid ->
  dir (Get config_url) = Fulfilled (VObject [(str "data", getConfig (opt_get cfg))]) ->
  let w' := snd (run (fun q => Some (dir q)) loadConfig w) in
  exists uid,
    tagApiPath (ui w') = collection_path uid /\ nonempty uid = true /\
    (opt_get cfg (str "tagContentType") = VString uid \/
     truthy (opt_get cfg (str "tagContentType")) = false /\ uid = DEFAULT_TAG_UID).
Proof.
  intros Hv Hd. cbv zeta. unfold loadConfig.
  rewrite run_try_catch, run_bind, run_await, Hd. cbv zeta.
  assert (E1 : forall x, opt_get (VObject [(str "data", x)]) (str "data") = x)
    by reflexivity.
  assert (E2 : forall x, opt_get (VObject [(str "tagContentType", x)])
                           (str "tagContentType") = x) by reflexivity.
  unfold getConfig. rewrite E1, E2. clear E1 E2.
  unfold validator in Hv.
  set (c := opt_get cfg (str "tagContentType")) in *.
  assert (Hc : truthy c && negb (typeof_string c) = false).
  { destruct cfg; try discriminate;
      destruct (truthy c && negb (typeof_string c)); try discriminate; reflexivity. }
  unfold or_else. rewrite run_bind, run_lift. destruct (truthy c) eqn:Tc.
  - rewrite Tc. destruct c as [| | | |s| |]; try discriminate.
    cbn [set run snd with_ui ui tagApiPath setTagApiPath ToString].
    exists s. auto.
  - change (truthy (VString (str "api::tag.tag"))) with true. cbv iota.
    change (truthy (VString DEFAULT_TAG_UID)) with true. cbv iota.
    cbn [set run snd with_ui ui tagApiPath setTagApiPath ToString].
    exists DEFAULT_TAG_UID. auto.
Qed.

(** X12. A name entered before the configuration has loaded is lost:
    with an empty [tagApiPath] and no suggestion highlighted, Enter (or
    the comma) on a draft clears the draft and commits nothing; no
    request is made and the host is not notified. *)
Theorem enter_before_config (answer : request -> option outcome) (f v : jsstring)
    (i : Z) (sugg ts : list TagData) (key : jsstring) (w : world) :
  key_is key "Enter" || key_is key "," = true ->
  (i < 0 \/ Z.of_nat (List.length sugg) <= i)%Z ->
  nonempty (trim v) = true ->
  exists w',
    run answer (handleKeyDown f v i sugg ts [] key) w = (Finished tt, w') /\
    inputValue (ui w') = [] /\
    tags (ui w') = tags (ui w) /\
    requests (log w') = requests (log w) /\
    notifications (log w') = notifications (log w).
Proof.
  intros Hk Hi Hv. unfold handleKeyDown. rewrite Hk.
  replace (Z.leb 0 i && Z.ltb i (Z.of_nat (List.length sugg))) with false.
  2:{ symmetry. apply andb_false_iff. destruct Hi; [left; apply Z.leb_gt | right; apply Z.ltb_ge]; lia. }
  rewrite Hv. unfold addTag, findOrCreateTag.
  cbn [nonempty negb orb]. rewrite orb_true_r.
  unfold addTag_commit. cbn [bind set do_call run]. eexists. split; [reflexivity|].
  cbn [with_ui with_log ui log tags inputValue setInputValue setSuggestions
       setShowSuggestions].
  rewrite !requests_app, !notifications_app. cbn [requests notifications flat_map].
  rewrite !app_nil_r. auto.
Qed.

(** ** Searching: what a search leaves behind *)

Lemma filterM_Forall {A} (f : A -> result bool) (l k : list A) :
  filterM f l = Ok k -> Forall (fun x => f x = Ok true) k.
Proof.
  revert k. induction l as [|x l IH]; intros k E; cbn [filterM] in E.
  - inversion E. constructor.
  - destruct (f x) as [b|] eqn:Ef; [|discriminate]. cbn [rbind] in E.
    destruct (filterM f l) as [k'|]; [|discriminate]. cbn [rbind] in E.
    inversion E; subst. destruct b; [constructor|]; auto.
Qed.

Lemma mapM_Forall2 {A B} (g : A -> result B) (l : list A) (l' : list B) :
  mapM g l = Ok l' -> Forall2 (fun x y => g x = Ok y) l l'.
Proof.
  revert l'. induction l as [|x l IH]; intros l' E; cbn [mapM] in E.
  - inversion E. constructor.
  - destruct (g x) as [y|] eqn:Eg; [|discriminate]. cbn [rbind] in E.
    destruct (mapM g l) as [k'|]; [|discriminate]. cbn [rbind] in E.
    inversion E; subst. constructor; auto.
Qed.

Lemma unselected_excludes (tags : list TagData) (results : value) (l : list TagData) :
  unselected tags results = Ok l ->
  Forall (fun s => selected tags (documentId s) = false) l.
Proof.
  unfold unselected. destruct results as [| | | | |elems|]; try discriminate.
  destruct (filterM _ elems) as [kept|] eqn:Ef; [|discriminate]. cbn [rbind].
  intros Em. apply filterM_Forall in Ef. apply mapM_Forall2 in Em.
  induction Em as [|t s kept l Hts _ IH]; [constructor|].
  inversion Ef as [|? ? Hf Hk]; subst. constructor; [|auto].
  destruct (prop t f_documentId) as [id|]; [|discriminate]. cbn [rbind] in Hf, Hts.
  destruct (prop t f_name) as [n|]; [|discriminate]. cbn [rbind] in Hts.
  inversion Hts; subst. cbn [documentId]. inversion Hf as [Hs].
  apply negb_true_iff in Hs. exact Hs.
Qed.

Lemma published_excludes (tags : list TagData) (o : outcome) :
  Forall (fun s => selected tags (documentId s) = false) (published tags o).
Proof.
  unfold published. destruct o as [response|]; [|constructor].
  destruct (prop response f_data) as [data|]; cbn [rbind]; [|constructor].
  destruct (opt_prop data f_results) as [r|]; cbn [rbind]; [|constructor].
  destruct (unselected tags (or_else r (VArray []))) as [l|] eqn:E; [|constructor].
  apply (unselected_excludes _ _ E).
Qed.

Lemma run_searchTags (dir : request -> outcome) (tags : list TagData)
    (path query : jsstring) (w : world) :
  exists w' extra,
    run (fun q => Some (dir q)) (searchTags tags path query) w = (Finished tt, w') /\
    suggestions (ui w') =
      match searched path query with
      | Some q => published tags (dir (Get (search_url path q)))
      | None => []
      end /\
    log w' = log w ++
      match searched path query with
      | Some q => [Http (Get (search_url path q))]
      | None => []
      end ++ extra /\
    requests extra = [].
Proof.
  unfold searchTags, searched.
  destruct (nonempty query) eqn:Eq; cbn [negb orb andb].
  2:{ cbn [bind set run]. eexists _, []. split; [reflexivity|].
      cbn [with_ui ui suggestions setSuggestions setShowSuggestions log app].
      rewrite app_nil_r. auto. }
  replace (Nat.ltb (List.length query) 1) with false
    by (destruct query; [discriminate | reflexivity]).
  destruct (nonempty path) eqn:Ep; cbn [negb orb andb].
  2:{ cbn [bind set run]. eexists _, []. split; [reflexivity|].
      cbn [with_ui ui suggestions setSuggestions setShowSuggestions log app].
      rewrite app_nil_r. auto. }
  rewrite run_try_catch, run_bind, run_lift.
  destruct (encodeURIComponent query) as [q|e].
  2:{ cbn [bind set do_call run]. eexists _, [_]. split; [reflexivity|].
      cbn [with_ui with_log ui log suggestions setSuggestions app]. auto. }
  rewrite run_bind, run_await. unfold published, checkDropdownPosition.
  destruct (dir (Get (search_url path q))) as [response|reason].
  2:{ cbn [bind set do_call run]. eexists _, [_]. split; [reflexivity|].
      cbn [with_ui with_log ui log suggestions setSuggestions app].
      rewrite <- app_assoc. cbn [app]. auto. }
  rewrite run_bind, run_lift.
  destruct (prop response f_data) as [data|e1]; cbn [rbind].
  2:{ cbn [bind set do_call run]. eexists _, [_]. split; [reflexivity|].
      cbn [with_ui with_log ui log suggestions setSuggestions app].
      rewrite <- app_assoc. cbn [app]. auto. }
  rewrite run_bind, run_lift.
  destruct (opt_prop data f_results) as [res|e2]; cbn [rbind].
  2:{ cbn [bind set do_call run]. eexists _, [_]. split; [reflexivity|].
      cbn [with_ui with_log ui log suggestions setSuggestions app].
      rewrite <- app_assoc. cbn [app]. auto. }
  rewrite run_bind, run_lift.
  destruct (unselected tags (or_else res (VArray []))) as [filtered|e3].
  2:{ cbn [bind set do_call run]. eexists _, [_]. split; [reflexivity|].
      cbn [with_ui with_log ui log suggestions setSuggestions app].
      rewrite <- app_assoc. cbn [app]. auto. }
  cbn [bind set run].
  destruct (nonempty filtered); cbn [run]; [destruct (layout _); cbn [set run]|];
    eexists _, []; (split; [reflexivity|]);
    cbn [with_ui with_log ui log suggestions setSuggestions setShowSuggestions
         setSelectedIndex setDropdownFlip app]; rewrite ?app_nil_r; auto.
Qed.

(** X13. [searchTags] never throws: however the Tag Directory answers,
    it ends normally; and when the identifiers of the tags committed in
    the render that issued the search are primitives, the suggestions it
    leaves never include a tag whose [documentId] is that of a committed
    one. *)
Theorem searchTags_never_throws (dir : request -> outcome) (tags : list TagData)
    (path query : jsstring) (w : world) :
  exists w',
    run (fun q => Some (dir q)) (searchTags tags path query) w = (Finished tt, w') /\
    (primitive_ids tags = true ->
     Forall (fun s => selected tags (documentId s) = false) (suggestions (ui w'))).
Proof.
  destruct (run_searchTags dir tags path query w) as (w' & extra & E & Hs & _).
  exists w'. split; [exact E|]. intros _. rewrite Hs.
  destruct (searched path query); [apply published_excludes | constructor].
Qed.

(** X14. [searchTags] makes at most one request, to the search URL of
    the encoded query; it makes none when the query is empty, when
    [tagApiPath] is empty (the configuration not yet loaded) or when the
    query cannot be encoded, and then it leaves no suggestions. *)
Theorem searchTags_requests (dir : request -> outcome) (tags : list TagData)
    (path query : jsstring) (w : world) :
  let w' := snd (run (fun q => Some (dir q)) (searchTags tags path query) w) in
  requests (log w') =
    requests (log w) ++
    match searched path query with
    | Some q => [Get (search_url path q)]
    | None => []
    end /\
  (searched path query = None -> suggestions (ui w') = []) /\
  (query = [] \/ path = [] -> searched path query = None).
Proof.
  destruct (run_searchTags dir tags path query w) as (w' & extra & E & Hs & Hl & Hr).
  rewrite E. cbn [snd]. split; [|split].
  - rewrite Hl, !requests_app, Hr, app_nil_r.
    destruct (searched path query); reflexivity.
  - intros N. rewrite Hs, N. reflexivity.
  - unfold searched. intros [-> | ->]; [reflexivity|].
    rewrite andb_false_r. reflexivity.
Qed.

Lemma tag_object_fields (t : TagData) :
  prop (tag_object t) f_documentId = Ok (documentId t) /\
  prop (tag_object t) f_name = Ok (name t).
Proof. split; reflexivity. Qed.

Lemma unselected_tags (tags rs : list TagData) :
  unselected tags (tags_value rs) =
  Ok (filter (fun t => negb (selected tags (documentId t))) rs).
Proof.
  unfold unselected, tags_value.
  assert (F : filterM (fun t => rbind (prop t f_documentId) (fun id =>
                                Ok (negb (selected tags id)))) (map tag_object rs) =
              Ok (map tag_object
                    (filter (fun t => negb (selected tags (documentId t))) rs))).
  { induction rs as [|t rs IH]; [reflexivity|]. cbn [map filterM filter].
    destruct (tag_object_fields t) as [E _]. rewrite E, IH. cbn [rbind].
    destruct (negb (selected tags (documentId t))); reflexivity. }
  rewrite F. cbn [rbind]. clear F.
  induction (filter (fun t => negb (selected tags (documentId t))) rs) as [|t l IH];
    [reflexivity|].
  cbn [map mapM]. destruct (tag_object_fields t) as [E1 E2]. rewrite E1, E2, IH.
  cbn [rbind]. destruct t; reflexivity.
Qed.

(** X15. With committed tags whose identifiers are primitives, a search
    that the Tag Directory answers with records publishes those records
    as suggestions, in the Directory's order, without the ones whose
    [documentId] is committed; the dropdown is shown exactly when a
    suggestion is left, and no suggestion is highlighted. *)
Theorem search_publishes_unselected (dir : request -> outcome) (ts : list TagData)
    (path query q : jsstring) (rs : list TagData) (w : world) :
  primitive_ids ts = true ->
  searched path query = Some q ->
  dir (Get (search_url path q)) = Fulfilled (found rs) ->
  exists w',
    run (fun r => Some (dir r)) (searchTags ts path query) w = (Finished tt, w') /\
    suggestions (ui w') = filter (fun t => negb (selected ts (documentId t))) rs /\
    showSuggestions (ui w') = nonempty (suggestions (ui w')) /\
    selectedIndex (ui w') = (-1)%Z /\
    tags (ui w') = tags (ui w) /\ inputValue (ui w') = inputValue (ui w).
Proof.
  unfold searched, searchTags. intros _ Hs Hd.
  destruct (nonempty query) eqn:Eq; [|discriminate].
  destruct (nonempty path) eqn:Ep; [|discriminate]. cbn [andb negb orb] in *.
  replace (Nat.ltb (List.length query) 1) with false
    by (destruct query; [discriminate | reflexivity]).
  destruct (encodeURIComponent query) as [q'|]; [|discriminate].
  inversion Hs; subst q'. cbn [orb].
  assert (F : prop (found rs) f_data = Ok (VObject [(str "results", tags_value rs)]) /\
              opt_prop (VObject [(str "results", tags_value rs)]) f_results =
                Ok (tags_value rs) /\
              or_else (tags_value rs) (VArray []) = tags_value rs) by (repeat split).
  destruct F as (F1 & F2 & F3).
  rewrite run_try_catch, run_bind, run_lift, run_bind, run_await, Hd.
  rewrite run_bind, run_lift, F1, run_bind, run_lift, F2. cbv zeta. rewrite F3.
  rewrite run_bind, run_lift, unselected_tags. unfold checkDropdownPosition.
  cbn [bind set run].
  destruct (nonempty (filter _ rs)) eqn:En; cbn [run];
    [destruct (layout _); cbn [set run]|];
    eexists; (split; [reflexivity|]);
    cbn [with_ui with_log ui suggestions showSuggestions selectedIndex tags inputValue
         setSuggestions setShowSuggestions setSelectedIndex setDropdownFlip];
    rewrite En; auto.
Qed.

(** ** Resolving a name: the requests made *)

(** X16. Resolving a name makes no request, one search, or one search
    followed by one create request, never more; the create request is
    made only after a search that was answered with no match, and
    carries the trimmed name and its slug.  For a blank name or an
    empty [tagApiPath] the result is null and nothing at all happens. *)
Theorem findOrCreateTag_requests (dir : request -> outcome) (tags : list TagData)
    (path tagName : jsstring) (w : world) :
  exists s w' new,
    run (fun q => Some (dir q)) (findOrCreateTag tags path tagName) w = (s, w') /\
    requests (log w') = requests (log w) ++ new /\
    (new = [] \/
     exists q, encodeURIComponent (trim tagName) = Ok q /\
       (new = [Get (exact_url path q)] \/
        new = [Get (exact_url path q);
               Post path (create_body (trim tagName) (makeSlug (trim tagName)))] /\
        exists resp, dir (Get (exact_url path q)) = Fulfilled resp /\
                     has_match resp = Ok false)) /\
    (trim tagName = [] \/ path = [] -> s = Finished None /\ w' = w).
Proof.
  unfold findOrCreateTag.
  destruct (nonempty (trim tagName)) eqn:En; cbn [negb orb].
  2:{ exists (Finished None), w, []. cbn [run]. rewrite app_nil_r. auto. }
  destruct (nonempty path) eqn:Ep; cbn [negb orb].
  2:{ exists (Finished None), w, []. cbn [run]. rewrite app_nil_r. auto. }
  assert (Hne : trim tagName = [] \/ path = [] -> False).
  { intros [E | E]; rewrite E in *; discriminate. }
  rewrite run_bind, run_lift.
  destruct (findM (same_name (trim tagName)) tags) as [dup|e].
  2:{ eexists _, w, []. split; [reflexivity|]. rewrite app_nil_r.
      split; [reflexivity|]. split; [auto | intros H; destruct (Hne H)]. }
  destruct dup.
  { eexists _, w, []. cbn [run]. split; [reflexivity|]. rewrite app_nil_r.
    split; [reflexivity|]. split; [auto | intros H; destruct (Hne H)]. }
  cbn [bind set run]. rewrite run_try_finally, run_try_catch, run_bind, run_lift.
  destruct (encodeURIComponent (trim tagName)) as [q|e].
  2:{ cbn [bind set do_call run]. eexists _, _, []. split; [reflexivity|].
      cbn [with_ui with_log ui log]. rewrite requests_app.
      cbn [requests flat_map app]. split; [reflexivity|]. split; [auto | intros H; destruct (Hne H)]. }
  unfold has_match.
  repeat step_run.
  all: cbn [bind set do_call run with_ui with_log ui log rbind].
  all: eexists _, _, _; split; [reflexivity|].
  all: cbn [with_ui with_log ui log]; rewrite ?requests_app;
       cbn [requests flat_map]; rewrite <- ?app_assoc; cbn [app].
  all: split; [reflexivity|]; split; [|intros H; destruct (Hne H)].
  all: right; exists q; split; [reflexivity|].
  all: first [left; reflexivity | right; split; [reflexivity|]; eexists; split; [eassumption|]].
  all: repeat (match goal with H : _ = Ok _ |- _ => rewrite H end; cbn [rbind]).
  all: try reflexivity; try assumption.
Qed.

(** ** Resolving a name: how it can fail *)

Lemma findM_error (nm : jsstring) (ts : list TagData) (e : exn) :
  findM (same_name nm) ts = Error e -> e = TypeError /\ string_names ts = false.
Proof.
  unfold string_names. induction ts as [|t ts IH]; [discriminate|].
  cbn [findM forallb]. unfold same_name at 1.
  destruct (name t); cbn [call_toLowerCase rbind typeof_string andb];
    try (intros E; inversion E; auto; fail).
  destruct (jsstring_eqb _ _); [discriminate|]. exact IH.
Qed.

(** X17. [findOrCreateTag] can throw only a TypeError, only before it
    has made any request or changed any state, and only when the name
    of a committed tag is not a string; every failure of a request, of
    the encoding of the name or of the reading of a response is caught.
    With an answer to every request it never stays suspended. *)
Theorem findOrCreateTag_failure (dir : request -> outcome) (tags : list TagData)
    (path tagName : jsstring) (w : world) :
  match run (fun q => Some (dir q)) (findOrCreateTag tags path tagName) w with
  | (Finished _, _) => True
  | (Failed e, w') => e = TypeError /\ w' = w /\ string_names tags = false
  | (Waiting _ _, _) => False
  end.
Proof.
  unfold findOrCreateTag.
  destruct (negb (nonempty (trim tagName)) || negb (nonempty path)); [exact I|].
  rewrite run_bind, run_lift.
  destruct (findM (same_name (trim tagName)) tags) as [dup|e] eqn:E.
  2:{ destruct (findM_error _ _ E). auto. }
  destruct dup; [exact I|].
  cbn [bind set run]. rewrite run_try_finally, run_try_catch.
  repeat step_run; exact I.
Qed.

(** ** Resolving a name: the two ways to a tag *)

Lemma findM_absent (nm : jsstring) (ts : list TagData) :
  string_names ts = true -> present ts nm = false ->
  findM (same_name nm) ts = Ok false.
Proof.
  unfold string_names, present. induction ts as [|t ts IH]; [reflexivity|].
  cbn [forallb existsb findM]. intros Hs Hp.
  apply andb_prop in Hs. destruct Hs as [Hs1 Hs2].
  apply orb_false_iff in Hp. destruct Hp as [Hp1 Hp2].
  unfold same_name at 1. destruct (name t); try discriminate.
  cbn [call_toLowerCase rbind]. rewrite Hp1. auto.
Qed.

Lemma found_first (t : TagData) (rest : list TagData) :
  prop (found (t :: rest)) f_data = Ok (VObject [(str "results", tags_value (t :: rest))]) /\
  opt_prop (VObject [(str "results", tags_value (t :: rest))]) f_results =
    Ok (tags_value (t :: rest)) /\
  or_else (tags_value (t :: rest)) (VArray []) = tags_value (t :: rest) /\
  length_positive (tags_value (t :: rest)) = Ok true /\
  index0 (tags_value (t :: rest)) = Ok (tag_object t) /\
  prop (tag_object t) f_documentId = Ok (documentId t) /\
  prop (tag_object t) f_name = Ok (name t).
Proof. repeat split. Qed.

Lemma found_none :
  prop (found []) f_data = Ok (VObject [(str "results", tags_value [])]) /\
  opt_prop (VObject [(str "results", tags_value [])]) f_results = Ok (tags_value []) /\
  or_else (tags_value []) (VArray []) = tags_value [] /\
  length_positive (tags_value []) = Ok false.
Proof. repeat split. Qed.

(** X18. A name that the Tag Directory knows resolves to the
    Directory's record, with its [documentId] and its name in the
    Directory's spelling, by the one search request; nothing is
    created. *)
Theorem resolve_existing (dir : request -> outcome) (tags : list TagData)
    (path tagName q : jsstring) (t : TagData) (rest : list TagData) (w : world) :
  nonempty (trim tagName) = true -> nonempty path = true ->
  string_names tags = true -> present tags (trim tagName) = false ->
  encodeURIComponent (trim tagName) = Ok q ->
  dir (Get (exact_url path q)) = Fulfilled (found (t :: rest)) ->
  exists w',
    run (fun r => Some (dir r)) (findOrCreateTag tags path tagName) w =
      (Finished (Some t), w') /\
    requests (log w') = requests (log w) ++ [Get (exact_url path q)] /\
    isCreating (ui w') = false.
Proof.
  intros Hn Hp Hs Ha Hq Hd. unfold findOrCreateTag. rewrite Hn, Hp. cbn [negb orb].
  destruct (found_first t rest) as (F1 & F2 & F3 & F4 & F5 & F6 & F7).
  rewrite run_bind, run_lift, (findM_absent _ _ Hs Ha).
  cbn [bind set run]. rewrite run_try_finally, run_try_catch.
  rewrite run_bind, run_lift, Hq, run_bind, run_await, Hd.
  rewrite run_bind, run_lift, F1, run_bind, run_lift, F2. cbv zeta. rewrite F3.
  rewrite run_bind, run_lift, F4, run_bind, run_lift, F5.
  rewrite run_bind, run_lift, F6, run_bind, run_lift, F7.
  cbn [bind set run]. destruct t as [id n]. cbn [documentId name].
  eexists. split; [reflexivity|].
  cbn [with_ui with_log ui log isCreating setIsCreating].
  rewrite requests_app. auto.
Qed.

(** X19. A name that the Tag Directory does not know is created: after
    a search answered with no match, one create request carries the
    trimmed name and its slug, and the result is the created record,
    with its [documentId] and its name or, when the response has none,
    the trimmed name. *)
Theorem resolve_new (dir : request -> outcome) (tags : list TagData)
    (path tagName q : jsstring) (nested : bool) (t : TagData) (w : world) :
  nonempty (trim tagName) = true -> nonempty path = true ->
  string_names tags = true -> present tags (trim tagName) = false ->
  encodeURIComponent (trim tagName) = Ok q ->
  dir (Get (exact_url path q)) = Fulfilled (found []) ->
  dir (Post path (create_body (trim tagName) (makeSlug (trim tagName)))) =
    Fulfilled (created nested t) ->
  truthy (documentId t) = true ->
  exists w',
    run (fun r => Some (dir r)) (findOrCreateTag tags path tagName) w =
      (Finished (Some {| documentId := documentId t;
                         name := or_else (name t) (VString (trim tagName)) |}), w') /\
    requests (log w') =
      requests (log w) ++
      [Get (exact_url path q);
       Post path (create_body (trim tagName) (makeSlug (trim tagName)))] /\
    isCreating (ui w') = false.
Proof.
  intros Hn Hp Hs Ha Hq Hd Hc Hid. unfold findOrCreateTag. rewrite Hn, Hp. cbn [negb orb].
  destruct found_none as (F1 & F2 & F3 & F4).
  assert (C : exists d,
            prop (created nested t) f_data = Ok d /\
            exists dd, opt_prop d f_data = Ok dd /\ or_else dd d = tag_object t).
  { destruct nested; eexists; (split; [reflexivity|]); eexists; split; reflexivity. }
  destruct C as (d & C1 & dd & C2 & C3).
  assert (G : opt_prop (tag_object t) f_documentId = Ok (documentId t) /\
              prop (tag_object t) f_documentId = Ok (documentId t) /\
              prop (tag_object t) f_name = Ok (name t)) by (repeat split).
  destruct G as (G1 & G2 & G3).
  rewrite run_bind, run_lift, (findM_absent _ _ Hs Ha).
  cbn [bind set run]. rewrite run_try_finally, run_try_catch.
  rewrite run_bind, run_lift, Hq, run_bind, run_await, Hd.
  rewrite run_bind, run_lift, F1, run_bind, run_lift, F2. cbv zeta. rewrite F3.
  rewrite run_bind, run_lift, F4, run_bind, run_await, Hc.
  rewrite run_bind, run_lift, C1, run_bind, run_lift, C2. cbv zeta. rewrite C3.
  rewrite run_bind, run_lift, G1, Hid.
  rewrite run_bind, run_lift, G2, run_bind, run_lift, G3.
  cbn [bind set run].
  eexists. split; [reflexivity|].
  cbn [with_ui with_log ui log isCreating setIsCreating].
  rewrite !requests_app. cbn [requests flat_map]. rewrite <- app_assoc. auto.
Qed.

(** X20. A resolution commits over the set it started from: when the
    search of a resolution is answered with a match, the committed set
    becomes the set of the render in which Enter was pressed, with the
    found tag appended, and the host is told so; what was added or
    removed while the request was in flight is overwritten. *)
Theorem resolution_commits_over_stale_set (f : jsstring) (ts : list TagData)
    (path tagName : jsstring) (w0 w1 : world) (r : request) (k : outcome -> task unit)
    (m : machine) (i : nat) (t : TagData) (rest : list TagData) :
  run no_answer (addTag f ts path (inr tagName)) w0 = (Waiting r k, w1) ->
  nth_error (in_flight m) i = Some (r, k) ->
  let m' := step f m (Settled i (Fulfilled (found (t :: rest)))) in
  tags (ui (world_of m')) = ts ++ [t] /\
  notifications (log (world_of m')) =
    notifications (log (world_of m)) ++ [JSON_stringify (tags_value (ts ++ [t]))] /\
  in_flight m' = remove_nth i (in_flight m).
Proof.
  intros Hk Hi. unfold addTag, findOrCreateTag in Hk. rewrite run_bind in Hk.
  assert (N : forall w, run no_answer (addTag_commit f ts None) w <> (Waiting r k, w1)).
  { intros w. destruct (run_addTag_commit no_answer f ts None w) as (w' & E & _).
    rewrite E. discriminate. }
  destruct (negb (nonempty (trim tagName)) || negb (nonempty path)).
  { cbn [run] in Hk. destruct (N _ Hk). }
  rewrite run_bind, run_lift in Hk.
  destruct (findM (same_name (trim tagName)) ts) as [dup|e]; [|discriminate].
  destruct dup; [cbn [run] in Hk; destruct (N _ Hk)|].
  cbn [bind set run] in Hk.
  rewrite run_try_finally, run_try_catch, run_bind, run_lift in Hk.
  destruct (encodeURIComponent (trim tagName)) as [q|e].
  2:{ cbn [bind set do_call run] in Hk. destruct (N _ Hk). }
  rewrite run_bind in Hk. cbn [await run no_answer] in Hk.
  inversion Hk; subst r k w1; clear Hk.
  cbv zeta. cbn [step]. rewrite Hi. unfold resume. cbv beta.
  destruct (found_first t rest) as (F1 & F2 & F3 & F4 & F5 & F6 & F7).
  rewrite run_bind, run_try_finally, run_try_catch. cbn [bind].
  rewrite run_bind, run_lift, F1, run_bind, run_lift, F2. cbv zeta. rewrite F3.
  rewrite run_bind, run_lift, F4, run_bind, run_lift, F5.
  rewrite run_bind, run_lift, F6, run_bind, run_lift, F7.
  cbn [bind set run]. destruct t as [id n]. cbn [documentId name].
  match goal with |- context [run no_answer (addTag_commit f ts ?x) ?w] =>
    destruct (run_addTag_commit no_answer f ts x w) as (w' & E & Ht & Hn & _)
  end.
  rewrite E. cbn [settle_status world_of in_flight]. rewrite Ht, Hn.
  cbn [with_ui ui log]. auto.
Qed.

(** ** The URLs of the requests *)

Lemma HEX_digit_safe (d : N) : (d < 16)%N -> url_safe (HEX_digit d) = true.
Proof.
  intros H. unfold url_safe, uri_unreserved, HEX_digit.
  destruct (N.ltb d 10) eqn:E; [apply N.ltb_lt in E | apply N.ltb_ge in E].
  - replace (is_digit (48 + d)) with true; [apply orb_true_iff; left; 
      rewrite !orb_true_r; reflexivity|].
    symmetry. unfold is_digit, in_range. apply andb_true_iff.
    split; apply N.leb_le; lia.
  - replace (in_range 65 90 (55 + d)) with true; [reflexivity|].
    symmetry. unfold in_range. apply andb_true_iff. split; apply N.leb_le; lia.
Qed.

Lemma percent_safe (byte : N) : (byte < 256)%N -> forallb url_safe (percent byte) = true.
Proof.
  intros H. unfold percent. cbn [forallb].
  rewrite !HEX_digit_safe.
  - reflexivity.
  - apply N.mod_lt. discriminate.
  - apply N.Div0.div_lt_upper_bound. exact H.
Qed.

Lemma percent_utf8_safe (cp : N) :
  (cp < 1114112)%N -> forallb url_safe (percent_utf8 cp) = true.
Proof.
  intros H. unfold percent_utf8.
  assert (M : forall a, (128 + a mod 64 < 256)%N).
  { intros a. pose proof (N.mod_lt a 64). lia. }
  destruct (N.ltb cp 128) eqn:E1; [apply N.ltb_lt in E1; apply percent_safe; lia|].
  destruct (N.ltb cp 2048) eqn:E2.
  { apply N.ltb_lt in E2. rewrite forallb_app, !percent_safe; auto.
    assert (cp / 64 < 32)%N by (apply N.Div0.div_lt_upper_bound; lia). lia. }
  destruct (N.ltb cp 65536) eqn:E3.
  { apply N.ltb_lt in E3. rewrite !forallb_app, !percent_safe; auto.
    assert (cp / 4096 < 16)%N by (apply N.Div0.div_lt_upper_bound; lia). lia. }
  rewrite !forallb_app, !percent_safe; auto.
  assert (cp / 262144 < 5)%N by (apply N.Div0.div_lt_upper_bound; lia). lia.
Qed.

Lemma encodeURIComponent_safe (n : nat) :
  forall s q, (List.length s <= n)%nat -> code_units s = true ->
  encodeURIComponent s = Ok q -> forallb url_safe q = true.
Proof.
  unfold code_units.
  induction n as [|n IH]; intros s q Hn Hs E.
  - destruct s; [inversion E; reflexivity | simpl in Hn; lia].
  - destruct s as [|c rest]; [inversion E; reflexivity|].
    simpl in Hn. cbn [forallb] in Hs. apply andb_prop in Hs. destruct Hs as [Hc Hs].
    apply N.ltb_lt in Hc. cbn [encodeURIComponent] in E.
    destruct (uri_unreserved c) eqn:Eu.
    { destruct (encodeURIComponent rest) as [r|] eqn:Er; [|discriminate].
      cbn [rbind] in E. inversion E; subst. cbn [forallb]. unfold url_safe at 1.
      rewrite Eu. apply (IH rest r); auto. lia. }
    destruct (is_low_surrogate c); [discriminate|].
    destruct (is_high_surrogate c) eqn:Eh.
    + destruct rest as [|l rest']; [discriminate|].
      destruct (is_low_surrogate l) eqn:El; [|discriminate].
      destruct (encodeURIComponent rest') as [r|] eqn:Er; [|discriminate].
      cbn [rbind] in E. inversion E; subst.
      cbn [forallb] in Hs. apply andb_prop in Hs. destruct Hs as [_ Hs].
      rewrite forallb_app, (IH rest' r); auto; [|simpl in Hn; lia].
      rewrite percent_utf8_safe; [reflexivity|].
      unfold code_point, is_high_surrogate, is_low_surrogate, in_range in *.
      apply andb_prop in Eh, El. destruct Eh as [Eh1 Eh2]. destruct El as [El1 El2].
      apply N.leb_le in Eh1, Eh2, El1, El2. lia.
    + destruct (encodeURIComponent rest) as [r|] eqn:Er; [|discriminate].
      cbn [rbind] in E. inversion E; subst.
      rewrite forallb_app, (IH rest r); auto; [|lia].
      rewrite percent_utf8_safe; [reflexivity | lia].
Qed.

(** X21. The text of a query reaches the Tag Directory percent-encoded:
    in the URL of a search and in that of an exact-name search, what
    stands for the text holds only unreserved characters and percent
    signs, so that no character of the text is read as a delimiter of
    the URL. *)
Theorem queries_are_encoded (path query tagName : jsstring) :
  code_units query = true -> code_units tagName = true ->
  (forall q, searched path query = Some q -> forallb url_safe q = true) /\
  (forall q, encodeURIComponent (trim tagName) = Ok q -> forallb url_safe q = true).
Proof.
  intros Hq Hn. split; intros q.
  - unfold searched. destruct (_ && _); [|discriminate].
    destruct (encodeURIComponent query) as [q'|] eqn:E; [|discriminate].
    intros H. inversion H; subst.
    eapply encodeURIComponent_safe; [apply le_n | exact Hq | exact E].
  - intros E. eapply encodeURIComponent_safe; [apply le_n | | exact E].
    unfold code_units in *. apply forallb_forall, Forall_forall.
    apply Forall_trim. apply Forall_forall, forallb_forall. exact Hn.
Qed.

(** ** The keyboard *)

Lemma key_is_eq (key : jsstring) (k : string) : key_is key k = true -> key = str k.
Proof. apply jsstring_eqb_eq. Qed.

(** X22. Enter (or the comma) while a suggestion is highlighted, whose
    [documentId] is a primitive, commits that suggestion at once: no
    request goes to the Tag Directory, the host is notified once, and
    the draft text, whatever it was, is discarded.  If the suggestion's
    [documentId] is already committed, only the key's default action is
    prevented. *)
Theorem enter_takes_highlighted (answer : request -> option outcome) (f v : jsstring)
    (i : Z) (sugg ts : list TagData) (path key : jsstring) (s : TagData) (w : world) :
  key_is key "Enter" || key_is key "," = true ->
  (0 <= i)%Z -> nth_error sugg (Z.to_nat i) = Some s ->
  primitive (documentId s) = true ->
  exists w',
    run answer (handleKeyDown f v i sugg ts path key) w = (Finished tt, w') /\
    requests (log w') = requests (log w) /\
    if existsb (fun x => strict_equals (documentId x) (documentId s)) ts
    then w' = with_log PreventDefault w
    else tags (ui w') = ts ++ [s] /\ inputValue (ui w') = [] /\
         suggestions (ui w') = [] /\ showSuggestions (ui w') = false /\
         notifications (log w') =
           notifications (log w) ++ [JSON_stringify (tags_value (ts ++ [s]))].
Proof.
  intros Hk Hi Hs _. unfold handleKeyDown. rewrite Hk.
  assert (Hlt : (Z.to_nat i < List.length sugg)%nat)
    by (apply nth_error_Some; rewrite Hs; discriminate).
  replace (Z.leb 0 i) with true by (symmetry; apply Z.leb_le; lia).
  replace (Z.ltb i (Z.of_nat (List.length sugg))) with true
    by (symmetry; apply Z.ltb_lt; lia).
  cbn [andb]. rewrite Hs. unfold addTag.
  destruct (existsb _ ts).
  - cbn [bind do_call run]. eexists. split; [reflexivity|].
    cbn [with_log log]. rewrite requests_app. cbn [requests flat_map].
    rewrite app_nil_r. auto.
  - unfold addTag_commit, updateValue. cbn [bind set do_call run].
    eexists. split; [reflexivity|].
    cbn [with_log with_ui ui log tags inputValue suggestions showSuggestions
         setTags setInputValue setSuggestions setShowSuggestions setHasUserEdited].
    rewrite !requests_app, !notifications_app. cbn [requests notifications flat_map app].
    rewrite !app_nil_r. repeat split.
Qed.

Lemma step_arrow (f : jsstring) (m : machine) (key : jsstring) :
  arrow key = true ->
  let st := ui (world_of m) in
  step f m (KeyPressed key) =
  {| world_of :=
       with_ui (setSelectedIndex (fun prev =>
                  if key_is key "ArrowDown"
                  then Z.min (prev + 1) (Z.of_nat (List.length (suggestions st)) - 1)
                  else Z.max (prev - 1) (-1)))
               (with_log PreventDefault (world_of m));
     in_flight := in_flight m |}.
Proof.
  intros Hk. unfold arrow in Hk. cbn [step]. unfold handleKeyDown.
  apply orb_true_iff in Hk. destruct Hk as [Hk | Hk]; apply key_is_eq in Hk; subst key.
  - reflexivity.
  - reflexivity.
Qed.

(** X23. The arrow keys keep the highlighted index within bounds: from
    an index between -1 (nothing highlighted) and the last suggestion,
    any sequence of ArrowDown and ArrowUp leaves it in that range (the
    keys stop at the ends, they do not wrap around), changes neither
    the suggestions nor the committed set, and makes no request. *)
Theorem arrows_stay_in_range (f : jsstring) (keys : list jsstring) :
  forall m : machine,
  forallb arrow keys = true ->
  (-1 <= selectedIndex (ui (world_of m))
      < Z.of_nat (List.length (suggestions (ui (world_of m)))))%Z ->
  let m' := steps f m (map KeyPressed keys) in
  (-1 <= selectedIndex (ui (world_of m'))
      < Z.of_nat (List.length (suggestions (ui (world_of m')))))%Z /\
  suggestions (ui (world_of m')) = suggestions (ui (world_of m)) /\
  tags (ui (world_of m')) = tags (ui (world_of m)) /\
  requests (log (world_of m')) = requests (log (world_of m)) /\
  notifications (log (world_of m')) = notifications (log (world_of m)).
Proof.
  induction keys as [|key keys IH]; intros m Hk Hi; [cbn; auto|].
  cbn [forallb] in Hk. apply andb_prop in Hk. destruct Hk as [Hk Hks].
  cbn [map]. rewrite steps_cons, (step_arrow f m key Hk). cbv zeta.
  match goal with |- context [steps f ?m1 _] => specialize (IH m1 Hks) end.
  cbn [world_of with_ui with_log ui log selectedIndex suggestions tags setSelectedIndex]
    in IH.
  rewrite requests_app, notifications_app in IH. cbn [requests notifications flat_map] in IH.
  rewrite !app_nil_r in IH. apply IH.
  destruct (key_is key "ArrowDown"); lia.
Qed.

(** ** Backspace *)

(** X24. Backspace touches the committed set only when the draft is
    empty and the set is not: with text in the draft, or with nothing
    committed, it changes nothing at all.  With an empty draft it
    removes the last committed tag, and that tag alone when no other
    committed tag has its [documentId] (and the [documentId] equals
    itself, as every value but NaN does); the host is notified once. *)
Theorem backspace_removes_the_last (f : jsstring) (m : machine) :
  let st := ui (world_of m) in
  let m' := step f m (KeyPressed (str "Backspace")) in
  (nonempty (inputValue st) = true \/ tags st = [] -> m' = m) /\
  (forall ts last,
     inputValue st = [] -> tags st = ts ++ [last] ->
     strict_equals (documentId last) (documentId last) = true ->
     existsb (fun t => strict_equals (documentId t) (documentId last)) ts = false ->
     tags (ui (world_of m')) = ts /\
     notifications (log (world_of m')) =
       notifications (log (world_of m)) ++ [JSON_stringify (tags_value ts)] /\
     in_flight m' = in_flight m).
Proof.
  cbv zeta. destruct m as [w fl]. cbn [step world_of]. split.
  - intros H. unfold handleKeyDown.
    change (key_is (str "Backspace") "Enter") with false.
    change (key_is (str "Backspace") ",") with false.
    change (key_is (str "Backspace") "Backspace") with true.
    change (key_is (str "Backspace") "ArrowDown") with false.
    change (key_is (str "Backspace") "ArrowUp") with false.
    change (key_is (str "Backspace") "Escape") with false.
    cbn [orb andb].
    replace (negb (nonempty (inputValue (ui w))) && Nat.ltb 0 (List.length (tags (ui w))))
      with false; [reflexivity|].
    destruct H as [H | H]; rewrite H; [reflexivity|].
    symmetry. apply andb_false_r.
  - intros ts last Hv Ht Hself Hothers. rewrite Hv, Ht. unfold exec. cbn [world_of in_flight].
    destruct (backspace_removes_last no_answer f (selectedIndex (ui w))
                (suggestions (ui w)) ts last (tagApiPath (ui w)) w Hself Hothers)
      as (w' & E & H1 & H2).
    rewrite E. cbn [settle_status world_of in_flight]. auto.
Qed.

(** ** Adding and removing, one after the other *)

(** X25. Clicking a suggestion and then the cross on its chip gives back
    the committed set as it was, and the host is notified twice, of the
    grown set and then of the original one.  (The tag's [documentId]
    must be new to the set, and equal to itself as every value but NaN
    is.) *)
Theorem add_then_remove (f : jsstring) (m : machine) (t : TagData) :
  strict_equals (documentId t) (documentId t) = true ->
  existsb (fun x => strict_equals (documentId x) (documentId t))
          (tags (ui (world_of m))) = false ->
  let ts := tags (ui (world_of m)) in
  let m' := steps f m [SuggestionClicked t; RemoveClicked (documentId t)] in
  tags (ui (world_of m')) = ts /\
  notifications (log (world_of m')) =
    notifications (log (world_of m)) ++
    [JSON_stringify (tags_value (ts ++ [t])); JSON_stringify (tags_value ts)] /\
  in_flight m' = in_flight m.
Proof.
  intros Hself Hnew. cbv zeta. unfold steps. cbn [fold_left step].
  unfold addTag. rewrite Hnew. unfold addTag_commit, removeTag, updateValue, exec.
  cbn [bind set do_call run settle_status world_of in_flight with_ui with_log ui log tags
       setTags setInputValue setSuggestions setShowSuggestions setHasUserEdited].
  rewrite filter_app, (filter_absent _ _ Hnew). cbn [filter]. rewrite Hself.
  cbn [negb]. rewrite app_nil_r, !notifications_app.
  cbn [notifications flat_map app]. rewrite !app_nil_r, <- !app_assoc. auto.
Qed.

(** X26. Clicking the same suggestion twice commits it once: the second
    click changes nothing at all. *)
Theorem click_twice (f : jsstring) (m : machine) (t : TagData) :
  strict_equals (documentId t) (documentId t) = true ->
  steps f m [SuggestionClicked t; SuggestionClicked t] = steps f m [SuggestionClicked t].
Proof.
  intros Hself. unfold steps. cbn [fold_left].
  set (m1 := step f m (SuggestionClicked t)).
  assert (H1 : existsb (fun x => strict_equals (documentId x) (documentId t))
                 (tags (ui (world_of m1))) = true).
  { subst m1. cbn [step]. unfold addTag.
    destruct (existsb _ (tags (ui (world_of m)))) eqn:E; [exact E|].
    unfold addTag_commit, updateValue, exec.
    cbn [bind set do_call run settle_status world_of with_ui with_log ui tags
         setTags setInputValue setSuggestions setShowSuggestions setHasUserEdited].
    rewrite existsb_app. cbn [existsb]. rewrite Hself. apply orb_true_r. }
  clearbody m1. destruct m1 as [w1 fl1]. cbn [step world_of] in *.
  unfold addTag. rewrite H1. reflexivity.
Qed.

(** ** Invariants of the event loop *)

(** A property [J] of the world and a class [good] of handlers hold of
    every machine reached, when the handlers of the events and the
    callbacks of the timers are in [good], and a handler in [good] keeps
    [J] and leaves at a request a rest that is in [good]. *)
Section Invariant.
Variable J : world -> Prop.
Variable good : task unit -> Prop.
Hypothesis J_unhandled : forall w e, J w -> J (with_log (Unhandled e) w).
Hypothesis J_now : forall w t, J w -> J (with_now t w).
Hypothesis J_pop : forall w t x rest,
  J w -> pop_due t (timers w) = Some (x, rest) ->
  J (with_now (Z.max (now w) (snd (fst x))) (with_timers rest w)).
Hypothesis good_run : forall t w s w',
  good t -> J w -> run no_answer t w = (s, w') ->
  J w' /\ match s with Waiting _ k => forall o, good (k o) | _ => True end.
Hypothesis good_handler : forall f w e t,
  J w -> handler_of f (ui w) e = Some t -> good t.
Hypothesis good_callback : forall w t x rest,
  J w -> pop_due t (timers w) = Some (x, rest) ->
  good (Call (TimerFired (snd x)) (run_callback (snd x))).

Lemma safe_settle (t : task unit) (w : world) (waiting : list suspended) :
  good t -> J w ->
  Forall (fun rk : suspended => forall o, good (snd rk o)) waiting ->
  safe J good (settle_status (run no_answer t w) waiting).
Proof.
  intros Ht Hw Hfl. destruct (run no_answer t w) as [s w'] eqn:E.
  destruct (good_run Ht Hw E) as [Hw' Hk].
  destruct s as [a|e|r k]; cbn [settle_status]; split; cbn [world_of in_flight]; auto.
  apply Forall_app. split; [exact Hfl|]. constructor; [exact Hk | constructor].
Qed.

Lemma safe_exec (t : task unit) (m : machine) :
  good t -> safe J good m -> safe J good (exec t m).
Proof. intros Ht [Hw Hfl]. apply safe_settle; assumption. Qed.

Lemma safe_fire (n : nat) (t : Z) :
  forall m, safe J good m -> safe J good (fire n t m).
Proof.
  induction n as [|n IH]; intros m Hm; cbn [fire]; [exact Hm|].
  destruct (pop_due t (timers (world_of m))) as [[[[id due] cb] rest]|] eqn:E; [|exact Hm].
  destruct Hm as [Hw Hfl].
  apply IH. apply safe_exec; [exact (good_callback t Hw E)|].
  split; cbn [world_of in_flight]; [|exact Hfl].
  exact (J_pop t Hw E).
Qed.

Lemma Forall_remove_nth {A} (Q : A -> Prop) (i : nat) :
  forall l : list A, Forall Q l -> Forall Q (remove_nth i l).
Proof.
  induction i as [|i IH]; intros l H; destruct H; cbn [remove_nth];
    try constructor; auto.
Qed.

Lemma safe_step (f : jsstring) (m : machine) (e : event) :
  safe J good m -> safe J good (step f m e).
Proof.
  intros Hm. pose proof Hm as [Hw Hfl].
  destruct e as [v|text|key|id|t|ms|i o]; cbn [step].
  - apply safe_exec; [|exact Hm].
    apply good_handler with (f := f) (w := world_of m) (e := ValueChanged v); auto.
  - apply safe_exec; [|exact Hm].
    apply good_handler with (f := f) (w := world_of m) (e := InputChanged text); auto.
  - apply safe_exec; [|exact Hm].
    apply good_handler with (f := f) (w := world_of m) (e := KeyPressed key); auto.
  - apply safe_exec; [|exact Hm].
    apply good_handler with (f := f) (w := world_of m) (e := RemoveClicked id); auto.
  - apply safe_exec; [|exact Hm].
    apply good_handler with (f := f) (w := world_of m) (e := SuggestionClicked t); auto.
  - destruct (safe_fire (List.length (timers (world_of m)))
                (now (world_of m) + Z.max 0 ms) Hm) as [Hw' Hfl'].
    split; cbn [world_of in_flight]; auto.
  - destruct (nth_error (in_flight m) i) as [[r k]|] eqn:E; [|exact Hm].
    unfold resume. apply safe_settle; [|exact Hw|apply Forall_remove_nth, Hfl].
    rewrite Forall_forall in Hfl. apply (Hfl (r, k)). apply (nth_error_In _ _ E).
Qed.

Lemma safe_steps (f : jsstring) (es : list event) :
  forall m, safe J good m -> safe J good (steps f m es).
Proof.
  induction es as [|e es IH]; intros m Hm; [exact Hm|].
  rewrite steps_cons. apply IH, safe_step, Hm.
Qed.

End Invariant.

(** A handler within a policy keeps every property of the world that
    the updates, calls, requests and timers of the policy keep, and so
    does what is left of it at a request. *)
Section Within.
Variable p : policy.
Variable J : world -> Prop.
Hypothesis J_set : forall f w, okS p f -> J w -> J (with_ui f w).
Hypothesis J_call : forall c w, okC p c -> J w -> J (with_log c w).
Hypothesis J_http : forall r w, okR p r -> J w -> J (with_log (Http r) w).
Hypothesis J_add : forall cb d w, okCb p cb -> J w -> J (snd (add_timer cb d w)).
Hypothesis J_clear : forall id w, okClear p -> J w -> J (clear_timer id w).

Lemma within_run {A} (answer : request -> option outcome) (t : task A) :
  within p t ->
  forall w s w', J w -> run answer t w = (s, w') ->
  J w' /\ match s with Waiting _ k => forall o, within p (k o) | _ => True end.
Proof.
  induction 1 as [a|e|f k Hf _ IH|k _ IH|c k Hc _ IH|r k Hr Hk IH|cb d k Ht _ IH
                 |id k Ht _ IH|k _ IH];
    intros w s w' Hw E; cbn [run] in E.
  - inversion E; subst; auto.
  - inversion E; subst; auto.
  - apply IH in E; auto.
  - apply IH in E; auto.
  - apply IH in E; auto.
  - destruct (answer r).
    + apply IH in E; auto.
    + inversion E; subst. auto.
  - pose proof (J_add cb d Ht Hw) as Ha. destruct (add_timer cb d w) as [id w1].
    apply IH in E; auto.
  - apply IH in E; auto.
  - apply IH in E; auto.
Qed.

End Within.

Lemma within_bind (p : policy) {A B} (t : task A) (f : A -> task B) :
  within p t -> (forall a, within p (f a)) -> within p (bind t f).
Proof.
  intros Ht Hf. induction Ht; cbn [bind]; try (constructor; auto); auto.
Qed.

Lemma within_try_catch (p : policy) {A} (t : task A) (h : exn -> task A) :
  within p t -> (forall e, within p (h e)) -> within p (try_catch t h).
Proof.
  intros Ht Hh. induction Ht; cbn [try_catch]; try (constructor; auto); auto.
Qed.

Lemma within_try_finally (p : policy) {A} (t : task A) (f : task unit) :
  within p t -> within p f -> within p (try_finally t f).
Proof.
  intros Ht Hf. induction Ht; cbn [try_finally]; try (constructor; auto).
  - apply within_bind; [exact Hf | intros; constructor].
  - apply within_bind; [exact Hf | intros; constructor].
Qed.

Lemma within_lift (p : policy) {A} (r : result A) : within p (lift r).
Proof. destruct r; constructor. Qed.

(** The handlers of the component, policy by policy. *)

Ltac be_within tac :=
  repeat first
  [ progress intros
  | apply within_bind; [| intros ]
  | apply within_try_catch; [| intros ]
  | apply within_try_finally
  | apply within_lift
  | match goal with
    | |- within _ (if ?b then _ else _) => destruct b
    | |- within _ (match ?x with _ => _ end) => destruct x
    | |- within _ (set _) => unfold set
    | |- within _ (do_call _) => unfold do_call
    | |- within _ (await _) => unfold await
    | |- within _ (Return _) => constructor
    | |- within _ (Throw _) => constructor
    | |- within _ (SetState _ _) => constructor; [solve [tac] |]
    | |- within _ (GetState _) => constructor
    | |- within _ (Call _ _) => constructor; [solve [tac] |]
    | |- within _ (Await _ _) => constructor; [solve [tac] |]
    | |- within _ (Measure _) => constructor
    | |- within _ (SetTimeout _ _ _) => constructor; [solve [tac] |]
    | |- within _ (ClearTimeout _ _) => constructor; [solve [tac] |]
    end ].

Ltac unfold_handlers :=
  unfold handleKeyDown, addTag, addTag_commit, removeTag, updateValue, findOrCreateTag,
    run_callback, searchTags, checkDropdownPosition, handleInputChange, initialize.

Ltac latch_ok := cbn; first [exact I | intros ? ?; first [assumption | reflexivity]].
Ltac ref_ok := cbn; first [exact I | intros ?; reflexivity].
Ltac aim_ok := cbn; first [exact I | reflexivity | intros ?; reflexivity | eexists; auto].

Lemma latch_handler (f : jsstring) (st : state) (e : event) (t : task unit) :
  handler_of f st e = Some t -> within latch_policy t.
Proof.
  destruct e; cbn [handler_of]; intros E; inversion E; subst; clear E;
    unfold_handlers; be_within latch_ok.
Qed.

Lemma latch_callback (cb : callback) :
  within latch_policy (Call (TimerFired cb) (run_callback cb)).
Proof. unfold_handlers. be_within latch_ok. Qed.

Lemma timerless_handler (f : jsstring) (st : state) (e : event) (t : task unit) :
  handler_of f st e = Some t ->
  match e with InputChanged _ => True | _ => within timerless t end.
Proof.
  destruct e; cbn [handler_of]; intros E; inversion E; subst; clear E; auto;
    unfold_handlers; be_within ref_ok.
Qed.

Lemma timerless_callback (cb : callback) :
  within timerless (Call (TimerFired cb) (run_callback cb)).
Proof. unfold_handlers. be_within ref_ok. Qed.

Lemma aimed_handler (f : jsstring) (st : state) (e : event) (t : task unit) :
  handler_of f st e = Some t -> within (directory_only (tagApiPath st)) t.
Proof.
  destruct e; cbn [handler_of]; intros E; inversion E; subst; clear E;
    unfold_handlers; be_within aim_ok.
Qed.

Lemma aimed_callback (cb : callback) :
  within (directory_only (cb_tagApiPath cb)) (Call (TimerFired cb) (run_callback cb)).
Proof. unfold_handlers. be_within aim_ok. Qed.

(** *** The edit latch *)

Lemma latch_safe (f : jsstring) (J : world -> Prop) (es : list event) (m : machine) :
  (J = (fun _ => True) \/ J = (fun w => hasUserEdited (ui w) = true)) ->
  safe J (within latch_policy) m ->
  safe J (within latch_policy) (steps f m es).
Proof.
  intros HJ. apply safe_steps.
  - destruct HJ; subst J; auto.
  - destruct HJ; subst J; auto.
  - destruct HJ; subst J; auto.
  - intros t w s w' Ht Hw E.
    refine (@within_run latch_policy J _ _ _ _ _ unit no_answer t Ht w s w' Hw E);
      destruct HJ; subst J; cbn; auto.
  - intros f0 w e t _ E. eapply latch_handler, E.
  - intros w t x rest _ _. apply latch_callback.
Qed.

(** X27. The edit latch is permanent: once the user has edited, no
    later event (no edit, key, click, timer or response) lowers it, and
    from then on a new [value] prop changes nothing at all. *)
Theorem edit_latch_is_permanent (f path : jsstring) (es1 es2 : list event) (v : value) :
  let m1 := steps f (mounted path) es1 in
  hasUserEdited (ui (world_of m1)) = true ->
  let m2 := steps f m1 es2 in
  hasUserEdited (ui (world_of m2)) = true /\ step f m2 (ValueChanged v) = m2.
Proof.
  intros m1 H1 m2.
  assert (S1 : safe (fun _ => True) (within latch_policy) m1).
  { apply latch_safe; [auto|]. split; [exact I | constructor]. }
  assert (S2 : safe (fun w => hasUserEdited (ui w) = true) (within latch_policy) m2).
  { apply latch_safe; [auto|]. split; [exact H1 | apply S1]. }
  destruct S2 as [H2 _]. split; [exact H2|].
  destruct m2 as [w2 fl2]. cbn [world_of] in H2.
  unfold step, exec, initialize. cbn [world_of in_flight run]. rewrite H2. reflexivity.
Qed.

(** *** The debounce timer *)

Lemma pop_due_single (t : Z) (x y : timer) (rest : list timer) :
  pop_due t [x] = Some (y, rest) -> rest = [].
Proof.
  cbn [pop_due]. destruct (Z.leb (snd (fst x)) t); [|discriminate].
  intros E. inversion E. reflexivity.
Qed.

Lemma one_timer_run (t : task unit) (w : world) (s : status unit) (w' : world) :
  within timerless t \/ (exists ts p x, t = handleInputChange ts p x) ->
  one_timer w -> run no_answer t w = (s, w') ->
  one_timer w' /\
  match s with
  | Waiting _ k =>
      forall o, within timerless (k o) \/ (exists ts p x, k o = handleInputChange ts p x)
  | _ => True
  end.
Proof.
  intros [Ht | (ts & p & x & ->)] Hw E.
  - assert (R : (timers w' = timers w /\ debounceRef (ui w') = debounceRef (ui w)) /\
                match s with
                | Waiting _ k => forall o, within timerless (k o)
                | _ => True
                end).
    { refine (@within_run timerless
                (fun b => timers b = timers w /\ debounceRef (ui b) = debounceRef (ui w))
                _ _ _ _ _ unit no_answer t Ht w s w' _ E); cbn; auto; try tauto.
      intros f0 w0 Hf [H1 H2]. rewrite Hf. auto. }
    destruct R as [[E1 E2] E3]. split.
    + unfold one_timer, debounced in *. cbn [world_of] in *. rewrite E1, E2. exact Hw.
    + destruct s; auto.
  - unfold one_timer, debounced in *. cbn [world_of] in *.
    destruct w as [st t0 tm nx ly lg]. cbn [timers ui] in Hw.
    unfold handleInputChange in E.
    cbn [bind set run with_ui ui setInputValue debounceRef] in E.
    destruct (debounceRef st) as [id|] eqn:Ed.
    + cbn [bind set run clear_timer with_timers timers ui now next_timer layout log
           add_timer with_ui setDebounceRef setInputValue] in E.
      destruct tm as [|[[id0 d0] cb0] [|? ?]]; [| |contradiction].
      * inversion E; subst. split; [reflexivity | exact I].
      * inversion Hw; subst id0. cbn [filter fst] in E. rewrite Nat.eqb_refl in E.
        cbn [negb app] in E. inversion E; subst. split; [reflexivity | exact I].
    + destruct tm as [|[[id0 d0] cb0] [|? ?]]; [|discriminate|contradiction].
      cbn [bind set run add_timer with_ui ui now timers next_timer layout log app
           setDebounceRef setInputValue] in E.
      inversion E; subst. split; [reflexivity | exact I].
Qed.

(** X28. At every moment at most one debounce timer is pending, and it
    is the one [debounceRef] holds: whatever the events since mount,
    every edit has cleared the timer of the edit before it. *)
Theorem at_most_one_timer (f path : jsstring) (es : list event) :
  debounced (steps f (mounted path) es).
Proof.
  assert (S : safe one_timer
                (fun t => within timerless t \/
                          (exists ts p x, t = handleInputChange ts p x))
                (steps f (mounted path) es)).
  { apply safe_steps.
    - intros w e H. exact H.
    - intros w t H. exact H.
    - intros w t x rest H E. unfold one_timer, debounced in *. cbn [world_of] in *.
      cbn [with_now with_timers timers ui].
      destruct (timers w) as [|[[i0 d0] c0] [|z tl]]; [discriminate | | destruct H].
      apply pop_due_single in E. rewrite E. exact I.
    - intros t w s w' Ht Hw E. eapply one_timer_run; eassumption.
    - intros f0 w e t _ E. pose proof E as H. apply timerless_handler in H.
      destruct e; auto. right. cbn [handler_of] in E. inversion E. eauto.
    - intros w t x rest _ _. left. apply timerless_callback.
    - split; [exact I | constructor]. }
  destruct S as [S _]. exact S.
Qed.

(** *** What the field host holds *)

Lemma quiet_synced {A} (t : task A) : quiet t -> synced t.
Proof. induction 1; constructor; auto. Qed.

Lemma synced_bind {A B} (t : task A) (f : A -> task B) :
  synced t -> (forall a, synced (f a)) -> synced (bind t f).
Proof.
  intros Ht Hf.
  induction Ht; cbn [bind]; try (apply synced_update; auto; fail);
    try (constructor; auto; fail); auto.
Qed.

Lemma synced_updateValue (f : jsstring) (ts : list TagData) : synced (updateValue f ts).
Proof. unfold updateValue, set, do_call. cbn [bind]. apply synced_update. constructor. Qed.

Lemma synced_addTag_commit (f : jsstring) (ts : list TagData) (r : option TagData) :
  synced (addTag_commit f ts r).
Proof.
  unfold addTag_commit. apply synced_bind.
  - destruct r; [apply synced_updateValue | constructor].
  - intros _. apply quiet_synced. be_quiet.
Qed.

Lemma synced_addTag (f : jsstring) (ts : list TagData) (path : jsstring)
    (x : TagData + jsstring) :
  synced (addTag f ts path x).
Proof.
  unfold addTag. destruct x as [t|tagName].
  - destruct (existsb _ ts); [constructor | apply synced_addTag_commit].
  - apply synced_bind; [apply quiet_synced, quiet_findOrCreateTag|].
    intros r. apply synced_addTag_commit.
Qed.

Lemma synced_handleKeyDown (f v : jsstring) (i : Z) (sugg ts : list TagData)
    (path key : jsstring) :
  synced (handleKeyDown f v i sugg ts path key).
Proof.
  unfold handleKeyDown.
  destruct (key_is key "Enter" || key_is key ",").
  { apply synced_bind; [apply quiet_synced; be_quiet|]. intros _.
    destruct (_ && _).
    - destruct (nth_error sugg _); [apply synced_addTag | constructor].
    - destruct (nonempty _); [apply synced_addTag | constructor]. }
  destruct (_ && _).
  { destruct (nth_error ts _); [apply synced_updateValue | constructor]. }
  apply quiet_synced. be_quiet.
Qed.

Lemma synced_handler (f : jsstring) (st : state) (e : event) (t : task unit) :
  handler_of f st e = Some t ->
  match e with ValueChanged _ => True | _ => synced t end.
Proof.
  destruct e as [v|text|key|id|t0|ms|i o]; cbn [handler_of]; intros E;
    try exact I; try discriminate; injection E as <-.
  - apply quiet_synced, quiet_handleInputChange.
  - apply synced_handleKeyDown.
  - apply synced_updateValue.
  - change (synced (addTag f (tags st) (tagApiPath st) (inl t0))). apply synced_addTag.
Qed.

Lemma in_sync_same (w w' : world) :
  tags (ui w') = tags (ui w) -> hasUserEdited (ui w') = hasUserEdited (ui w) ->
  notifications (log w') = notifications (log w) ->
  in_sync w -> in_sync w'.
Proof. unfold in_sync. intros -> -> ->. auto. Qed.

Lemma synced_run {A} (answer : request -> option outcome) (t : task A) :
  synced t ->
  forall w s w', in_sync w -> run answer t w = (s, w') ->
  in_sync w' /\ match s with Waiting _ k => forall o, synced (k o) | _ => True end.
Proof.
  induction 1 as [a|e|f k Ht Hu _ IH|fn new ty k _ IH|k _ IH|c k Hc _ IH|r k Hk IH
                 |cb d k _ IH|id k _ IH|k _ IH];
    intros w s w' Hw E; cbn [run] in E.
  - inversion E; subst; auto.
  - inversion E; subst; auto.
  - apply IH in E; [exact E|].
    apply in_sync_same with (w := w); cbn [with_ui ui log]; auto.
  - apply IH in E; [exact E|].
    right. exists (notifications (log w)).
    cbn [with_log with_ui ui log tags hasUserEdited setTags setHasUserEdited].
    rewrite notifications_app. auto.
  - apply IH in E; [exact E | exact Hw].
  - apply IH in E; [exact E|].
    apply in_sync_same with (w := w); cbn [with_log ui log]; auto.
    rewrite notifications_app, Hc. apply app_nil_r.
  - assert (Hl : in_sync (with_log (Http r) w)).
    { apply in_sync_same with (w := w); cbn [with_log ui log]; auto.
      rewrite notifications_app. apply app_nil_r. }
    destruct (answer r).
    + apply IH in E; [exact E | exact Hl].
    + inversion E; subst. auto.
  - unfold add_timer in E. apply IH in E; [exact E|].
    apply in_sync_same with (w := w); auto.
  - apply IH in E; [exact E|]. apply in_sync_same with (w := w); auto.
  - apply IH in E; [exact E | exact Hw].
Qed.

Lemma in_sync_run (t : task unit) (w : world) (s : status unit) (w' : world) :
  synced t \/ (exists v, t = initialize v) ->
  in_sync w -> run no_answer t w = (s, w') ->
  in_sync w' /\
  match s with
  | Waiting _ k => forall o, synced (k o) \/ (exists v, k o = initialize v)
  | _ => True
  end.
Proof.
  intros [Ht | [v ->]] Hw E.
  - edestruct (@synced_run unit no_answer) as [H1 H2]; [exact Ht | exact Hw | exact E |]. split; [exact H1|].
    destruct s; auto.
  - unfold initialize in E. cbn [run] in E.
    destruct (hasUserEdited (ui w)) eqn:Hu; [inversion E; subst; auto|].
    rewrite run_bind, run_lift in E.
    destruct (parseTagValue v) as [l|e]; [|inversion E; subst; auto].
    destruct (Nat.ltb 0 (List.length l)); cbn [set run] in E; inversion E; subst; auto.
    split; [|exact I]. unfold in_sync in *. cbn [with_ui ui log hasUserEdited setTags].
    destruct Hw as [Hw | (l0 & _ & Hw)]; [left; exact Hw | congruence].
Qed.

(** X29. The field host and the component never disagree: at every
    moment, either the host has not been notified yet and the user has
    not edited, or the value the host was told last is the encoding of
    the committed set as it stands, whatever requests were in flight
    when the set changed. *)
Theorem host_in_sync (f path : jsstring) (es : list event) :
  in_sync (world_of (steps f (mounted path) es)).
Proof.
  assert (S : safe in_sync (fun t => synced t \/ (exists v, t = initialize v))
                (steps f (mounted path) es)).
  { apply safe_steps.
    - intros w e H. apply in_sync_same with (w := w); cbn [with_log ui log]; auto.
      rewrite notifications_app. apply app_nil_r.
    - intros w t H. exact H.
    - intros w t x rest H E. exact H.
    - intros t w s w' Ht Hw E. eapply in_sync_run; eassumption.
    - intros f0 w e t _ E. pose proof E as H. apply synced_handler in H.
      destruct e; auto. right. cbn [handler_of] in E. inversion E. eauto.
    - intros w t x rest _ _. left. constructor; [reflexivity|].
      apply quiet_synced, quiet_run_callback.
    - split; [left; auto | constructor]. }
  destruct S as [S _]. exact S.
Qed.

(** *** Where the requests go *)

Lemma pop_due_from (t : Z) (ts : list timer) (x : timer) (rest : list timer) :
  pop_due t ts = Some (x, rest) -> In x ts /\ incl rest ts.
Proof.
  revert x rest. induction ts as [|y ts IH]; intros x rest E; [discriminate|].
  cbn [pop_due] in E. destruct (pop_due t ts) as [[z rest']|].
  - destruct (IH z rest' eq_refl) as [Hz Hr].
    destruct (_ && _); inversion E; subst.
    + split; [left; reflexivity | apply incl_tl, incl_refl].
    + split; [right; exact Hz|]. intros a [<- | Ha]; [left; reflexivity | right; auto].
  - destruct (Z.leb _ _); inversion E; subst.
    split; [left; reflexivity | apply incl_tl, incl_refl].
Qed.

Lemma talks_to_run (path : jsstring) (t : task unit) (w : world) (s : status unit)
    (w' : world) :
  within (directory_only path) t -> talks_to path w -> run no_answer t w = (s, w') ->
  talks_to path w' /\
  match s with Waiting _ k => forall o, within (directory_only path) (k o) | _ => True end.
Proof.
  intros Ht Hw E.
  refine (@within_run (directory_only path) (talks_to path) _ _ _ _ _ unit no_answer
            t Ht w s w' Hw E); unfold talks_to; cbn [directory_only okS okC okR okCb okClear].
  - intros f0 w0 Hf (H1 & H2 & H3). cbn [with_ui ui timers log]. rewrite Hf. auto.
  - intros c w0 Hc (H1 & H2 & H3). cbn [with_log ui timers log].
    rewrite requests_app, Hc, app_nil_r. auto.
  - intros r w0 Hr (H1 & H2 & H3). cbn [with_log ui timers log].
    rewrite requests_app. cbn [requests flat_map app].
    repeat split; auto. apply Forall_app. split; [exact H3 | repeat constructor; exact Hr].
  - intros cb d w0 Hc (H1 & H2 & H3). cbn [add_timer snd ui timers log].
    repeat split; auto. apply Forall_app. split; [exact H2 | repeat constructor; exact Hc].
  - intros id w0 _ (H1 & H2 & H3). unfold clear_timer. cbn [with_timers ui timers log].
    repeat split; auto. apply Forall_forall. intros x Hx. apply filter_In in Hx.
    rewrite Forall_forall in H2. apply H2, Hx.
Qed.

(** X30. The widget talks to one collection only: whatever the events
    since mount, every request it has made is a search, an exact-name
    search or a create request at the [tagApiPath] it was mounted with,
    and that path never changes. *)
Theorem requests_stay_in_directory (f path : jsstring) (es : list event) :
  let w := world_of (steps f (mounted path) es) in
  tagApiPath (ui w) = path /\ Forall (aimed_at path) (requests (log w)).
Proof.
  assert (S : safe (talks_to path) (within (directory_only path))
                (steps f (mounted path) es)).
  { apply safe_steps.
    - intros w e (H1 & H2 & H3). unfold talks_to. cbn [with_log ui timers log].
      rewrite requests_app. cbn [requests flat_map]. rewrite app_nil_r. auto.
    - intros w t H. exact H.
    - intros w t x rest (H1 & H2 & H3) E. unfold talks_to.
      cbn [with_now with_timers ui timers log]. repeat split; auto.
      destruct (pop_due_from _ _ E) as [_ Hr].
      apply Forall_forall. intros y Hy. rewrite Forall_forall in H2. apply H2, Hr, Hy.
    - intros t w s w' Ht Hw E. eapply talks_to_run; eassumption.
    - intros f0 w e t (H1 & _) E. rewrite <- H1. eapply aimed_handler, E.
    - intros w t x rest (_ & H2 & _) E. destruct (pop_due_from _ _ E) as [Hx _].
      rewrite Forall_forall in H2. rewrite <- (H2 x Hx). apply aimed_callback.
    - split; [|constructor]. repeat split; constructor. }
  destruct S as [(H1 & _ & H3) _]. cbv zeta. auto.
Qed.

End Properties.

(** * The properties at concrete inputs *)

#[local] Existing Instance example_platform.

(** C1: a committed set whose only tag has the empty name is encoded as
    one object and decoded as the empty set. *)
Lemma C1_roundtrip_counterexample :
  parseTagValue (JSON_stringify (tags_value [tag "1" ""])) = Ok [] /\
  parseTagValue (JSON_stringify (tags_value [tag "1" ""])) <> Ok [tag "1" ""].
Proof.
  split; [apply empty_name_is_not_decoded|].
  rewrite empty_name_is_not_decoded. discriminate.
Qed.

Lemma C1_roundtrip_witness :
  forallb tag_ok [tag "abc" "Tag"; tag "" "x y"] = true /\
  parseTagValue (JSON_stringify (tags_value [tag "abc" "Tag"; tag "" "x y"])) =
  Ok [tag "abc" "Tag"; tag "" "x y"].
Proof.
  split; [reflexivity|]. apply C1_roundtrip. reflexivity.
Defined.

(** C3: once a value has been decoded into the committed set, and before
    any edit, a value that is empty or that [JSON.parse] rejects leaves
    the committed set as it is, not empty; and on a value with an entry
    whose name is an object with a property [toString], [initialize]
    throws a TypeError. *)
Lemma C3_initialize_counterexample :
  let m := step (str "tags") (mounted content_manager)
             (ValueChanged (VString (json "[{'documentId':'1','name':'Go'}]"))) in
  (hasUserEdited (ui (world_of m)) = false /\
   JSON_parse (json "{oops") = Error SyntaxError /\
   tags (ui (world_of (step (str "tags") m (ValueChanged (VString (json "{oops")))))) <> [] /\
   tags (ui (world_of (step (str "tags") m (ValueChanged (VString []))))) <> [] /\
   tags (ui (world_of (step (str "tags") m (ValueChanged VNull)))) <> []) /\
  run no_answer (initialize (VString (json "[{'name':{'toString':1}}]")))
      (world_of (mounted content_manager)) =
    (Failed TypeError, world_of (mounted content_manager)).
Proof.
  destruct (initialize_keeps_committed (P := example_platform))
    as (H1 & H2 & H3 & H4 & H5).
  destruct (initialize_throws (P := example_platform)) as (_ & _ & H6).
  cbv zeta. rewrite H3, H4, H5. repeat split; try assumption; discriminate.
Qed.

(** C4: the committed tag is named [" Go "], with the spaces, and the
    draft is the same text; Enter, like [addTag] called with that text,
    sends the exact-match request for ["Go"] to the Tag Directory. *)
Lemma C4_duplicate_name_counterexample :
  let m := steps (str "tags") (mounted content_manager)
             [ValueChanged (VString (json "[{'documentId':'1','name':' Go '}]"));
              InputChanged (str " Go ")] in
  present (tags (ui (world_of m))) (str " Go ") = true /\
  inputValue (ui (world_of m)) = str " Go " /\
  requests (log (world_of m)) = [] /\
  requests (log (world_of (step (str "tags") m (KeyPressed (str "Enter"))))) <> [] /\
  requests (log (snd (run (fun q => Some (unreachable q))
                        (addTag (str "tags") (tags (ui (world_of m))) content_manager
                           (inr (str " Go ")))
                        (world_of m)))) <> [].
Proof.
  destruct (padded_name_is_resolved (P := example_platform))
    as (H1 & H2 & H3 & H4 & H5).
  cbv zeta. rewrite H4, H1, H5. repeat split; try assumption; discriminate.
Qed.

Lemma C4_duplicate_name_witness :
  present [tag "1" "Go"] (trim (str " go ")) = true /\
  exists s w',
    run (fun q => Some (unreachable q))
        (addTag (str "tags") [tag "1" "Go"] content_manager (inr (str " go ")))
        (world_of (mounted content_manager)) = (s, w') /\
    (s = Finished tt \/ s = Failed TypeError) /\
    tags (ui w') = tags (ui (world_of (mounted content_manager))) /\
    requests (log w') = requests (log (world_of (mounted content_manager))) /\
    notifications (log w') = notifications (log (world_of (mounted content_manager))).
Proof.
  split; [reflexivity|].
  apply C4_duplicate_name_is_not_resolved. reflexivity.
Defined.

(** C2: the search for ["a"] is issued before the search for ["ab"]; the
    response to the second arrives first, the response to the first
    after it; the suggestions end as the results of the first search. *)
Lemma C2_stale_response_counterexample :
  let A := Fulfilled (found [tag "2" "alpha"]) in
  let B := Fulfilled (found [tag "3" "abacus"]) in
  let m := steps (str "tags") (mounted content_manager)
             [InputChanged (str "a"); Elapsed 250;
              InputChanged (str "ab"); Elapsed 250] in
  let m' := steps (str "tags") m [Settled 1 B; Settled 0 A] in
  requests (log (world_of m)) =
    [Get (search_url content_manager (str "a"));
     Get (search_url content_manager (str "ab"))] /\
  suggestions (ui (world_of m')) = published [] A /\
  suggestions (ui (world_of m')) <> published [] B.
Proof.
  destruct (stale_response_overwrites (P := example_platform)) as (H1 & H2 & H3 & H4).
  cbv zeta. rewrite H3, H4. repeat split; try assumption. discriminate.
Qed.

Lemma C2_last_response_wins_witness :
  let m := steps (str "tags") (mounted content_manager)
             [InputChanged (str "a"); Elapsed 250] in
  let o := Fulfilled (found [tag "2" "alpha"]) in
  primitive_ids [] = true /\
  exists r k w1,
    run no_answer (searchTags [] content_manager (str "a"))
        (world_of (mounted content_manager)) = (Waiting r k, w1) /\
    nth_error (in_flight m) 0 = Some (r, k) /\
    suggestions (ui (world_of (step (str "tags") m (Settled 0 o)))) = published [] o /\
    in_flight (step (str "tags") m (Settled 0 o)) = remove_nth 0 (in_flight m).
Proof.
  intros m o. split; [reflexivity|]. do 3 eexists.
  split; [reflexivity|]. split; [reflexivity|].
  eapply (C2_last_response_wins (str "tags") [] content_manager (str "a")
            (world_of (mounted content_manager)) m 0 o);
    reflexivity.
Defined.

(** C6: the Tag Directory answers a search with a record that has no
    name; the suggestion is clicked and committed, its name
    [undefined]; the next name typed and entered makes [findOrCreateTag]
    throw a TypeError, at the duplicate check before its [try]. *)
Lemma C6_findOrCreateTag_counterexample :
  let nameless := {| documentId := VString (str "1"); name := VUndefined |} in
  let response :=
    VObject [(str "data",
              VObject [(str "results",
                        VArray [VObject [(str "documentId", VString (str "1"))]])])] in
  let m := steps (str "tags") (mounted content_manager)
             [InputChanged (str "g"); Elapsed 250; Settled 0 (Fulfilled response)] in
  let m1 := steps (str "tags") m [SuggestionClicked nameless; InputChanged (str "x")] in
  suggestions (ui (world_of m)) = [nameless] /\
  tags (ui (world_of m1)) = [nameless] /\
  inputValue (ui (world_of m1)) = str "x" /\
  isCreating (ui (world_of m1)) = false /\
  (forall r w',
     run (fun q => Some (unreachable q))
         (findOrCreateTag (tags (ui (world_of m1))) content_manager (str "x"))
         (world_of m1) <> (Finished r, w')) /\
  In (Unhandled TypeError)
     (log (world_of (step (str "tags") m1 (KeyPressed (str "Enter"))))).
Proof.
  destruct (nameless_record_throws (P := example_platform))
    as (H1 & _ & H2 & H3 & H4 & H5 & H6).
  cbv zeta. rewrite H2, H5, H6. repeat split; try assumption.
  - intros r w'. discriminate.
  - apply in_or_app. right. right. left. reflexivity.
Qed.

Lemma C6_findOrCreateTag_witness :
  string_names [tag "1" "Go"] = true /\
  isCreating (ui (world_of (mounted content_manager))) = false /\
  exists r w' new,
    run (fun q => Some (unreachable q))
        (findOrCreateTag [tag "1" "Go"] content_manager (str "rust"))
        (world_of (mounted content_manager)) = (Finished r, w') /\
    isCreating (ui w') = false /\
    log w' = log (world_of (mounted content_manager)) ++ new /\
    (forall q x, In (Http q) new -> unreachable q = Rejected x -> r = None) /\
    (forall msg e, In (ConsoleError msg e) new -> r = None) /\
    (forall u b resp, In (Http (Post u b)) new -> unreachable (Post u b) = Fulfilled resp ->
                      has_identifier resp = false -> r = None).
Proof.
  split; [reflexivity|]. split; [reflexivity|].
  apply C6_findOrCreateTag_never_throws; reflexivity.
Defined.

Lemma C8_debounce_witness :
  timers (world_of (mounted content_manager)) = [] /\
  rapid [(str "r", 100%Z); (str "ru", 249%Z); (str "rus", 0%Z)] = true /\
  let m' := steps (str "tags") (mounted content_manager)
              (keystrokes [(str "r", 100%Z); (str "ru", 249%Z); (str "rus", 0%Z)] ++
               [InputChanged (str "rust "); Elapsed 250]) in
  searches (log (world_of m')) =
    searches (log (world_of (mounted content_manager))) ++
    (if Z.leb 250 250 then [trim (str "rust ")] else []) /\
  exists new,
    requests (log (world_of m')) =
      requests (log (world_of (mounted content_manager))) ++ new /\
    (new = [] \/
     exists q, Z.leb 250 250 = true /\
               encodeURIComponent (trim (str "rust ")) = Ok q /\
               new = [Get (search_url (tagApiPath (ui (world_of (mounted content_manager)))) q)]).
Proof.
  split; [reflexivity|].
  split; [reflexivity|].
  apply C8_debounce_collapses; reflexivity.
Defined.

(** X3 at ["Hello, World!"]. *)
Lemma makeSlug_idempotent_witness :
  forallb tabulated (str "Hello, World!") = true /\
  forallb (fun c => negb (in_range 65 90 c)) (makeSlug (str "Hello, World!")) = true /\
  makeSlug (makeSlug (str "Hello, World!")) = makeSlug (str "Hello, World!").
Proof.
  split; [reflexivity|]. apply (makeSlug_idempotent (str "Hello, World!")). reflexivity.
Defined.

(** X4 at a text of punctuation only. *)
Lemma makeSlug_empty_witness :
  forallb tabulated (str "?!") = true /\
  (makeSlug (str "?!") = [] <->
   existsb (fun c => is_letter c || is_number c) (str "?!") = false).
Proof.
  split; [reflexivity|]. apply (makeSlug_empty (str "?!")). reflexivity.
Defined.

(** X6 at the text of an array with one tag. *)
Lemma text_decodes_as_its_value_witness :
  JSON_parse (json "[{'documentId':'1','name':'Go'}]") = Ok (tags_value [tag "1" "Go"]) /\
  typeof_string (tags_value [tag "1" "Go"]) = false /\
  parseTagValue (VString (json "[{'documentId':'1','name':'Go'}]")) =
  parseTagValue (tags_value [tag "1" "Go"]).
Proof.
  split; [reflexivity|]. split; [reflexivity|].
  apply (@text_decodes_as_its_value _ (json "[{'documentId':'1','name':'Go'}]")
           (tags_value [tag "1" "Go"])); reflexivity.
Defined.

(** X7 at two tags. *)
Lemma array_roundtrip_witness :
  forallb tag_ok [tag "1" "Go"; tag "2" "Rust"] = true /\
  parseTagValue (tags_value [tag "1" "Go"; tag "2" "Rust"]) =
  Ok [tag "1" "Go"; tag "2" "Rust"].
Proof.
  split; [reflexivity|].
  apply (@array_roundtrip _ [tag "1" "Go"; tag "2" "Rust"]). reflexivity.
Defined.

(** X8 at two tags. *)
Lemma remount_restores_witness :
  let ts := [tag "1" "Go"; tag "2" "Rust"] in
  forallb tag_ok ts = true /\
  step (str "tags") (mounted content_manager)
       (ValueChanged (JSON_stringify (tags_value ts))) =
    {| world_of := with_ui (setTags ts) (world_of (mounted content_manager));
       in_flight := [] |} /\
  step (str "tags") (mounted content_manager) (ValueChanged (tags_value ts)) =
    {| world_of := with_ui (setTags ts) (world_of (mounted content_manager));
       in_flight := [] |}.
Proof.
  cbv zeta. split; [reflexivity|].
  apply (@remount_restores _ (str "tags") content_manager [tag "1" "Go"; tag "2" "Rust"]).
  reflexivity.
Defined.

(** X9 at a value of one tag. *)
Lemma value_change_is_idempotent_witness :
  let v := VString (json "[{'documentId':'1','name':'Go'}]") in
  decodable v = true /\
  steps (str "tags") (mounted content_manager) [ValueChanged v; ValueChanged v] =
  steps (str "tags") (mounted content_manager) [ValueChanged v].
Proof.
  cbv zeta. split; [reflexivity|].
  apply (@value_change_is_idempotent _ (str "tags") (mounted content_manager)
           (VString (json "[{'documentId':'1','name':'Go'}]"))).
  reflexivity.
Defined.

(** X11 at a configuration that names the content type of articles'
    topics, and at a server that answers every request with the body of
    [getConfig]. *)
Lemma configured_path_witness :
  let cfg := VObject [(str "tagContentType", VString (str "api::topic.topic"))] in
  let dir := fun _ : request => Fulfilled (VObject [(str "data", getConfig (opt_get cfg))]) in
  validator cfg = Valid /\
  dir (Get config_url) = Fulfilled (VObject [(str "data", getConfig (opt_get cfg))]) /\
  let w' := snd (run (fun q => Some (dir q)) loadConfig (world_of (mounted []))) in
  exists uid,
    tagApiPath (ui w') = collection_path uid /\ nonempty uid = true /\
    (opt_get cfg (str "tagContentType") = VString uid \/
     truthy (opt_get cfg (str "tagContentType")) = false /\ uid = DEFAULT_TAG_UID).
Proof.
  cbv zeta. split; [reflexivity|]. split; [reflexivity|].
  apply (@configured_path _
           (VObject [(str "tagContentType", VString (str "api::topic.topic"))])
           (fun _ : request =>
              Fulfilled (VObject [(str "data",
                getConfig (opt_get
                  (VObject [(str "tagContentType", VString (str "api::topic.topic"))])))]))
           (world_of (mounted []))); reflexivity.
Defined.

(** X12 at a draft typed into the component whose configuration has
    not arrived. *)
Lemma enter_before_config_witness :
  key_is (str "Enter") "Enter" || key_is (str "Enter") "," = true /\
  (-1 < 0 \/ Z.of_nat (List.length (@nil TagData)) <= -1)%Z /\
  nonempty (trim (str "go ")) = true /\
  exists w',
    run no_answer (handleKeyDown (str "tags") (str "go ") (-1) [] [] [] (str "Enter"))
      (world_of (mounted [])) = (Finished tt, w') /\
    inputValue (ui w') = [] /\
    tags (ui w') = tags (ui (world_of (mounted []))) /\
    requests (log w') = requests (log (world_of (mounted []))) /\
    notifications (log w') = notifications (log (world_of (mounted []))).
Proof.
  split; [reflexivity|]. split; [left; lia|]. split; [reflexivity|].
  apply (@enter_before_config _ no_answer (str "tags") (str "go ") (-1) [] [] (str "Enter")
           (world_of (mounted []))); [reflexivity | left; lia | reflexivity].
Defined.

(** X15 at a Tag Directory that answers with two records, one of them
    committed. *)
Lemma search_publishes_unselected_witness :
  let dir := fun _ : request => Fulfilled (found [tag "1" "Go"; tag "2" "Rust"]) in
  primitive_ids [tag "1" "Go"] = true /\
  searched content_manager (str "o") = Some (str "o") /\
  dir (Get (search_url content_manager (str "o"))) =
    Fulfilled (found [tag "1" "Go"; tag "2" "Rust"]) /\
  exists w',
    run (fun r => Some (dir r)) (searchTags [tag "1" "Go"] content_manager (str "o"))
      (world_of (mounted content_manager)) = (Finished tt, w') /\
    suggestions (ui w') =
      filter (fun t => negb (selected [tag "1" "Go"] (documentId t)))
             [tag "1" "Go"; tag "2" "Rust"] /\
    showSuggestions (ui w') = nonempty (suggestions (ui w')) /\
    selectedIndex (ui w') = (-1)%Z /\
    tags (ui w') = tags (ui (world_of (mounted content_manager))) /\
    inputValue (ui w') = inputValue (ui (world_of (mounted content_manager))).
Proof.
  cbv zeta. split; [reflexivity|]. split; [reflexivity|]. split; [reflexivity|].
  apply (@search_publishes_unselected _
           (fun _ : request => Fulfilled (found [tag "1" "Go"; tag "2" "Rust"]))
           [tag "1" "Go"] content_manager (str "o") (str "o")
           [tag "1" "Go"; tag "2" "Rust"] (world_of (mounted content_manager)));
    reflexivity.
Defined.

(** X18 at a Tag Directory that knows the name in another spelling. *)
Lemma resolve_existing_witness :
  let dir := fun _ : request => Fulfilled (found [tag "7" "Rust"]) in
  nonempty (trim (str " rust ")) = true /\ nonempty content_manager = true /\
  string_names [tag "1" "Go"] = true /\ present [tag "1" "Go"] (trim (str " rust ")) = false /\
  encodeURIComponent (trim (str " rust ")) = Ok (str "rust") /\
  dir (Get (exact_url content_manager (str "rust"))) = Fulfilled (found [tag "7" "Rust"]) /\
  exists w',
    run (fun r => Some (dir r)) (findOrCreateTag [tag "1" "Go"] content_manager (str " rust "))
      (world_of (mounted content_manager)) = (Finished (Some (tag "7" "Rust")), w') /\
    requests (log w') =
      requests (log (world_of (mounted content_manager))) ++
      [Get (exact_url content_manager (str "rust"))] /\
    isCreating (ui w') = false.
Proof.
  cbv zeta. repeat (split; [reflexivity|]).
  apply (@resolve_existing _ (fun _ : request => Fulfilled (found [tag "7" "Rust"]))
           [tag "1" "Go"] content_manager (str " rust ") (str "rust") (tag "7" "Rust") []
           (world_of (mounted content_manager))); reflexivity.
Defined.

(** X19 at a Tag Directory that knows no tag and answers a create
    request with the new record in an envelope. *)
Lemma resolve_new_witness :
  let dir := fun r : request =>
               match r with
               | Get _ => Fulfilled (found [])
               | Post _ _ => Fulfilled (created true (tag "9" "Zig"))
               end in
  nonempty (trim (str "Zig")) = true /\ nonempty content_manager = true /\
  string_names [] = true /\ present [] (trim (str "Zig")) = false /\
  encodeURIComponent (trim (str "Zig")) = Ok (str "Zig") /\
  dir (Get (exact_url content_manager (str "Zig"))) = Fulfilled (found []) /\
  dir (Post content_manager (create_body (trim (str "Zig")) (makeSlug (trim (str "Zig"))))) =
    Fulfilled (created true (tag "9" "Zig")) /\
  truthy (documentId (tag "9" "Zig")) = true /\
  exists w',
    run (fun r => Some (dir r)) (findOrCreateTag [] content_manager (str "Zig"))
      (world_of (mounted content_manager)) =
      (Finished (Some {| documentId := documentId (tag "9" "Zig");
                         name := or_else (name (tag "9" "Zig"))
                                         (VString (trim (str "Zig"))) |}), w') /\
    requests (log w') =
      requests (log (world_of (mounted content_manager))) ++
      [Get (exact_url content_manager (str "Zig"));
       Post content_manager
         (create_body (trim (str "Zig")) (makeSlug (trim (str "Zig"))))] /\
    isCreating (ui w') = false.
Proof.
  cbv zeta. repeat (split; [reflexivity|]).
  apply (@resolve_new _
           (fun r : request =>
              match r with
              | Get _ => Fulfilled (found [])
              | Post _ _ => Fulfilled (created true (tag "9" "Zig"))
              end)
           [] content_manager (str "Zig") (str "Zig") true (tag "9" "Zig")
           (world_of (mounted content_manager))); reflexivity.
Defined.

(** X20 at a chip removed while the resolution of a new name is in
    flight: the removed tag is back when the response arrives. *)
Lemma resolution_commits_over_stale_set_witness :
  let m := steps (str "tags") (mounted content_manager)
             [ValueChanged (tags_value [tag "1" "Go"]); InputChanged (str "rust");
              KeyPressed (str "Enter"); RemoveClicked (VString (str "1"))] in
  tags (ui (world_of m)) = [] /\
  let m' := step (str "tags") m (Settled 0 (Fulfilled (found [tag "7" "Rust"]))) in
  tags (ui (world_of m')) = [tag "1" "Go"] ++ [tag "7" "Rust"] /\
  notifications (log (world_of m')) =
    notifications (log (world_of m)) ++
    [JSON_stringify (tags_value ([tag "1" "Go"] ++ [tag "7" "Rust"]))] /\
  in_flight m' = remove_nth 0 (in_flight m).
Proof.
  cbv zeta. split; [reflexivity|].
  eapply (@resolution_commits_over_stale_set _ (str "tags") [tag "1" "Go"] content_manager
            (str "rust") (world_of (mounted content_manager)));
    reflexivity.
Defined.

(** X21 at a query and a name with characters that delimit a URL. *)
Lemma queries_are_encoded_witness :
  code_units (str "c++ & co") = true /\ code_units (str " c# ") = true /\
  (forall q, searched content_manager (str "c++ & co") = Some q ->
             forallb url_safe q = true) /\
  (forall q, encodeURIComponent (trim (str " c# ")) = Ok q -> forallb url_safe q = true).
Proof.
  split; [reflexivity|]. split; [reflexivity|].
  apply (@queries_are_encoded _ content_manager (str "c++ & co") (str " c# "));
    reflexivity.
Defined.

(** X22 at the first suggestion of a dropdown, with a draft typed. *)
Lemma enter_takes_highlighted_witness :
  key_is (str "Enter") "Enter" || key_is (str "Enter") "," = true /\
  (0 <= 0)%Z /\
  nth_error [tag "1" "Go"; tag "2" "Rust"] (Z.to_nat 0) = Some (tag "1" "Go") /\
  primitive (documentId (tag "1" "Go")) = true /\
  exists w',
    run no_answer
      (handleKeyDown (str "tags") (str "g") 0%Z [tag "1" "Go"; tag "2" "Rust"]
         [tag "3" "Zig"] content_manager (str "Enter"))
      (world_of (mounted content_manager)) = (Finished tt, w') /\
    requests (log w') = requests (log (world_of (mounted content_manager))) /\
    if existsb (fun x => strict_equals (documentId x) (documentId (tag "1" "Go")))
         [tag "3" "Zig"]
    then w' = with_log PreventDefault (world_of (mounted content_manager))
    else tags (ui w') = [tag "3" "Zig"] ++ [tag "1" "Go"] /\ inputValue (ui w') = [] /\
         suggestions (ui w') = [] /\ showSuggestions (ui w') = false /\
         notifications (log w') =
           notifications (log (world_of (mounted content_manager))) ++
           [JSON_stringify (tags_value ([tag "3" "Zig"] ++ [tag "1" "Go"]))].
Proof.
  split; [reflexivity|]. split; [lia|]. split; [reflexivity|]. split; [reflexivity|].
  apply (@enter_takes_highlighted _ no_answer (str "tags") (str "g") 0%Z
           [tag "1" "Go"; tag "2" "Rust"] [tag "3" "Zig"] content_manager (str "Enter")
           (tag "1" "Go") (world_of (mounted content_manager)));
    [reflexivity | lia | reflexivity | reflexivity].
Defined.

(** X23 at the component just mounted: nothing to highlight. *)
Lemma arrows_stay_in_range_witness :
  let m := mounted content_manager in
  let keys := [str "ArrowDown"; str "ArrowDown"; str "ArrowUp"] in
  forallb arrow keys = true /\
  (-1 <= selectedIndex (ui (world_of m))
      < Z.of_nat (List.length (suggestions (ui (world_of m)))))%Z /\
  let m' := steps (str "tags") m (map KeyPressed keys) in
  (-1 <= selectedIndex (ui (world_of m'))
      < Z.of_nat (List.length (suggestions (ui (world_of m')))))%Z /\
  suggestions (ui (world_of m')) = suggestions (ui (world_of m)) /\
  tags (ui (world_of m')) = tags (ui (world_of m)) /\
  requests (log (world_of m')) = requests (log (world_of m)) /\
  notifications (log (world_of m')) = notifications (log (world_of m)).
Proof.
  cbv zeta. split; [reflexivity|]. split; [simpl; lia|].
  apply (@arrows_stay_in_range _ (str "tags")
           [str "ArrowDown"; str "ArrowDown"; str "ArrowUp"] (mounted content_manager));
    [reflexivity | simpl; lia].
Defined.

(** X25 at the component just mounted. *)
Lemma add_then_remove_witness :
  let m := mounted content_manager in
  let t := tag "1" "Go" in
  strict_equals (documentId t) (documentId t) = true /\
  existsb (fun x => strict_equals (documentId x) (documentId t))
          (tags (ui (world_of m))) = false /\
  let ts := tags (ui (world_of m)) in
  let m' := steps (str "tags") m [SuggestionClicked t; RemoveClicked (documentId t)] in
  tags (ui (world_of m')) = ts /\
  notifications (log (world_of m')) =
    notifications (log (world_of m)) ++
    [JSON_stringify (tags_value (ts ++ [t])); JSON_stringify (tags_value ts)] /\
  in_flight m' = in_flight m.
Proof.
  cbv zeta. split; [reflexivity|]. split; [reflexivity|].
  apply (@add_then_remove _ (str "tags") (mounted content_manager) (tag "1" "Go"));
    reflexivity.
Defined.

(** X26 at the component just mounted. *)
Lemma click_twice_witness :
  strict_equals (documentId (tag "1" "Go")) (documentId (tag "1" "Go")) = true /\
  steps (str "tags") (mounted content_manager)
    [SuggestionClicked (tag "1" "Go"); SuggestionClicked (tag "1" "Go")] =
  steps (str "tags") (mounted content_manager) [SuggestionClicked (tag "1" "Go")].
Proof.
  split; [reflexivity|].
  apply (@click_twice _ (str "tags") (mounted content_manager) (tag "1" "Go")). reflexivity.
Defined.

(** X27 after a click on a suggestion, followed by an edit of the draft
    and a response that never comes. *)
Lemma edit_latch_is_permanent_witness :
  let m1 := steps (str "tags") (mounted content_manager)
              [SuggestionClicked (tag "1" "Go")] in
  hasUserEdited (ui (world_of m1)) = true /\
  let m2 := steps (str "tags") m1 [InputChanged (str "ru"); Elapsed 250] in
  hasUserEdited (ui (world_of m2)) = true /\
  step (str "tags") m2 (ValueChanged (VString (json "[{'documentId':'2','name':'Rust'}]")))
    = m2.
Proof.
  cbv zeta. split; [reflexivity|].
  apply (@edit_latch_is_permanent _ (str "tags") content_manager
           [SuggestionClicked (tag "1" "Go")] [InputChanged (str "ru"); Elapsed 250]
           (VString (json "[{'documentId':'2','name':'Rust'}]"))).
  reflexivity.
Defined.
